(** * gwpopulation: backend registry and redshift population models

    A shallow embedding of [gwpopulation/backend.py] and
    [gwpopulation/models/redshift.py], and the properties of the two
    modules that the specification states.

    - Python exceptions are values of [exception]; a call that may raise
      returns a [result].
    - The interpreter state touched by [set_backend] (the module global
      [__backend__], [sys.modules] with the attributes set on each
      module object, the jax precision flag, the imports performed) is
      threaded through the monad [py]; the import system of the machine
      is a parameter [env] of every import.
    - A model instance is a record; the methods that assign to [self]
      run in the same monad over that record.
    - Floating point numbers are idealised as real numbers (no rounding,
      no [inf] or [nan]); arrays are one-dimensional and carry the name
      of the array module that owns them.
    - [powerlaw], [trapz] and [to_numpy] live in modules of the package
      that are not part of the two files; they are modelled from the
      specification and marked as such. *)

From Stdlib Require Import Reals Lra Lia Ascii String.
From stdpp Require Import base strings gmap list.

(* ===================================================================== *)
(** * Exceptions and results *)
(* ===================================================================== *)

Inductive exception : Type :=
| ValueError (msg : string)
| TypeError (msg : string)
| KeyError (key : string)
| ModuleNotFoundError (msg : string)
| ImportError (msg : string)
| RuntimeError (msg : string)
| NotImplementedError.

Inductive result (A : Type) : Type :=
| Ok (a : A)
| Raise (e : exception).
Arguments Ok {A} a.
Arguments Raise {A} e.

Definition is_Ok {A} (r : result A) : Prop :=
  match r with Ok _ => True | Raise _ => False end.

(** The two classes an [ImportError] can belong to.  In Python
    [ModuleNotFoundError] is a subclass of [ImportError]; a caller tells
    them apart by the class of the exception object. *)
Inductive error_kind : Type :=
| ConfigurationError      (* ValueError: unsupported backend name *)
| BackendUnavailable      (* ModuleNotFoundError *)
| BackendBroken           (* ImportError that is not ModuleNotFoundError *)
| OtherError.

Definition kind_of (e : exception) : error_kind :=
  match e with
  | ValueError _ => ConfigurationError
  | ModuleNotFoundError _ => BackendUnavailable
  | ImportError _ => BackendBroken
  | _ => OtherError
  end.

(* ===================================================================== *)
(** * backend.py *)
(* ===================================================================== *)

(** ** Interpreter state *)

(** Objects that [set_backend] binds: a module, identified by its dotted
    name, or an attribute read off a module ([scipy.special],
    [jax.scipy.integrate.trapezoid], [jax.config]). *)
Inductive pyobj : Type :=
| PyModule (name : string)
| PyAttr (owner : string) (attr : string).

#[global] Instance pyobj_eq_dec : EqDecision pyobj.
Proof. solve_decision. Defined.

Record interp_state : Type := InterpState {
  __backend__ : string;
  (* sys.modules: dotted module name -> attributes set on the module object *)
  sys_modules : gmap string (gmap string pyobj);
  (* the flag behind config.update("jax_enable_x64", ...) *)
  jax_enable_x64 : bool;
  (* every module name handed to the import system, most recent first *)
  import_log : list string
}.

(** What the import system of the running environment answers for one
    module name: the module is there; it is not installed
    ([ModuleNotFoundError] naming the module); it is installed and
    cannot be imported ([ImportError]); or it is installed and running
    its code raises [e], which the import statement passes on as it is:
    a [ModuleNotFoundError] naming another module when a module it
    imports in turn is missing, or an exception of any other class. *)
Inductive import_outcome : Type :=
| Importable
| NotInstalled
| Broken
| Raises (e : exception).

Definition environment : Type := string -> import_outcome.

(** ** State and exception monad *)

(** A computation that reads and writes a state [S] and either returns
    or raises: [set_backend] runs over the interpreter state,
    [probability] over the model instance [self]. *)
Definition stateful (S A : Type) : Type := S -> S * result A.

Definition ret {S A} (a : A) : stateful S A := fun st => (st, Ok a).
Definition raise {S A} (e : exception) : stateful S A := fun st => (st, Raise e).
Definition bind {S A B} (m : stateful S A) (k : A -> stateful S B)
  : stateful S B :=
  fun st =>
    match m st with
    | (st', Ok a) => k a st'
    | (st', Raise e) => (st', Raise e)
    end.
(** A pure computation that may raise, run inside a stateful one. *)
Definition lift {S A} (r : result A) : stateful S A := fun st => (st, r).

Notation "x <~ m ;; k" := (bind m (fun x => k))
  (at level 100, m at next level, right associativity).
Notation "m ;;; k" := (bind m (fun _ => k))
  (at level 100, right associativity).

(** Sequencing of pure computations that may raise. *)
Definition and_then {A B} (r : result A) (k : A -> result B) : result B :=
  match r with
  | Ok a => k a
  | Raise e => Raise e
  end.
Notation "x <-? r ;; k" := (and_then r (fun x => k))
  (at level 100, r at next level, right associativity).

(** [try: m except e: handler e]. *)
Definition try_except {S A} (m : stateful S A)
    (handler : exception -> stateful S A) : stateful S A :=
  fun st =>
    match m st with
    | (st', Ok a) => (st', Ok a)
    | (st', Raise e) => handler e st'
    end.

(** [for x in l: body x]. *)
Fixpoint for_each {S A} (l : list A) (body : A -> stateful S unit)
  : stateful S unit :=
  match l with
  | [] => ret tt
  | x :: rest => body x ;;; for_each rest body
  end.

Abbreviation py := (stateful interp_state).

(** ** Module constants *)

Definition __all_with_xp : list string :=
  [ "hyperpe"; "models.interped"; "models.mass"; "models.redshift";
    "models.spin"; "utils"; "vt" ].
Definition __all_with_scs : list string := [ "models.mass"; "utils" ].
Definition initial_backend : string := "".
Definition SUPPORTED_BACKENDS : list string := [ "numpy"; "cupy"; "jax" ].
Definition _np_module : gmap string string :=
  {[ "numpy" := "numpy"; "cupy" := "cupy"; "jax" := "jax.numpy" ]}.
Definition _scipy_module : gmap string string :=
  {[ "numpy" := "scipy"; "cupy" := "cupyx.scipy"; "jax" := "jax.scipy" ]}.

(** The interpreter state right after [backend.py] has been loaded. *)
Definition initial_state : interp_state :=
  {| __backend__ := initial_backend; sys_modules := ∅;
     jax_enable_x64 := false; import_log := [] |}.

(** ** Primitive effects *)

(** [d[key]] on a dict. *)
Definition lookup_key {V} (d : gmap string V) (key : string) : result V :=
  match d !! key with
  | Some v => Ok v
  | None => Raise (KeyError key)
  end.
Definition getitem {S V} (d : gmap string V) (key : string) : stateful S V :=
  lift (lookup_key d key).

(** [", ".join(l)]. *)
Fixpoint join (sep : string) (l : list string) : string :=
  match l with
  | [] => ""
  | [x] => x
  | x :: rest => x +:+ sep +:+ join sep rest
  end.

(** The packages that are imported on the way to a dotted name:
    ["jax.numpy"] gives [["jax"; "jax.numpy"]]. *)
Fixpoint dotted_prefixes_from (seen : string) (s : string) : list string :=
  match s with
  | EmptyString => [seen]
  | String c rest =>
      if Ascii.eqb c "."%char
      then seen :: dotted_prefixes_from (seen +:+ ".") rest
      else dotted_prefixes_from (seen +:+ String c EmptyString) rest
  end.
Definition dotted_prefixes (name : string) : list string :=
  dotted_prefixes_from "" name.

(** The exception the import system raises for a chain of packages: the
    first package that cannot be imported decides. *)
Fixpoint first_import_failure (env : environment) (chain : list string)
  : option exception :=
  match chain with
  | [] => None
  | n :: rest =>
      match env n with
      | Importable => first_import_failure env rest
      | NotInstalled =>
          Some (ModuleNotFoundError ("No module named '" +:+ n +:+ "'"))
      | Broken => Some (ImportError ("cannot import " +:+ n))
      | Raises e => Some e
      end
  end.

Definition log_import (name : string) : py unit :=
  fun st =>
    ({| __backend__ := __backend__ st; sys_modules := sys_modules st;
        jax_enable_x64 := jax_enable_x64 st;
        import_log := name :: import_log st |}, Ok tt).

(** [importlib.import_module(name)] with an absolute name: the parent
    packages are imported first, and a module that is imported for the
    first time enters [sys.modules]. *)
Definition import_module (env : environment) (name : string) : py pyobj :=
  log_import name ;;;
  match first_import_failure env (dotted_prefixes name) with
  | Some e => raise e
  | None =>
      fun st =>
        ({| __backend__ := __backend__ st;
            sys_modules :=
              <[ name := default ∅ (sys_modules st !! name) ]> (sys_modules st);
            jax_enable_x64 := jax_enable_x64 st;
            import_log := import_log st |}, Ok (PyModule name))
  end.

(** [from owner import attr]; the attribute is taken to exist once the
    module is importable. *)
Definition from_import (env : environment) (owner attr : string) : py pyobj :=
  import_module env owner ;;; ret (PyAttr owner attr).

(** [obj.attr] for a module object. *)
Definition getattr (obj : pyobj) (attr : string) : pyobj :=
  match obj with
  | PyModule name => PyAttr name attr
  | PyAttr owner a => PyAttr (owner +:+ "." +:+ a) attr
  end.

Definition object_name (obj : pyobj) : string :=
  match obj with
  | PyModule name => name
  | PyAttr owner a => owner +:+ "." +:+ a
  end.

(** [obj.attr = value]: the attribute is stored on the module object
    itself, the entry of [sys.modules] that every importer shares. *)
Definition setattr (obj : pyobj) (attr : string) (value : pyobj) : py unit :=
  fun st =>
    let name := object_name obj in
    ({| __backend__ := __backend__ st;
        sys_modules :=
          <[ name := <[ attr := value ]> (default ∅ (sys_modules st !! name)) ]>
            (sys_modules st);
        jax_enable_x64 := jax_enable_x64 st;
        import_log := import_log st |}, Ok tt).

(** [config.update("jax_enable_x64", value)]. *)
Definition config_update_x64 (value : bool) : py unit :=
  fun st =>
    ({| __backend__ := __backend__ st; sys_modules := sys_modules st;
        jax_enable_x64 := value; import_log := import_log st |}, Ok tt).

(** [global __backend__; __backend__ = backend]. *)
Definition assign_backend (backend : string) : py unit :=
  fun st =>
    ({| __backend__ := backend; sys_modules := sys_modules st;
        jax_enable_x64 := jax_enable_x64 st;
        import_log := import_log st |}, Ok tt).

(** [module.attr], read at call time through the module object. *)
Definition module_attribute (st : interp_state) (module attr : string)
  : option pyobj :=
  sys_modules st !! module ≫= fun ns => ns !! attr.

(** ** set_backend *)

Definition not_supported_message (backend : string) : string :=
  "Backend " +:+ backend +:+ " not supported, should be in "
  +:+ join ", " SUPPORTED_BACKENDS.

(** Lines 46-49: the jit-compiled backend is switched to 64-bit
    precision before anything else is imported. *)
Definition enable_x64 (env : environment) (backend : string) : py unit :=
  if bool_decide (backend = "jax") then
    from_import env "jax" "config" ;;;
    config_update_x64 true
  else ret tt.

(** Lines 53-59: the array module and the special functions, with the
    two import failures re-raised under the backend's name. *)
Definition import_backend (env : environment) (backend : string)
  : py (pyobj * pyobj) :=
  try_except
    (np_name <~ getitem _np_module backend ;;
     xp <~ import_module env np_name ;;
     scipy_name <~ getitem _scipy_module backend ;;
     scipy <~ import_module env scipy_name ;;
     ret (xp, getattr scipy "special"))
    (fun e =>
       match e with
       | ModuleNotFoundError _ =>
           raise (ModuleNotFoundError (backend +:+ " not installed"))
       | ImportError _ =>
           raise (ImportError (backend +:+ " installed but not importable"))
       | _ => raise e
       end).

(** Lines 60-66: [xp.trapz = trapezoid] for jax, skipped when
    [jax.scipy.integrate] is missing. *)
Definition alias_trapz (env : environment) (backend : string) (xp : pyobj)
  : py unit :=
  if bool_decide (backend = "jax") then
    try_except
      (trapezoid <~ from_import env "jax.scipy.integrate" "trapezoid" ;;
       setattr xp "trapz" trapezoid)
      (fun e =>
         match e with
         | ModuleNotFoundError _ => ret tt
         | _ => raise e
         end)
  else ret tt.

(** Lines 67-69 and 70-71: the two loops over the dependent modules. *)
Definition rebind_xp (env : environment) (backend : string) (xp : pyobj)
  : py unit :=
  for_each __all_with_xp (fun module =>
    assign_backend backend ;;;
    m <~ import_module env ("gwpopulation." +:+ module) ;;
    setattr m "xp" xp).
Definition rebind_scs (env : environment) (scs : pyobj) : py unit :=
  for_each __all_with_scs (fun module =>
    m <~ import_module env ("gwpopulation." +:+ module) ;;
    setattr m "scs" scs).

Definition set_backend (env : environment) (backend : string) : py unit :=
  fun st =>
    if negb (bool_decide (backend ∈ SUPPORTED_BACKENDS)) then
      raise (ValueError (not_supported_message backend)) st
    else if bool_decide (backend = __backend__ st) then
      ret tt st
    else
      (enable_x64 env backend ;;;
       bound <~ import_backend env backend ;;
       let '(xp, scs) := bound in
       alias_trapz env backend xp ;;;
       rebind_xp env backend xp ;;;
       rebind_scs env scs) st.

(** [disable_cupy()] and [enable_cupy()]: the deprecation warning has no
    effect on the state; the call is handed to [set_backend]. *)
Definition disable_cupy (env : environment) : py unit := set_backend env "numpy".
Definition enable_cupy (env : environment) : py unit := set_backend env "cupy".

(** The array module that the code of [models/redshift.py] finds under
    its global name [xp] when it runs in state [st]. *)
Definition redshift_xp (st : interp_state) : option string :=
  match module_attribute st "gwpopulation.models.redshift" "xp" with
  | Some (PyModule name) => Some name
  | _ => None
  end.

(** An environment in which everything is installed, one without cupy,
    and one whose cupy installation is damaged. *)
Definition env_all : environment := fun _ => Importable.
Definition env_no_cupy : environment :=
  fun n => if bool_decide (n = "cupy") then NotInstalled else Importable.
Definition env_broken_cupy : environment :=
  fun n => if bool_decide (n = "cupy") then Broken else Importable.
Definition env_no_jax : environment :=
  fun n => if bool_decide (n = "jax") then NotInstalled else Importable.

(* ===================================================================== *)
(** * Arrays *)
(* ===================================================================== *)

Local Open Scope R_scope.

(** A one-dimensional array of reals together with the dotted name of
    the array module it belongs to (["numpy"], ["cupy"], ["jax.numpy"]).
    Arithmetic is modelled on the values; the result of an operation
    belongs to the module of its left array operand. *)
Record ndarray : Type := NdArray {
  array_module : string;
  data : list R
}.

Definition shape (a : ndarray) : nat := length (data a).

(** [xp.asarray(a)]: same values, in the array type of [xp]. *)
Definition asarray (xp : string) (a : ndarray) : ndarray :=
  {| array_module := xp; data := data a |}.

(** Modelled from the spec: [cupy_utils.to_numpy] is not among the
    sources; the spec has the interpolation work on "plain
    (backend-independent) arrays", so it yields the same values as a
    numpy array. *)
Definition to_numpy (a : ndarray) : ndarray := asarray "numpy" a.

(** [c + a], [a / c] with a scalar [c]. *)
Definition scalar_add (c : R) (a : ndarray) : ndarray :=
  {| array_module := array_module a; data := map (Rplus c) (data a) |}.
Definition div_scalar (a : ndarray) (c : R) : ndarray :=
  {| array_module := array_module a; data := map (fun x => x / c) (data a) |}.

(** [a op b] for two one-dimensional arrays, with numpy's broadcasting:
    equal lengths combine elementwise, a length-one operand is
    stretched, anything else raises [ValueError]. *)
Definition elementwise (f : R -> R -> R) (a b : ndarray) : result ndarray :=
  if Nat.eqb (shape a) (shape b) then
    Ok {| array_module := array_module a;
          data := zip_with f (data a) (data b) |}
  else
    match data a, data b with
    | [x], _ =>
        Ok {| array_module := array_module a; data := map (f x) (data b) |}
    | _, [y] =>
        Ok {| array_module := array_module a;
              data := map (fun x => f x y) (data a) |}
    | _, _ =>
        Raise (ValueError "operands could not be broadcast together")
    end.

(** [a op= b]: the result is written into [a], so only [b] can be
    stretched; a [b] of another length raises [ValueError] and leaves
    [a] as it was. *)
Definition inplace (f : R -> R -> R) (a b : ndarray) : result ndarray :=
  if Nat.eqb (shape a) (shape b) then
    Ok {| array_module := array_module a;
          data := zip_with f (data a) (data b) |}
  else
    match data b with
    | [y] =>
        Ok {| array_module := array_module a;
              data := map (fun x => f x y) (data a) |}
    | _ => Raise (ValueError "non-broadcastable output operand")
    end.

(** [a *= c] where [c] may be [None]. *)
Definition imul (a : ndarray) (c : option ndarray) : result ndarray :=
  match c with
  | None =>
      Raise (TypeError "unsupported operand type(s) for *=: 'float' and 'NoneType'")
  | Some b => inplace Rmult a b
  end.

(** [x ** e] for a positive base.  (For exponent 0 the value is 1 for
    every base, as in numpy.) *)
Definition power (x e : R) : R := Rpower x e.

(** [np.linspace(start, stop, num)]: [num] evenly spaced samples, the
    last one being [stop]. *)
Definition linspace (start stop : R) (num : nat) : list R :=
  map (fun i => INR i * ((stop - start) / INR (num - 1)) + start) (seq 0 num).

(** [np.interp] at one query point [x], for increasing sample points
    [xs] with values [fs]: the segment [xs[j] <= x < xs[j+1]] is located
    and interpolated linearly; at and after the last sample point the
    last value is returned. *)
Fixpoint interp_segment (x : R) (xs fs : list R) : R :=
  match xs, fs with
  | x0 :: xs', f0 :: fs' =>
      match xs', fs' with
      | x1 :: _, f1 :: _ =>
          if Rlt_dec x x1 then
            if Req_dec_T x0 x then f0
            else (f1 - f0) / (x1 - x0) * (x - x0) + f0
          else interp_segment x xs' fs'
      | _, _ => f0
      end
  | _, _ => 0
  end.

(** One query point: right of the samples the last value, left of them
    the first value (the defaults of [left] and [right]). *)
Definition interp1 (xs fs : list R) (x : R) : R :=
  if Rlt_dec (List.last xs 0) x then List.last fs 0
  else if Rlt_dec x (hd 0 xs) then hd 0 fs
  else interp_segment x xs fs.

(** [np.interp(x, xp, fp)]; the result is a numpy array. *)
Definition np_interp (x xp fp : ndarray) : result ndarray :=
  if Nat.eqb (shape xp) 0 then
    Raise (ValueError "array of sample points is empty")
  else if negb (Nat.eqb (shape xp) (shape fp)) then
    Raise (ValueError "fp and xp are not of the same length.")
  else
    Ok {| array_module := "numpy";
          data := map (interp1 (data xp) (data fp)) (data x) |}.

(** Modelled from the spec: [cupy_utils.trapz] is not among the sources;
    the spec describes [trapz(y, x) -> scalar] as numerical integration
    by the trapezoidal rule: the sum of
    [(x[i+1] - x[i]) * (y[i+1] + y[i]) / 2]. *)
Fixpoint trapz_list (y x : list R) : R :=
  match y, x with
  | y0 :: y', x0 :: x' =>
      match y', x' with
      | y1 :: _, x1 :: _ => (x1 - x0) * (y1 + y0) / 2 + trapz_list y' x'
      | _, _ => 0
      end
  | _, _ => 0
  end.
Definition trapz (y x : ndarray) : R := trapz_list (data y) (data x).

(** Modelled from the spec: [utils.powerlaw] is not among the sources;
    the spec gives [powerlaw(x, alpha, low, high)] as zero outside
    [[low, high]] and, for the call made here with [low = 1], as
    [((1+z)/1)^alpha] inside. *)
Definition powerlaw1 (alpha high low xx : R) : R :=
  if Rle_dec low xx then
    if Rle_dec xx high then power (xx / low) alpha else 0
  else 0.
Definition powerlaw (xx : ndarray) (alpha high low : R) : ndarray :=
  {| array_module := array_module xx;
     data := map (powerlaw1 alpha high low) (data xx) |}.

(** [a ** e] with a scalar exponent. *)
Definition pow_scalar (a : ndarray) (e : R) : ndarray :=
  {| array_module := array_module a;
     data := map (fun x => power x e) (data a) |}.

(* ===================================================================== *)
(** * models/redshift.py *)
(* ===================================================================== *)

(** The attributes of a model instance.  [zs_] and [dvc_dz_] are the
    numpy copies of the grid and of the volume term, [zs] and [dvc_dz]
    the copies in the array type that was active at construction;
    [cached_dvc_dz] is [None] until the first interpolation. *)
Record _Redshift : Type := Redshift {
  z_max : R;
  zs_ : ndarray;
  zs : ndarray;
  dvc_dz_ : ndarray;
  dvc_dz : ndarray;
  cached_dvc_dz : option ndarray
}.

(** [self.cached_dvc_dz = c]. *)
Definition set_cached_dvc_dz (self : _Redshift) (c : option ndarray)
  : _Redshift :=
  {| z_max := z_max self; zs_ := zs_ self; zs := zs self;
     dvc_dz_ := dvc_dz_ self; dvc_dz := dvc_dz self; cached_dvc_dz := c |}.

(** [_Redshift.__init__(self, z_max)].  [cosmology] stands for
    [Planck15.differential_comoving_volume(z).value] (astropy), [xp] for
    the array module bound in [models.redshift] at that moment. *)
Definition __init__ (cosmology : R -> R) (xp : string) (z_max : R)
  : _Redshift :=
  let zs_ := {| array_module := "numpy";
                data := linspace (1 / 1000) z_max 1000 |} in
  let dvc_dz_ := {| array_module := "numpy";
                    data := map (fun z => cosmology z * 4 * PI) (data zs_) |} in
  {| z_max := z_max;
     zs_ := zs_;
     zs := asarray xp zs_;
     dvc_dz_ := dvc_dz_;
     dvc_dz := asarray xp dvc_dz_;
     cached_dvc_dz := None |}.

(** A class of the family: its [psi_of_z] method.  The method reads
    [self] and does not assign to it. *)
Record redshift_class : Type := RedshiftClass {
  psi_of_z : _Redshift -> ndarray -> gmap string R -> result ndarray
}.

(** [self.psi_of_z(redshift=redshift, **parameters)]: a key ["redshift"]
    among the parameters collides with the explicit keyword. *)
Definition call_psi_of_z (cls : redshift_class) (self : _Redshift)
    (redshift : ndarray) (parameters : gmap string R) : result ndarray :=
  match parameters !! "redshift" with
  | Some _ =>
      Raise (TypeError "psi_of_z() got multiple values for keyword argument 'redshift'")
  | None => psi_of_z cls self redshift parameters
  end.

(** [_Redshift._cache_dvc_dz(self, redshifts)]. *)
Definition _cache_dvc_dz (xp : string) (redshifts : ndarray)
  : stateful _Redshift unit :=
  fun self =>
    match np_interp (to_numpy redshifts) (zs_ self) (dvc_dz_ self) with
    | Ok v => (set_cached_dvc_dz self (Some (asarray xp v)), Ok tt)
    | Raise e => (self, Raise e)
    end.

(** [_Redshift.normalisation(self, parameters)]. *)
Definition normalisation (cls : redshift_class) (parameters : gmap string R)
  : stateful _Redshift R :=
  fun self =>
    lift
      (psi_of_z <-? call_psi_of_z cls self (zs self) parameters ;;
       weighted <-? elementwise Rmult psi_of_z (dvc_dz self) ;;
       integrand <-? elementwise Rdiv weighted (scalar_add 1 (zs self)) ;;
       Ok (trapz integrand (zs self)))
      self.

(** [_Redshift.probability(self, dataset, **parameters)]. *)
Definition probability (cls : redshift_class) (xp : string)
    (dataset : gmap string ndarray) (parameters : gmap string R)
  : stateful _Redshift ndarray :=
  redshift <~ getitem dataset "redshift" ;;
  psi_of_z <~ (fun self => lift (call_psi_of_z cls self redshift parameters) self) ;;
  norm <~ normalisation cls parameters ;;
  quotient <~ lift (elementwise Rdiv psi_of_z (scalar_add 1 redshift)) ;;
  let p_z := div_scalar quotient norm in
  try_except
    (fun self => lift (imul p_z (cached_dvc_dz self)) self)
    (fun e =>
       match e with
       | TypeError _ | ValueError _ =>
           _cache_dvc_dz xp redshift ;;;
           (fun self => lift (imul p_z (cached_dvc_dz self)) self)
       | _ => raise e
       end).

(** ** The classes *)

(** [_Redshift]: [psi_of_z] and [__call__] raise [NotImplementedError]. *)
Definition _Redshift_class : redshift_class :=
  {| psi_of_z := fun _ _ _ => Raise NotImplementedError |}.
Definition _Redshift__call__ : stateful _Redshift ndarray :=
  raise NotImplementedError.

(** [PowerLawRedshift]. *)
Definition PowerLawRedshift_psi_of_z (self : _Redshift) (redshift : ndarray)
    (parameters : gmap string R) : result ndarray :=
  lamb <-? lookup_key parameters "lamb" ;;
  Ok (powerlaw (scalar_add 1 redshift) lamb (1 + z_max self) 1).
Definition PowerLawRedshift : redshift_class :=
  {| psi_of_z := PowerLawRedshift_psi_of_z |}.
Definition PowerLawRedshift__call__ (xp : string)
    (dataset : gmap string ndarray) (lamb : R) : stateful _Redshift ndarray :=
  probability PowerLawRedshift xp dataset {[ "lamb" := lamb ]}.

(** [MadauDickinsonRedshift]. *)
Definition MadauDickinsonRedshift_psi_of_z (self : _Redshift)
    (redshift : ndarray) (parameters : gmap string R) : result ndarray :=
  gamma <-? lookup_key parameters "gamma" ;;
  kappa <-? lookup_key parameters "kappa" ;;
  z_peak <-? lookup_key parameters "z_peak" ;;
  let psi_of_z :=
    powerlaw (scalar_add 1 redshift) gamma (1 + z_max self) 1 in
  inplace Rdiv psi_of_z
    (scalar_add 1
       (pow_scalar (div_scalar (scalar_add 1 redshift) (1 + z_peak)) kappa)).
Definition MadauDickinsonRedshift : redshift_class :=
  {| psi_of_z := MadauDickinsonRedshift_psi_of_z |}.
Definition MadauDickinsonRedshift__call__ (xp : string)
    (dataset : gmap string ndarray) (gamma kappa z_peak : R)
  : stateful _Redshift ndarray :=
  probability MadauDickinsonRedshift xp dataset
    {[ "gamma" := gamma; "kappa" := kappa; "z_peak" := z_peak ]}.

(** [power_law_redshift = PowerLawRedshift()]. *)
Definition power_law_redshift (cosmology : R -> R) (xp : string) : _Redshift :=
  __init__ cosmology xp 1.

(* ===================================================================== *)
(** * Vocabulary of the statements *)
(* ===================================================================== *)

(** An instance whose grid can be interpolated: what [__init__]
    establishes and no method changes. *)
Definition grid_ok (self : _Redshift) : Prop :=
  shape (zs_ self) ≠ 0%nat ∧ shape (zs_ self) = shape (dvc_dz_ self).

(** An instance built by [__init__] for [z_max], in any state of its
    cache slot. *)
Definition constructed (cosmology : R -> R) (z_max : R) (self : _Redshift)
  : Prop :=
  exists xp c, self = set_cached_dvc_dz (__init__ cosmology xp z_max) c.

(** The volume term interpolated at the redshifts [z], as a list. *)
Definition volume_at (self : _Redshift) (z : ndarray) : list R :=
  map (interp1 (data (zs_ self)) (data (dvc_dz_ self))) (data z).

(** The value [normalisation] returns, without the state. *)
Definition normalisation_of (cls : redshift_class) (self : _Redshift)
    (parameters : gmap string R) : result R :=
  snd (normalisation cls parameters self).

(** The cache slot can be multiplied into an array of [n] entries: it
    holds an array of [n] entries or of one entry. *)
Definition compatible (c : option ndarray) (n : nat) : bool :=
  match c with
  | None => false
  | Some b => Nat.eqb n (shape b) || Nat.eqb (shape b) 1
  end.

(** [psi_of_z] does not look at the cache slot of [self]. *)
Definition ignores_cache (cls : redshift_class) : Prop :=
  forall self c redshift parameters,
    psi_of_z cls (set_cached_dvc_dz self c) redshift parameters
    = psi_of_z cls self redshift parameters.

(** Strictly increasing sample points. *)
Fixpoint increasing (l : list R) : Prop :=
  match l with
  | [] => True
  | x0 :: l' =>
      match l' with
      | [] => True
      | x1 :: _ => x0 < x1 /\ increasing l'
      end
  end.

(** [c * a] for an array. *)
Definition scale (c : R) (a : ndarray) : ndarray :=
  {| array_module := array_module a; data := map (Rmult c) (data a) |}.

(** The class [cls] with its weighting multiplied by the constant [c]. *)
Definition scaled (c : R) (cls : redshift_class) : redshift_class :=
  {| psi_of_z := fun self redshift parameters =>
       a <-? psi_of_z cls self redshift parameters ;; Ok (scale c a) |}.

(** Two weightings, possibly of different classes and under different
    parameters, of which one is [c] times the other. *)
Definition proportional (c : R) (cls1 cls2 : redshift_class)
    (p1 p2 : gmap string R) : Prop :=
  ∀ self z,
    call_psi_of_z cls1 self z p1
    = (a <-? call_psi_of_z cls2 self z p2 ;; Ok (scale c a)).

(** The volume-only model of the spec: the weighting is 1 at every
    redshift, so that the density is [dVc/dz / (1 + z)] over its
    integral. *)
Definition VolumeOnly : redshift_class :=
  {| psi_of_z := fun _ redshift _ =>
       Ok {| array_module := array_module redshift;
             data := map (fun _ => 1) (data redshift) |} |}.

(** [psi / (1 + z) / N], the array [p_z] of [probability] before the
    volume term is multiplied in, for [psi] and [z] of one shape. *)
Definition weights (psi z : ndarray) (N : R) : ndarray :=
  div_scalar
    {| array_module := array_module psi;
       data := zip_with Rdiv (data psi) (map (Rplus 1) (data z)) |} N.

(** [p * v], entry by entry. *)
Definition times (p : ndarray) (v : list R) : ndarray :=
  {| array_module := array_module p; data := zip_with Rmult (data p) v |}.

(** A stand-in for the cosmology in the examples: the low-redshift
    (Euclidean) limit of the differential comoving volume, [z^2] in
    units of the Hubble volume per steradian. *)
Definition euclidean_volume (z : R) : R := z * z.

(** Data of the examples. *)
Definition flat_parameters : gmap string R := {[ "lamb" := 0 ]}.
Definition array_of (l : list R) : ndarray :=
  {| array_module := "numpy"; data := l |}.
Definition dataset_of (l : list R) : gmap string ndarray :=
  {[ "redshift" := array_of l ]}.
Definition fresh_instance : _Redshift := __init__ euclidean_volume "numpy" 1.

(** ** Vocabulary of the further properties *)

(** Every run of [m] relates the state it starts from to the state it
    leaves, whether it returns or raises. *)
Definition preserves {A} (R : interp_state -> interp_state -> Prop)
    (m : py A) : Prop :=
  forall st, R st (fst (m st)).

(** Nothing a caller can observe on the modules has moved: [__backend__]
    and every attribute of every module are as before. *)
Definition quiet (st st' : interp_state) : Prop :=
  __backend__ st' = __backend__ st
  /\ forall m a, module_attribute st' m a = module_attribute st m a.

(** What a call of [set_backend] for [backend] may do to the state, at
    most: set attributes named [xp], [scs] or [trapz], raise the jax
    precision flag (for jax only), log further imports, and move
    [__backend__] to [backend]. *)
Definition frame (backend : string) (st st' : interp_state) : Prop :=
  (forall m a, a <> "xp" -> a <> "scs" -> a <> "trapz" ->
     module_attribute st' m a = module_attribute st m a)
  /\ (jax_enable_x64 st = true -> jax_enable_x64 st' = true)
  /\ (backend <> "jax" -> jax_enable_x64 st' = jax_enable_x64 st)
  /\ (exists new, import_log st' = new ++ import_log st)
  /\ (__backend__ st' = __backend__ st \/ __backend__ st' = backend).

(** Environments of the examples: one where the first dependent module
    of the package cannot be imported, one without scipy, one whose jax
    has no [jax.scipy.integrate]. *)
Definition env_no_hyperpe : environment :=
  fun n => if bool_decide (n = "gwpopulation.hyperpe") then NotInstalled
           else Importable.
Definition env_no_scipy : environment :=
  fun n => if bool_decide (n = "scipy") then NotInstalled else Importable.
Definition env_no_integrate : environment :=
  fun n => if bool_decide (n = "jax.scipy.integrate") then NotInstalled
           else Importable.

Definition env_no_jax_numpy : environment :=
  fun n => if bool_decide (n = "jax.numpy") then NotInstalled else Importable.

(** Two environments in which cupy is installed and its import fails
    all the same: in the first a module that cupy imports is missing, in
    the second the code of cupy raises while it is imported. *)
Definition env_cupy_missing_dependency : environment :=
  fun n => if bool_decide (n = "cupy")
           then Raises (ModuleNotFoundError "No module named 'fastrlock'")
           else Importable.
Definition env_cupy_crashes : environment :=
  fun n => if bool_decide (n = "cupy")
           then Raises (RuntimeError "CUDA driver not found")
           else Importable.

(** A state under numpy in which [gwpopulation.cupy_utils], the module
    that [models/redshift.py] takes [to_numpy], [trapz] and [xp] from,
    has been imported and holds its own [xp]. *)
Definition state_with_cupy_utils : interp_state :=
  {| __backend__ := "numpy";
     sys_modules :=
       {[ "gwpopulation.cupy_utils" := {[ "xp" := PyModule "numpy" ]} ]};
     jax_enable_x64 := false; import_log := [] |}.

(** A state in which [gwpopulation.utils] has been imported and holds its
    function [powerlaw]. *)
Definition state_with_utils : interp_state :=
  {| __backend__ := initial_backend;
     sys_modules :=
       {[ "gwpopulation.utils" :=
            {[ "powerlaw" := PyAttr "gwpopulation.utils" "powerlaw" ]} ]};
     jax_enable_x64 := false; import_log := [] |}.

(** Once [__backend__] is [backend] it stays so. *)
Definition keeps_backend (backend : string) (st st' : interp_state) : Prop :=
  __backend__ st = backend -> __backend__ st' = backend.

(** ** Proof steps that recur *)

(** The shape of an array whose data is a [map] over another array. *)
Ltac shape_of_map := unfold shape; cbn [data]; apply length_map.

(** Membership in one of the literal lists of [backend.py]. *)
Ltac in_literal_list l := unfold l; rewrite !elem_of_cons; auto.

(* ===================================================================== *)
(** * Properties of backend.py *)
(* ===================================================================== *)

Section BackendRegistry.
Local Close Scope R_scope.

Example dotted_prefixes_ex :
  dotted_prefixes "jax.scipy.integrate"
  = ["jax"; "jax.scipy"; "jax.scipy.integrate"].
Proof. reflexivity. Qed.

Example set_backend_numpy_ex :
  redshift_xp (fst (set_backend env_all "numpy" initial_state)) = Some "numpy".
Proof. vm_compute. reflexivity. Qed.

Example set_backend_no_cupy_ex :
  snd (set_backend env_no_cupy "cupy" initial_state)
  = Raise (ModuleNotFoundError "cupy not installed").
Proof. vm_compute. reflexivity. Qed.

(** Without jax the failure comes from [from jax import config], ahead
    of the [try] block, under the message of the import system. *)
Example set_backend_no_jax_ex :
  snd (set_backend env_no_jax "jax" initial_state)
  = Raise (ModuleNotFoundError "No module named 'jax'").
Proof. vm_compute. reflexivity. Qed.

Example enable_cupy_ex (env : environment) :
  enable_cupy env = set_backend env "cupy"
  ∧ disable_cupy env = set_backend env "numpy".
Proof. split; reflexivity. Qed.

Lemma supported_cases backend :
  backend ∈ SUPPORTED_BACKENDS →
  backend = "numpy" ∨ backend = "cupy" ∨ backend = "jax".
Proof.
  unfold SUPPORTED_BACKENDS. rewrite !elem_of_cons, elem_of_nil. tauto.
Qed.

Lemma not_supported_example : "torch" ∉ SUPPORTED_BACKENDS.
Proof.
  intros H. apply supported_cases in H as [H | [H | H]]; discriminate H.
Qed.

(** C4. A name outside the supported set is rejected with a [ValueError]
    whose message lists the three supported names; the interpreter state
    that comes back is the one that went in, so no import was attempted
    ([import_log]), and [__backend__] and every module binding
    ([sys_modules]) are as before. *)
Theorem set_backend_rejects_unsupported
    (env : environment) (backend : string) (st : interp_state) :
  backend ∉ SUPPORTED_BACKENDS →
  set_backend env backend st
  = (st, Raise (ValueError ("Backend " +:+ backend
                            +:+ " not supported, should be in numpy, cupy, jax")))
  ∧ kind_of (ValueError (not_supported_message backend)) = ConfigurationError.
Proof.
  intros Hnot. split; [| reflexivity].
  unfold set_backend. rewrite bool_decide_false by exact Hnot. reflexivity.
Qed.

Lemma set_backend_rejects_unsupported_witness :
  ("torch" ∉ SUPPORTED_BACKENDS)
  ∧ set_backend env_no_cupy "torch" initial_state
    = (initial_state,
       Raise (ValueError "Backend torch not supported, should be in numpy, cupy, jax")).
Proof.
  split; [exact not_supported_example |].
  exact (proj1 (set_backend_rejects_unsupported env_no_cupy "torch" initial_state
                  not_supported_example)).
Defined.

(** *** What the primitive effects do to the observable state *)

(** A chain whose packages are all there or not installed fails with
    [ModuleNotFoundError]; one whose packages are all there or damaged
    fails with [ImportError]. *)
Lemma first_import_failure_not_installed env chain e :
  (∀ n, n ∈ chain → env n = Importable ∨ env n = NotInstalled) →
  first_import_failure env chain = Some e →
  kind_of e = BackendUnavailable.
Proof.
  induction chain as [| n rest IH]; simpl; [discriminate |].
  intros Hall.
  destruct (Hall n ltac:(left)) as [-> | ->].
  - apply IH. intros m Hm. apply Hall. by right.
  - by intros [= <-].
Qed.

Lemma first_import_failure_broken env chain e :
  (∀ n, n ∈ chain → env n = Importable ∨ env n = Broken) →
  first_import_failure env chain = Some e →
  kind_of e = BackendBroken.
Proof.
  induction chain as [| n rest IH]; simpl; [discriminate |].
  intros Hall.
  destruct (Hall n ltac:(left)) as [-> | ->].
  - apply IH. intros m Hm. apply Hall. by right.
  - by intros [= <-].
Qed.

Lemma import_module_fails env name e st :
  first_import_failure env (dotted_prefixes name) = Some e →
  snd (import_module env name st) = Raise e.
Proof.
  intros H. unfold import_module, bind, log_import. simpl. rewrite H. reflexivity.
Qed.

Lemma import_module_Ok env name st st' o :
  import_module env name st = (st', Ok o) →
  o = PyModule name
  ∧ __backend__ st' = __backend__ st
  ∧ ∀ m a, module_attribute st' m a = module_attribute st m a.
Proof.
  unfold import_module, bind, log_import. simpl.
  destruct (first_import_failure env (dotted_prefixes name)); [discriminate |].
  intros [= <- <-]. repeat split.
  intros m a. unfold module_attribute. simpl.
  destruct (decide (m = name)) as [-> | Hne].
  - rewrite lookup_insert_eq. destruct (sys_modules st !! name); reflexivity.
  - rewrite lookup_insert_ne by congruence. reflexivity.
Qed.

Lemma setattr_module name attr value st :
  ∃ st', setattr (PyModule name) attr value st = (st', Ok tt)
         ∧ __backend__ st' = __backend__ st
         ∧ module_attribute st' name attr = Some value
         ∧ ∀ m a, (m, a) ≠ (name, attr) →
                  module_attribute st' m a = module_attribute st m a.
Proof.
  eexists. split; [reflexivity |]. simpl. repeat split.
  - unfold module_attribute. simpl. rewrite lookup_insert_eq. simpl.
    apply lookup_insert_eq.
  - intros m a Hne. unfold module_attribute. simpl.
    destruct (decide (m = name)) as [-> | Hm].
    + rewrite lookup_insert_eq. simpl.
      rewrite lookup_insert_ne by congruence.
      destruct (sys_modules st !! name); reflexivity.
    + rewrite lookup_insert_ne by congruence. reflexivity.
Qed.

(** The loop [for module in l: import_module("." + module).attr = value],
    optionally assigning [__backend__] first, as both loops of
    [set_backend] do. *)
Lemma rebind_loop env (pre : py unit) attr value l st st' :
  (∀ s, ∃ s', pre s = (s', Ok tt)
              ∧ ∀ m a, module_attribute s' m a = module_attribute s m a) →
  for_each l (fun module =>
      pre ;;;
      m <~ import_module env ("gwpopulation." +:+ module) ;;
      setattr m attr value) st = (st', Ok tt) →
  (∀ module, module ∈ l →
     module_attribute st' ("gwpopulation." +:+ module) attr = Some value)
  ∧ (∀ m a, a ≠ attr → module_attribute st' m a = module_attribute st m a).
Proof.
  intros Hpre. revert st. induction l as [| x l IH]; intros st; simpl.
  - intros [= <-]. split; [intros ? H; by apply elem_of_nil in H | done].
  - unfold bind at 1. unfold bind at 1.
    destruct (Hpre st) as (s0 & -> & Hs0).
    unfold bind at 1.
    destruct (import_module env ("gwpopulation." +:+ x) s0)
      as [s1 [o |]] eqn:Himp; [| discriminate].
    apply import_module_Ok in Himp as (-> & _ & Hs1).
    destruct (setattr_module ("gwpopulation." +:+ x) attr value s1)
      as (s2 & -> & _ & Hset & Hother).
    intros Hrest. destruct (IH _ Hrest) as [Hin Hkeep]. split.
    + intros module [-> | Hm]%elem_of_cons; [| by apply Hin].
      destruct (decide (x ∈ l)) as [Hx | Hx]; [by apply Hin |].
      clear Hin. revert Hrest. revert Hset. generalize s2. clear -Hpre Hx.
      induction l as [| y l IH]; intros s2 Hset; simpl.
      * by intros [= <-].
      * apply not_elem_of_cons in Hx as [Hxy Hx].
        unfold bind at 1. unfold bind at 1.
        destruct (Hpre s2) as (t0 & -> & Ht0).
        unfold bind at 1.
        destruct (import_module env ("gwpopulation." +:+ y) t0)
          as [t1 [o |]] eqn:Himp; [| discriminate].
        apply import_module_Ok in Himp as (-> & _ & Ht1).
        destruct (setattr_module ("gwpopulation." +:+ y) attr value t1)
          as (t2 & -> & _ & _ & Hother).
        apply IH; [exact Hx |].
        rewrite Hother, Ht1, Ht0; [exact Hset |].
        intros [= Heq]. apply Hxy. exact Heq.
    + intros m a Ha. rewrite Hkeep by exact Ha.
      rewrite Hother by congruence. rewrite Hs1. apply Hs0.
Qed.

Lemma rebind_loop_backend env (pre : py unit) (f : string → string)
    attr value l st st' :
  (∀ b, f (f b) = f b) →
  (∀ s, ∃ s', pre s = (s', Ok tt) ∧ __backend__ s' = f (__backend__ s)) →
  for_each l (fun module =>
      pre ;;;
      m <~ import_module env ("gwpopulation." +:+ module) ;;
      setattr m attr value) st = (st', Ok tt) →
  __backend__ st' = match l with
                    | [] => __backend__ st
                    | _ :: _ => f (__backend__ st)
                    end.
Proof.
  intros Hf Hpre. revert st. induction l as [| x l IH]; intros st; simpl.
  - by intros [= <-].
  - unfold bind at 1. unfold bind at 1.
    destruct (Hpre st) as (s0 & -> & Hs0).
    unfold bind at 1.
    destruct (import_module env ("gwpopulation." +:+ x) s0)
      as [s1 [o |]] eqn:Himp; [| discriminate].
    apply import_module_Ok in Himp as (-> & Hs1 & _).
    destruct (setattr_module ("gwpopulation." +:+ x) attr value s1)
      as (s2 & -> & Hs2 & _).
    intros Hrest. rewrite (IH _ Hrest), Hs2, Hs1, Hs0.
    destruct l; [reflexivity | apply Hf].
Qed.

Lemma import_backend_Ok env backend st st' xp scs :
  import_backend env backend st = (st', Ok (xp, scs)) →
  ∃ np_name scipy_name,
    _np_module !! backend = Some np_name
    ∧ _scipy_module !! backend = Some scipy_name
    ∧ xp = PyModule np_name
    ∧ scs = PyAttr scipy_name "special".
Proof.
  unfold import_backend, try_except, bind, getitem, lift, lookup_key.
  destruct (_np_module !! backend) as [np_name |]; [| discriminate].
  destruct (import_module env np_name st) as [s1 [o1 |]] eqn:H1.
  2:{ destruct e; discriminate. }
  apply import_module_Ok in H1 as (-> & _).
  destruct (_scipy_module !! backend) as [scipy_name |]; [| discriminate].
  destruct (import_module env scipy_name s1) as [s2 [o2 |]] eqn:H2.
  2:{ destruct e; discriminate. }
  apply import_module_Ok in H2 as (-> & _).
  intros [= <- <- <-]. by exists np_name, scipy_name.
Qed.

(** C5, as the code has it.  When the import of the backend's array
    module fails, [set_backend] fails with an exception of the same
    class, and the class is all it goes by: a [ModuleNotFoundError] is
    raised again as [ModuleNotFoundError("<backend> not installed")],
    any other [ImportError] as
    [ImportError("<backend> installed but not importable")], and an
    exception of another class leaves [set_backend] as it is.  For jax
    the statement [from jax import config] stands ahead of the [try]
    block, so a failure to import [jax] itself is passed on unchanged.
    When the packages on the way are all importable or not installed
    the failure is a [ModuleNotFoundError], when they are all
    importable or damaged it is an [ImportError] proper, and these two
    classes differ. *)
Theorem set_backend_import_failure_kinds
    (env : environment) (backend np_name : string) (st : interp_state)
    (e : exception) :
  backend ∈ SUPPORTED_BACKENDS →
  backend ≠ __backend__ st →
  _np_module !! backend = Some np_name →
  first_import_failure env (dotted_prefixes np_name) = Some e →
  ∃ e', snd (set_backend env backend st) = Raise e'
        ∧ kind_of e' = kind_of e
        ∧ (backend ≠ "jax" ∨ env "jax" = Importable →
           e' = match e with
                | ModuleNotFoundError _ =>
                    ModuleNotFoundError (backend +:+ " not installed")
                | ImportError _ =>
                    ImportError (backend +:+ " installed but not importable")
                | _ => e
                end)
        ∧ (backend = "jax" → env "jax" ≠ Importable → e' = e)
        ∧ ((∀ n, n ∈ dotted_prefixes np_name →
                 env n = Importable ∨ env n = NotInstalled) →
           kind_of e' = BackendUnavailable)
        ∧ ((∀ n, n ∈ dotted_prefixes np_name →
                 env n = Importable ∨ env n = Broken) →
           kind_of e' = BackendBroken)
        ∧ BackendUnavailable ≠ BackendBroken.
Proof.
  intros Hsup Hact Hnp Hfail.
  set (renamed :=
         match e with
         | ModuleNotFoundError _ =>
             ModuleNotFoundError (backend +:+ " not installed")
         | ImportError _ =>
             ImportError (backend +:+ " installed but not importable")
         | _ => e
         end).
  assert (Hkind : kind_of renamed = kind_of e) by (unfold renamed; by destruct e).
  assert (Htry : ∀ s, ∃ s', import_backend env backend s = (s', Raise renamed)).
  { intros s. unfold import_backend, try_except, bind, getitem, lift, lookup_key.
    rewrite Hnp.
    pose proof (import_module_fails env np_name e s Hfail) as Himp.
    destruct (import_module env np_name s) as [s1 r]. simpl in Himp. subst r.
    unfold renamed. destruct e; eexists; reflexivity. }
  assert (Hgoal : ∃ e', snd (set_backend env backend st) = Raise e'
                        ∧ kind_of e' = kind_of e
                        ∧ (backend ≠ "jax" ∨ env "jax" = Importable →
                           e' = renamed)
                        ∧ (backend = "jax" → env "jax" ≠ Importable → e' = e)).
  { unfold set_backend.
    rewrite (bool_decide_true _ Hsup), (bool_decide_false _ Hact). simpl negb.
    cbv iota. clearbody renamed.
    apply supported_cases in Hsup as [-> | [-> | ->]].
    - unfold bind, enable_x64. simpl.
      destruct (Htry st) as (s' & ->). exists renamed.
      split; [reflexivity |]. split; [exact Hkind |].
      split; [done | discriminate].
    - unfold bind, enable_x64. simpl.
      destruct (Htry st) as (s' & ->). exists renamed.
      split; [reflexivity |]. split; [exact Hkind |].
      split; [done | discriminate].
    - assert (np_name = "jax.numpy") as ->
        by (vm_compute in Hnp; by injection Hnp).
      revert Hfail.
      unfold bind at 1. unfold enable_x64, from_import, import_module.
      rewrite bool_decide_true by reflexivity.
      unfold bind at 2 3 4. unfold log_import.
      change (dotted_prefixes "jax") with ["jax"].
      change (dotted_prefixes "jax.numpy") with ["jax"; "jax.numpy"].
      cbn [first_import_failure].
      destruct (env "jax") eqn:Hjax.
      + intros _. unfold config_update_x64, ret. unfold bind at 1.
        match goal with |- context [import_backend env "jax" ?s] =>
          destruct (Htry s) as (s' & ->) end.
        exists renamed. split; [reflexivity |]. split; [exact Hkind |].
        split; [done |]. intros _ Hne. by destruct Hne.
      + intros [= Heq]. subst e. eexists. split; [reflexivity |].
        split; [reflexivity |]. split; [| done].
        intros [Hne | Himp]; [by destruct Hne | discriminate].
      + intros [= Heq]. subst e. eexists. split; [reflexivity |].
        split; [reflexivity |]. split; [| done].
        intros [Hne | Himp]; [by destruct Hne | discriminate].
      + intros [= Heq]. subst e. eexists. split; [reflexivity |].
        split; [reflexivity |]. split; [| done].
        intros [Hne | Himp]; [by destruct Hne | discriminate]. }
  destruct Hgoal as (e' & Hres & He' & Hnamed & Hjax). exists e'.
  split; [exact Hres |]. split; [exact He' |].
  split; [exact Hnamed |]. split; [exact Hjax |].
  split; [| split; [| discriminate]].
  - intros Hall. rewrite He'.
    by apply (first_import_failure_not_installed env (dotted_prefixes np_name)).
  - intros Hall. rewrite He'.
    by apply (first_import_failure_broken env (dotted_prefixes np_name)).
Qed.

Lemma set_backend_import_failure_kinds_witness :
  ("cupy" ∈ SUPPORTED_BACKENDS)
  ∧ "cupy" ≠ __backend__ initial_state
  ∧ _np_module !! "cupy" = Some "cupy"
  ∧ first_import_failure env_broken_cupy (dotted_prefixes "cupy")
    = Some (ImportError "cannot import cupy")
  ∧ ∃ e', snd (set_backend env_broken_cupy "cupy" initial_state) = Raise e'
          ∧ kind_of e' = BackendBroken
          ∧ e' = ImportError "cupy installed but not importable".
Proof.
  assert (H1 : "cupy" ∈ SUPPORTED_BACKENDS)
    by in_literal_list SUPPORTED_BACKENDS.
  assert (H2 : "cupy" ≠ __backend__ initial_state) by discriminate.
  assert (H3 : _np_module !! "cupy" = Some "cupy") by reflexivity.
  assert (H4 : first_import_failure env_broken_cupy (dotted_prefixes "cupy")
               = Some (ImportError "cannot import cupy")) by reflexivity.
  repeat (split; [assumption |]).
  destruct (set_backend_import_failure_kinds env_broken_cupy "cupy" "cupy"
              initial_state _ H1 H2 H3 H4) as (e' & He' & Hk & Hnamed & _).
  exists e'. split; [exact He' |]. split; [exact Hk |].
  apply Hnamed. left. discriminate.
Defined.

(** Against C5 as stated.  The code goes by the class of the exception,
    not by the cause of the failure.  With cupy installed and a module
    that cupy imports missing, the import raises [ModuleNotFoundError]
    and [set_backend] reports [cupy not installed]: a failure for
    another reason than "not installed" under the "unavailable" kind.
    With cupy installed and its code raising [RuntimeError] on import,
    neither handler applies and the [RuntimeError] reaches the caller:
    a failure under neither of the two kinds. *)
Lemma set_backend_import_failure_counterexample :
  env_cupy_missing_dependency "cupy" ≠ NotInstalled
  ∧ first_import_failure env_cupy_missing_dependency (dotted_prefixes "cupy")
    = Some (ModuleNotFoundError "No module named 'fastrlock'")
  ∧ snd (set_backend env_cupy_missing_dependency "cupy" initial_state)
    = Raise (ModuleNotFoundError "cupy not installed")
  ∧ kind_of (ModuleNotFoundError "cupy not installed") = BackendUnavailable
  ∧ env_cupy_crashes "cupy" ≠ NotInstalled
  ∧ snd (set_backend env_cupy_crashes "cupy" initial_state)
    = Raise (RuntimeError "CUDA driver not found")
  ∧ kind_of (RuntimeError "CUDA driver not found") ≠ BackendUnavailable
  ∧ kind_of (RuntimeError "CUDA driver not found") ≠ BackendBroken.
Proof.
  split; [discriminate |]. split; [reflexivity |].
  split; [vm_compute; reflexivity |]. split; [reflexivity |].
  split; [discriminate |].
  split; [vm_compute; reflexivity |]. split; discriminate.
Qed.

End BackendRegistry.

(* ===================================================================== *)
(** * The grid of a constructed instance *)
(* ===================================================================== *)

Section Grid.

Lemma length_linspace start stop num :
  length (linspace start stop num) = num.
Proof. unfold linspace. by rewrite length_map, length_seq. Qed.

Lemma shape_zs_ cosmology xp zmax :
  shape (zs_ (__init__ cosmology xp zmax)) = 1000%nat.
Proof. unfold shape, __init__. cbn [zs_ data]. apply length_linspace. Qed.

Lemma shape_dvc_dz_ cosmology xp zmax :
  shape (dvc_dz_ (__init__ cosmology xp zmax)) = 1000%nat.
Proof.
  unfold shape, __init__. cbn [dvc_dz_ data].
  rewrite length_map. apply length_linspace.
Qed.

(** The copies of the grid made at construction belong to the array
    module of that moment, whatever is bound later. *)
Lemma grid_keeps_construction_module cosmology xp zmax c :
  let self := set_cached_dvc_dz (__init__ cosmology xp zmax) c in
  array_module (zs self) = xp ∧ array_module (dvc_dz self) = xp
  ∧ array_module (zs_ self) = "numpy" ∧ array_module (dvc_dz_ self) = "numpy".
Proof. repeat split. Qed.

Lemma grid_ok_init cosmology xp zmax : grid_ok (__init__ cosmology xp zmax).
Proof.
  unfold grid_ok. rewrite shape_zs_, shape_dvc_dz_. split; [discriminate | done].
Qed.

Lemma grid_ok_set_cached self c :
  grid_ok self → grid_ok (set_cached_dvc_dz self c).
Proof. intros H. exact H. Qed.

Lemma np_interp_grid_ok self x :
  grid_ok self →
  np_interp x (zs_ self) (dvc_dz_ self)
  = Ok {| array_module := "numpy";
          data := map (interp1 (data (zs_ self)) (data (dvc_dz_ self))) (data x) |}.
Proof.
  intros [Hne Heq]. unfold np_interp.
  destruct (Nat.eqb_spec (shape (zs_ self)) 0); [contradiction |].
  rewrite Heq, Nat.eqb_refl. reflexivity.
Qed.

Lemma _cache_dvc_dz_grid_ok xp z self :
  grid_ok self →
  _cache_dvc_dz xp z self
  = (set_cached_dvc_dz self
       (Some {| array_module := xp; data := volume_at self z |}), Ok tt).
Proof.
  intros H. unfold _cache_dvc_dz. rewrite (np_interp_grid_ok _ _ H). reflexivity.
Qed.

End Grid.

Section Rebinding.
Local Close Scope R_scope.

Lemma assign_backend_spec backend s :
  ∃ s', assign_backend backend s = (s', Ok tt)
        ∧ __backend__ s' = (fun _ => backend) (__backend__ s)
        ∧ ∀ m a, module_attribute s' m a = module_attribute s m a.
Proof. eexists. split; [reflexivity |]. split; reflexivity. Qed.

(** [rebind_scs] has no assignment before the import; seen as the
    common loop, its first step is [ret tt]. *)
Lemma assign_backend_spec_attrs backend s :
  ∃ s', assign_backend backend s = (s', Ok tt)
        ∧ ∀ m a, module_attribute s' m a = module_attribute s m a.
Proof. eexists. split; reflexivity. Qed.

Lemma rebind_scs_as_loop env scs :
  rebind_scs env scs
  = for_each __all_with_scs (fun module =>
      ret tt ;;;
      m <~ import_module env ("gwpopulation." +:+ module) ;;
      setattr m "scs" scs).
Proof. reflexivity. Qed.

End Rebinding.

(* ===================================================================== *)
(** * Lists of reals: integration, grid, interpolation *)
(* ===================================================================== *)

Section Numerics.

Lemma zip_with_map_same {A B C D} (f : B → C → D) (g : A → B) (h : A → C) l :
  zip_with f (map g l) (map h l) = map (fun x => f (g x) (h x)) l.
Proof. induction l as [| x l IH]; simpl; [done | by rewrite IH]. Qed.

Lemma zip_with_scale_l (f : R → R → R) c (a b : list R) :
  (∀ x y, f (c * x) y = c * f x y) →
  zip_with f (map (Rmult c) a) b = map (Rmult c) (zip_with f a b).
Proof.
  intros Hf. revert b. induction a as [| x a IH]; intros [| y b]; simpl; try done.
  by rewrite Hf, IH.
Qed.

(** ** The trapezoidal rule *)

Lemma trapz_list_scale c y x :
  trapz_list (map (Rmult c) y) x = c * trapz_list y x.
Proof.
  revert x. induction y as [| y0 y IH]; intros [| x0 x]; simpl; try lra.
  destruct y as [| y1 y], x as [| x1 x]; simpl; try lra.
  specialize (IH (x1 :: x)). simpl in IH. rewrite IH. lra.
Qed.

Lemma trapz_list_nonneg y x :
  increasing x → Forall (fun v => 0 <= v) y → 0 <= trapz_list y x.
Proof.
  revert x. induction y as [| y0 y IH]; intros [| x0 x] Hx Hy; simpl; try lra.
  destruct y as [| y1 y], x as [| x1 x]; simpl; try lra.
  destruct Hx as [Hlt Hx]. inversion Hy as [| ? ? Hy0 Hy' ]; subst.
  pose proof (IH (x1 :: x) Hx Hy') as Hrest. simpl in Hrest.
  inversion Hy' as [| ? ? Hy1 _]; subst. nra.
Qed.

Lemma trapz_list_pos y x :
  increasing x → Forall (fun v => 0 < v) y →
  length y = length x → (2 <= length x)%nat →
  0 < trapz_list y x.
Proof.
  intros Hx Hy Hlen Hn.
  destruct y as [| y0 [| y1 y]], x as [| x0 [| x1 x]]; simpl in *; try lia.
  destruct Hx as [Hlt Hx].
  inversion Hy as [| ? ? Hy0 Hy']; subst.
  inversion Hy' as [| ? ? Hy1 _]; subst.
  assert (Hrest : 0 <= trapz_list (y1 :: y) (x1 :: x)).
  { apply trapz_list_nonneg; [exact Hx |].
    eapply Forall_impl; [exact Hy' |]. simpl. intros; lra. }
  simpl in Hrest. nra.
Qed.

(** ** np.linspace *)

Lemma affine_seq_increasing start step k n :
  0 < step →
  increasing (map (fun i => INR i * step + start) (seq k n)).
Proof.
  intros Hstep. revert k. induction n as [| n IH]; intros k; [done |].
  destruct n as [| n]; [done |].
  specialize (IH (S k)). cbn -[INR] in IH |- *.
  split; [| exact IH].
  rewrite S_INR. nra.
Qed.

Lemma linspace_increasing start stop num :
  start < stop → (2 <= num)%nat → increasing (linspace start stop num).
Proof.
  intros Hlt Hn. unfold linspace. apply affine_seq_increasing.
  apply Rdiv_lt_0_compat; [lra |].
  apply lt_0_INR. lia.
Qed.

Lemma linspace_bounds start stop num :
  start <= stop → (2 <= num)%nat →
  Forall (fun z => start <= z <= stop) (linspace start stop num).
Proof.
  intros Hle Hn. unfold linspace. apply Forall_map, Forall_forall.
  intros i Hi. apply elem_of_seq in Hi as [_ Hi]. simpl in Hi.
  assert (Hpos : 0 < INR (num - 1)) by (apply lt_0_INR; lia).
  assert (Hi0 : 0 <= INR i) by apply pos_INR.
  assert (Hi1 : INR i <= INR (num - 1)) by (apply le_INR; lia).
  assert (Hstep : 0 <= (stop - start) / INR (num - 1)).
  { apply Rmult_le_pos; [lra |]. left. by apply Rinv_0_lt_compat. }
  split; [nra |].
  assert (Hfull : INR (num - 1) * ((stop - start) / INR (num - 1)) = stop - start)
    by (field; lra).
  nra.
Qed.

Lemma hd_linspace start stop num :
  (1 <= num)%nat → hd 0 (linspace start stop num) = start.
Proof.
  intros Hn. unfold linspace. destruct num as [| num]; [lia |].
  cbn -[INR]. change (INR 0) with 0. lra.
Qed.

Lemma last_linspace start stop num :
  (2 <= num)%nat → List.last (linspace start stop num) 0 = stop.
Proof.
  intros Hn. unfold linspace.
  destruct num as [| num]; [lia |].
  replace (S num - 1)%nat with num by lia.
  rewrite seq_S, map_app. cbn -[INR]. rewrite last_last.
  assert (0 < INR num) by (apply lt_0_INR; lia).
  field. lra.
Qed.

Lemma increasing_hd_le_last x l d :
  increasing (x :: l) → x <= List.last (x :: l) d.
Proof.
  revert x. induction l as [| y l IH]; intros x Hx; [simpl; lra |].
  destruct Hx as [Hlt Hx]. specialize (IH y Hx).
  change (List.last (x :: y :: l) d) with (List.last (y :: l) d). lra.
Qed.

(** ** np.interp *)

Lemma last_nonneg (fs : list R) :
  Forall (fun v => 0 <= v) fs → 0 <= List.last fs 0.
Proof.
  induction fs as [| f fs IH]; intros H; [simpl; lra |].
  inversion H as [| ? ? Hf Hfs]; subst.
  destruct fs as [| g fs]; [exact Hf | exact (IH Hfs)].
Qed.

Lemma hd_nonneg (fs : list R) :
  Forall (fun v => 0 <= v) fs → 0 <= hd 0 fs.
Proof. intros H. destruct H; simpl; lra. Qed.

(** On a segment the interpolated value lies between the two end
    values; here only the lower side is needed. *)
Lemma segment_nonneg x0 x1 f0 f1 x :
  x0 <= x → x < x1 → 0 <= f0 → 0 <= f1 →
  0 <= (f1 - f0) / (x1 - x0) * (x - x0) + f0.
Proof.
  intros H0 H1 Hf0 Hf1.
  assert (Hd : 0 < x1 - x0) by lra.
  set (t := (x - x0) / (x1 - x0)).
  assert (Ht0 : 0 <= t).
  { unfold t. apply Rmult_le_pos; [lra |]. left. by apply Rinv_0_lt_compat. }
  assert (Ht1 : t <= 1).
  { unfold t. apply (Rmult_le_reg_r (x1 - x0)); [exact Hd |].
    replace ((x - x0) / (x1 - x0) * (x1 - x0)) with (x - x0) by (field; lra).
    lra. }
  replace ((f1 - f0) / (x1 - x0) * (x - x0) + f0) with ((f1 - f0) * t + f0)
    by (unfold t; field; lra).
  nra.
Qed.

Lemma interp_segment_step x x0 x1 xs f0 f1 fs :
  interp_segment x (x0 :: x1 :: xs) (f0 :: f1 :: fs)
  = if Rlt_dec x x1 then
      if Req_dec_T x0 x then f0 else (f1 - f0) / (x1 - x0) * (x - x0) + f0
    else interp_segment x (x1 :: xs) (f1 :: fs).
Proof. reflexivity. Qed.

Lemma interp_segment_nonneg x xs fs :
  increasing xs →
  match xs with [] => True | x0 :: _ => x0 <= x end →
  Forall (fun v => 0 <= v) fs →
  0 <= interp_segment x xs fs.
Proof.
  revert fs. induction xs as [| x0 xs IH]; intros fs Hinc Hx Hfs; [simpl; lra |].
  destruct fs as [| f0 fs]; [simpl; lra |].
  inversion Hfs as [| ? ? Hf0 Hfs']; subst.
  destruct xs as [| x1 xs]; [exact Hf0 |].
  destruct fs as [| f1 fs]; [exact Hf0 |].
  destruct Hinc as [Hlt Hinc].
  inversion Hfs' as [| ? ? Hf1 _]; subst.
  rewrite interp_segment_step.
  destruct (Rlt_dec x x1) as [Hx1 | Hx1].
  - destruct (Req_dec_T x0 x); [exact Hf0 |].
    by apply segment_nonneg.
  - apply (IH (f1 :: fs) Hinc); [lra | exact Hfs'].
Qed.

Lemma interp1_nonneg xs fs x :
  increasing xs → Forall (fun v => 0 <= v) fs → 0 <= interp1 xs fs x.
Proof.
  intros Hinc Hfs. unfold interp1.
  destruct (Rlt_dec (List.last xs 0) x); [by apply last_nonneg |].
  destruct (Rlt_dec x (hd 0 xs)) as [| Hhd]; [by apply hd_nonneg |].
  apply interp_segment_nonneg; [exact Hinc | | exact Hfs].
  destruct xs; [done | simpl in Hhd; lra].
Qed.

Lemma interp_segment_last x xs fs :
  increasing xs → length xs = length fs → xs ≠ [] →
  List.last xs 0 <= x →
  interp_segment x xs fs = List.last fs 0.
Proof.
  revert fs. induction xs as [| x0 xs IH]; intros fs Hinc Hlen Hne Hx; [done |].
  destruct fs as [| f0 fs]; [discriminate |].
  destruct xs as [| x1 xs].
  - destruct fs; [reflexivity | discriminate].
  - destruct fs as [| f1 fs]; [discriminate |].
    destruct Hinc as [Hlt Hinc].
    rewrite interp_segment_step.
    change (List.last (x0 :: x1 :: xs) 0) with (List.last (x1 :: xs) 0) in Hx.
    pose proof (increasing_hd_le_last x1 xs 0 Hinc) as Hle.
    destruct (Rlt_dec x x1); [lra |].
    change (List.last (f0 :: f1 :: fs) 0) with (List.last (f1 :: fs) 0).
    apply IH; [exact Hinc | simpl in Hlen |- *; lia | discriminate | exact Hx].
Qed.

(** At and beyond the last sample point the last value is returned. *)
Lemma interp1_right xs fs x :
  increasing xs → length xs = length fs → xs ≠ [] →
  List.last xs 0 <= x →
  interp1 xs fs x = List.last fs 0.
Proof.
  intros Hinc Hlen Hne Hx. unfold interp1.
  destruct (Rlt_dec (List.last xs 0) x); [reflexivity |].
  destruct (Rlt_dec x (hd 0 xs)) as [Hhd |].
  - destruct xs as [| x0 xs]; [done |].
    pose proof (increasing_hd_le_last x0 xs 0 Hinc). simpl in Hhd. lra.
  - by apply interp_segment_last.
Qed.

(** At and before the first sample point the first value is returned. *)
Lemma interp1_left xs fs x :
  increasing xs → length xs = length fs → xs ≠ [] →
  x <= hd 0 xs →
  interp1 xs fs x = hd 0 fs.
Proof.
  intros Hinc Hlen Hne Hx. unfold interp1.
  destruct xs as [| x0 xs]; [done |].
  destruct fs as [| f0 fs]; [discriminate |].
  pose proof (increasing_hd_le_last x0 xs 0 Hinc) as Hle.
  simpl in Hx. simpl hd.
  destruct (Rlt_dec (List.last (x0 :: xs) 0) x); [lra |].
  destruct (Rlt_dec x x0); [reflexivity |].
  destruct xs as [| x1 xs]; [reflexivity |].
  destruct fs as [| f1 fs]; [discriminate |].
  destruct Hinc as [Hlt _]. rewrite interp_segment_step.
  destruct (Rlt_dec x x1); [| lra].
  destruct (Req_dec_T x0 x); [reflexivity | lra].
Qed.

End Numerics.

(* ===================================================================== *)
(** * Arrays and the shared behaviour of the models *)
(* ===================================================================== *)

Section Arrays.

Lemma shape_scalar_add c a : shape (scalar_add c a) = shape a.
Proof. unfold shape. simpl. apply length_map. Qed.

Lemma shape_div_scalar a c : shape (div_scalar a c) = shape a.
Proof. unfold shape. simpl. apply length_map. Qed.

Lemma shape_powerlaw a alpha high low : shape (powerlaw a alpha high low) = shape a.
Proof. unfold shape. simpl. apply length_map. Qed.

Lemma shape_pow_scalar a e : shape (pow_scalar a e) = shape a.
Proof. unfold shape. simpl. apply length_map. Qed.

Lemma shape_scale c a : shape (scale c a) = shape a.
Proof. unfold shape. simpl. apply length_map. Qed.

Lemma shape_weights psi z N :
  shape psi = shape z → shape (weights psi z N) = shape z.
Proof.
  unfold weights, shape. simpl. intros H.
  rewrite length_map, length_zip_with, length_map. lia.
Qed.

Lemma elementwise_same_shape f a b :
  shape a = shape b →
  elementwise f a b
  = Ok {| array_module := array_module a; data := zip_with f (data a) (data b) |}.
Proof. intros H. unfold elementwise. by rewrite H, Nat.eqb_refl. Qed.

Lemma inplace_same_shape f a b :
  shape a = shape b →
  inplace f a b
  = Ok {| array_module := array_module a; data := zip_with f (data a) (data b) |}.
Proof. intros H. unfold inplace. by rewrite H, Nat.eqb_refl. Qed.

Lemma inplace_compatible f a b :
  compatible (Some b) (shape a) = true →
  ∃ r, inplace f a b = Ok r ∧ shape r = shape a
       ∧ array_module r = array_module a.
Proof.
  unfold compatible, inplace. intros H.
  destruct (Nat.eqb_spec (shape a) (shape b)) as [Heq | Hne].
  - eexists. split; [reflexivity |]. split; [| reflexivity].
    unfold shape in *. simpl. rewrite length_zip_with. lia.
  - simpl in H. apply Nat.eqb_eq in H. unfold shape in H.
    destruct (data b) as [| y [| y' l]]; try discriminate.
    eexists. split; [reflexivity |]. split; [| reflexivity].
    unfold shape. simpl. apply length_map.
Qed.

Lemma inplace_incompatible f a b :
  compatible (Some b) (shape a) = false →
  ∃ msg, inplace f a b = Raise (ValueError msg).
Proof.
  unfold compatible, inplace. intros H.
  apply orb_false_iff in H as [H1 H2]. rewrite H1.
  apply Nat.eqb_neq in H2. unfold shape in H2.
  destruct (data b) as [| y [| y' l]];
    [by eexists | by simpl in H2 | by eexists].
Qed.


Lemma Ok_inj {A} (a b : A) : Ok a = Ok b → a = b.
Proof. by intros [= ->]. Qed.

Lemma imul_incompatible a c :
  compatible c (shape a) = false →
  ∃ e, imul a c = Raise e
       ∧ ((∃ msg, e = TypeError msg) ∨ (∃ msg, e = ValueError msg)).
Proof.
  destruct c as [b |]; intros H; simpl.
  - destruct (inplace_incompatible Rmult a b H) as [msg ->]. eauto.
  - eauto.
Qed.

Lemma imul_raises a c e :
  imul a c = Raise e →
  (∃ msg, e = TypeError msg) ∨ (∃ msg, e = ValueError msg).
Proof.
  destruct c as [b |]; simpl; [| intros [= <-]; eauto].
  unfold inplace. destruct (Nat.eqb _ _); [discriminate |].
  destruct (data b) as [| y [| y' l]]; intros [= <-]; eauto.
Qed.

Lemma elementwise_scale_l f c a b :
  (∀ x y, f (c * x) y = c * f x y) →
  elementwise f (scale c a) b = (r <-? elementwise f a b ;; Ok (scale c r)).
Proof.
  intros Hf. unfold elementwise. rewrite shape_scale.
  destruct (Nat.eqb (shape a) (shape b)).
  - simpl. unfold scale. simpl. by rewrite zip_with_scale_l.
  - change (data (scale c a)) with (map (Rmult c) (data a)).
    change (array_module (scale c a)) with (array_module a).
    destruct (data a) as [| x [| x' l]], (data b) as [| y [| y' l']];
      simpl; unfold scale; simpl; rewrite ?Hf, ?map_map; try reflexivity.
    all: do 2 f_equal; repeat (apply (f_equal2 cons); [reflexivity |]).
    all: apply map_ext; intros; by rewrite Hf.
Qed.

Lemma times_lookup psi z N v i psi_i z_i v_i :
  data psi !! i = Some psi_i → data z !! i = Some z_i → v !! i = Some v_i →
  data (times (weights psi z N) v) !! i = Some (psi_i / (1 + z_i) / N * v_i).
Proof.
  intros Hpsi Hz Hv. unfold times, weights. simpl.
  rewrite lookup_zip_with, list_lookup_fmap, lookup_zip_with, Hpsi.
  simpl. rewrite list_lookup_fmap, Hz. simpl. by rewrite Hv.
Qed.

End Arrays.

Section SharedBehaviour.

Variable cls : redshift_class.
Variable xp : string.

Lemma normalisation_run parameters self :
  normalisation cls parameters self = (self, normalisation_of cls self parameters).
Proof. reflexivity. Qed.

Lemma normalisation_value self parameters psi_g :
  call_psi_of_z cls self (zs self) parameters = Ok psi_g →
  shape psi_g = shape (zs self) →
  shape (dvc_dz self) = shape (zs self) →
  normalisation_of cls self parameters
  = Ok (trapz_list
          (zip_with Rdiv (zip_with Rmult (data psi_g) (data (dvc_dz self)))
             (map (Rplus 1) (data (zs self))))
          (data (zs self))).
Proof.
  intros Hpsi Hshape Hdvc. unfold normalisation_of, normalisation, lift. simpl.
  rewrite Hpsi. simpl.
  rewrite elementwise_same_shape by congruence. simpl.
  rewrite elementwise_same_shape.
  - reflexivity.
  - rewrite shape_scalar_add. unfold shape in *. simpl.
    rewrite length_zip_with. lia.
Qed.

Lemma quotient_same_shape psi z :
  shape psi = shape z →
  elementwise Rdiv psi (scalar_add 1 z)
  = Ok {| array_module := array_module psi;
          data := zip_with Rdiv (data psi) (map (Rplus 1) (data z)) |}.
Proof.
  intros H. rewrite elementwise_same_shape; [reflexivity |].
  by rewrite shape_scalar_add.
Qed.

(** [probability] once the dataset, the weighting and the normalisation
    have been evaluated: the cached array is tried, and on failure the
    cache is recomputed and tried again. *)
Lemma probability_unfold dataset parameters self z psi N :
  dataset !! "redshift" = Some z →
  call_psi_of_z cls self z parameters = Ok psi →
  shape psi = shape z →
  normalisation_of cls self parameters = Ok N →
  probability cls xp dataset parameters self
  = match imul (weights psi z N) (cached_dvc_dz self) with
    | Ok r => (self, Ok r)
    | Raise _ =>
        match _cache_dvc_dz xp z self with
        | (self', Ok _) => (self', imul (weights psi z N) (cached_dvc_dz self'))
        | (self', Raise e) => (self', Raise e)
        end
    end.
Proof.
  intros Hz Hpsi Hshape HN.
  unfold probability, bind, getitem, lift, lookup_key, try_except.
  rewrite Hz, Hpsi, normalisation_run, HN, (quotient_same_shape _ _ Hshape).
  fold (weights psi z N).
  destruct (imul (weights psi z N) (cached_dvc_dz self)) as [r | e] eqn:Himul;
    [reflexivity |].
  apply imul_raises in Himul as [[msg ->] | [msg ->]]; reflexivity.
Qed.

(** The cache slot fits: its array is multiplied in as it is. *)
Lemma probability_hit dataset parameters self z psi N c :
  dataset !! "redshift" = Some z →
  call_psi_of_z cls self z parameters = Ok psi →
  shape psi = shape z →
  normalisation_of cls self parameters = Ok N →
  cached_dvc_dz self = Some c →
  compatible (Some c) (shape z) = true →
  ∃ r, inplace Rmult (weights psi z N) c = Ok r
       ∧ shape r = shape z
       ∧ probability cls xp dataset parameters self = (self, Ok r).
Proof.
  intros Hz Hpsi Hshape HN Hc Hcompat.
  rewrite <- (shape_weights psi z N Hshape) in Hcompat.
  destruct (inplace_compatible Rmult _ _ Hcompat) as (r & Hr & Hsr & _).
  exists r. split; [exact Hr |]. split.
  - by rewrite Hsr, shape_weights.
  - rewrite (probability_unfold _ _ _ _ _ _ Hz Hpsi Hshape HN), Hc. simpl.
    by rewrite Hr.
Qed.

(** The cache slot is empty or does not fit: the volume term is
    interpolated at the redshifts of the dataset and stored. *)
Lemma probability_miss dataset parameters self z psi N :
  grid_ok self →
  dataset !! "redshift" = Some z →
  call_psi_of_z cls self z parameters = Ok psi →
  shape psi = shape z →
  normalisation_of cls self parameters = Ok N →
  compatible (cached_dvc_dz self) (shape z) = false →
  probability cls xp dataset parameters self
  = (set_cached_dvc_dz self
       (Some {| array_module := xp; data := volume_at self z |}),
     Ok (times (weights psi z N) (volume_at self z))).
Proof.
  intros Hgrid Hz Hpsi Hshape HN Hcompat.
  rewrite (probability_unfold _ _ _ _ _ _ Hz Hpsi Hshape HN).
  rewrite <- (shape_weights psi z N Hshape) in Hcompat.
  destruct (imul_incompatible _ _ Hcompat) as (e & -> & _).
  rewrite (_cache_dvc_dz_grid_ok _ _ _ Hgrid). simpl.
  rewrite inplace_same_shape; [reflexivity |].
  rewrite (shape_weights _ _ _ Hshape). unfold shape, volume_at. simpl.
  by rewrite length_map.
Qed.

(** The cache slot already holds the interpolation for these
    redshifts. *)
Lemma probability_reuse dataset parameters self z psi N m :
  dataset !! "redshift" = Some z →
  call_psi_of_z cls self z parameters = Ok psi →
  shape psi = shape z →
  normalisation_of cls self parameters = Ok N →
  cached_dvc_dz self = Some {| array_module := m; data := volume_at self z |} →
  probability cls xp dataset parameters self
  = (self, Ok (times (weights psi z N) (volume_at self z))).
Proof.
  intros Hz Hpsi Hshape HN Hc.
  rewrite (probability_unfold _ _ _ _ _ _ Hz Hpsi Hshape HN), Hc. simpl.
  rewrite inplace_same_shape; [reflexivity |].
  rewrite (shape_weights _ _ _ Hshape). unfold shape, volume_at. simpl.
  by rewrite length_map.
Qed.

End SharedBehaviour.

(* ===================================================================== *)
(** * The classes and the instances built by __init__ *)
(* ===================================================================== *)

Section Classes.

Lemma power_pos x e : 0 < power x e.
Proof. unfold power, Rpower. apply exp_pos. Qed.

Lemma power_0 x : power x 0 = 1.
Proof. unfold power, Rpower. rewrite Rmult_0_l. apply exp_0. Qed.

Lemma power_1 x : 0 < x → power x 1 = x.
Proof. intros H. unfold power. by apply Rpower_1. Qed.

Lemma powerlaw1_inside alpha high low xx :
  low <= xx → xx <= high → powerlaw1 alpha high low xx = power (xx / low) alpha.
Proof.
  intros H1 H2. unfold powerlaw1.
  destruct (Rle_dec low xx); [| contradiction].
  destruct (Rle_dec xx high); [reflexivity | contradiction].
Qed.

Lemma powerlaw1_above alpha high low xx :
  high < xx → powerlaw1 alpha high low xx = 0.
Proof.
  intros H. unfold powerlaw1.
  destruct (Rle_dec low xx); [| reflexivity].
  destruct (Rle_dec xx high); [lra | reflexivity].
Qed.

Lemma powerlaw1_nonneg alpha high low xx : 0 <= powerlaw1 alpha high low xx.
Proof.
  unfold powerlaw1.
  destruct (Rle_dec low xx); [| lra].
  destruct (Rle_dec xx high); [| lra].
  left. apply power_pos.
Qed.

(** ** The weighting functions *)

Lemma PowerLaw_call_psi_of_z self z parameters lamb :
  parameters !! "redshift" = None →
  parameters !! "lamb" = Some lamb →
  call_psi_of_z PowerLawRedshift self z parameters
  = Ok {| array_module := array_module z;
          data := map (fun zi => powerlaw1 lamb (1 + z_max self) 1 (1 + zi))
                    (data z) |}.
Proof.
  intros Hr Hl. unfold call_psi_of_z. rewrite Hr. simpl.
  unfold PowerLawRedshift_psi_of_z, lookup_key. rewrite Hl. simpl.
  unfold powerlaw. simpl. by rewrite map_map.
Qed.

Lemma MadauDickinson_call_psi_of_z self z parameters gamma kappa z_peak :
  parameters !! "redshift" = None →
  parameters !! "gamma" = Some gamma →
  parameters !! "kappa" = Some kappa →
  parameters !! "z_peak" = Some z_peak →
  call_psi_of_z MadauDickinsonRedshift self z parameters
  = Ok {| array_module := array_module z;
          data := map (fun zi =>
                         powerlaw1 gamma (1 + z_max self) 1 (1 + zi)
                         / (1 + power ((1 + zi) / (1 + z_peak)) kappa))
                    (data z) |}.
Proof.
  intros Hr Hg Hk Hp. unfold call_psi_of_z. rewrite Hr. simpl.
  unfold MadauDickinsonRedshift_psi_of_z, lookup_key.
  rewrite Hg, Hk, Hp. simpl.
  rewrite inplace_same_shape.
  - unfold powerlaw. simpl. rewrite !map_map.
    by rewrite (zip_with_map_same Rdiv).
  - by rewrite shape_powerlaw, !shape_scalar_add, shape_pow_scalar,
      shape_div_scalar, shape_scalar_add.
Qed.

Lemma PowerLaw_ignores_cache : ignores_cache PowerLawRedshift.
Proof. intros self c z p. reflexivity. Qed.

Lemma MadauDickinson_ignores_cache : ignores_cache MadauDickinsonRedshift.
Proof. intros self c z p. reflexivity. Qed.

Lemma call_psi_of_z_ignores_cache cls self c z p :
  ignores_cache cls →
  call_psi_of_z cls (set_cached_dvc_dz self c) z p = call_psi_of_z cls self z p.
Proof. intros H. unfold call_psi_of_z. by rewrite H. Qed.

Lemma normalisation_ignores_cache cls self c p :
  ignores_cache cls →
  normalisation_of cls (set_cached_dvc_dz self c) p = normalisation_of cls self p.
Proof.
  intros H. unfold normalisation_of, normalisation, lift. simpl.
  by rewrite call_psi_of_z_ignores_cache.
Qed.

(** ** Constructed instances *)

Lemma constructed_grid_ok cosmology zmax self :
  constructed cosmology zmax self → grid_ok self.
Proof. intros (xp & c & ->). apply grid_ok_set_cached, grid_ok_init. Qed.

Lemma constructed_fields cosmology zmax self :
  constructed cosmology zmax self →
  z_max self = zmax
  ∧ data (zs_ self) = linspace (1 / 1000) zmax 1000
  ∧ data (zs self) = linspace (1 / 1000) zmax 1000
  ∧ data (dvc_dz_ self)
    = map (fun z => cosmology z * 4 * PI) (linspace (1 / 1000) zmax 1000)
  ∧ data (dvc_dz self)
    = map (fun z => cosmology z * 4 * PI) (linspace (1 / 1000) zmax 1000).
Proof. intros (xp & c & ->). repeat split; reflexivity. Qed.

Lemma constructed_shapes cosmology zmax self :
  constructed cosmology zmax self →
  shape (zs self) = 1000%nat ∧ shape (dvc_dz self) = 1000%nat.
Proof.
  intros H. destruct (constructed_fields _ _ _ H) as (_ & _ & Hzs & _ & Hd).
  unfold shape. rewrite Hzs, Hd, length_map, length_linspace. done.
Qed.

(** The volume term on the grid is positive when the cosmology is. *)
Lemma positive_integrand cosmology zmax (psi_g : list R) :
  1 / 1000 <= zmax →
  (∀ z, 1 / 1000 <= z <= zmax → 0 < cosmology z) →
  Forall (fun v => 0 < v) psi_g →
  Forall (fun v => 0 < v)
    (zip_with Rdiv
       (zip_with Rmult psi_g
          (map (fun z => cosmology z * 4 * PI) (linspace (1 / 1000) zmax 1000)))
       (map (Rplus 1) (linspace (1 / 1000) zmax 1000))).
Proof.
  intros Hz Hcos Hpsi.
  pose proof (linspace_bounds (1 / 1000) zmax 1000 Hz ltac:(lia)) as Hgrid.
  apply Forall_lookup_2. intros i v Hv.
  apply lookup_zip_with_Some in Hv as (a & b & -> & Ha & Hb).
  apply lookup_zip_with_Some in Ha as (p & d & -> & Hp & Hd).
  apply list_lookup_fmap_Some in Hd as (z & -> & Hzi).
  apply list_lookup_fmap_Some in Hb as (z' & -> & Hzi').
  assert (z' = z) as -> by congruence.
  pose proof (Forall_lookup_1 _ _ _ _ Hgrid Hzi) as Hzb. simpl in Hzb.
  pose proof (Forall_lookup_1 _ _ _ _ Hpsi Hp) as Hpp. simpl in Hpp.
  pose proof (Hcos z Hzb) as Hc. pose proof PI_RGT_0 as Hpi.
  apply Rdiv_lt_0_compat; [| lra].
  apply Rmult_lt_0_compat; [exact Hpp |].
  apply Rmult_lt_0_compat; [| exact Hpi]. lra.
Qed.

(** For a positive weighting on the grid, a grid that increases
    ([z_max] above its first point 0.001) and a positive cosmology the
    normalisation is a positive number. *)
Lemma normalisation_positive cls cosmology zmax self parameters psi_g :
  constructed cosmology zmax self →
  1 / 1000 < zmax →
  (∀ z, 1 / 1000 <= z <= zmax → 0 < cosmology z) →
  call_psi_of_z cls self (zs self) parameters = Ok psi_g →
  shape psi_g = shape (zs self) →
  Forall (fun v => 0 < v) (data psi_g) →
  ∃ N, normalisation_of cls self parameters = Ok N ∧ 0 < N.
Proof.
  intros Hself Hz Hcos Hpsi Hshape Hpos.
  destruct (constructed_fields _ _ _ Hself) as (_ & _ & Hzs & _ & Hd).
  destruct (constructed_shapes _ _ _ Hself) as [Hs1 Hs2].
  eexists. split.
  - apply (normalisation_value cls self parameters psi_g Hpsi Hshape). congruence.
  - rewrite Hzs, Hd. apply trapz_list_pos.
    + apply linspace_increasing; [exact Hz | lia].
    + apply (positive_integrand cosmology zmax); [lra | exact Hcos | exact Hpos].
    + unfold shape in *. rewrite !length_zip_with, !length_map, length_linspace.
      rewrite Hshape, Hs1. reflexivity.
    + rewrite length_linspace. lia.
Qed.

End Classes.

(* ===================================================================== *)
(** * Rescaling the weighting *)
(* ===================================================================== *)

Section Rescaling.

Lemma div_scaled c x N : c ≠ 0 → c * x / (c * N) = x / N.
Proof.
  intros Hc. unfold Rdiv. rewrite Rinv_mult.
  replace (c * x * (/ c * / N)) with (c * / c * (x * / N)) by ring.
  rewrite Rinv_r by exact Hc. ring.
Qed.

Lemma div_scalar_scaled c q N :
  c ≠ 0 → div_scalar (scale c q) (c * N) = div_scalar q N.
Proof.
  intros Hc. unfold div_scalar, scale. simpl. f_equal.
  rewrite map_map. apply map_ext. intros x. by apply div_scaled.
Qed.

Lemma trapz_scale c y x : trapz (scale c y) x = c * trapz y x.
Proof. unfold trapz, scale. simpl. apply trapz_list_scale. Qed.

Lemma normalisation_proportional c cls1 cls2 p1 p2 self :
  proportional c cls1 cls2 p1 p2 →
  normalisation_of cls1 self p1
  = (N <-? normalisation_of cls2 self p2 ;; Ok (c * N)).
Proof.
  intros Hprop. unfold normalisation_of, normalisation, lift. simpl.
  rewrite Hprop.
  destruct (call_psi_of_z cls2 self (zs self) p2) as [psi | e]; [| reflexivity].
  simpl. rewrite elementwise_scale_l by (intros; ring).
  destruct (elementwise Rmult psi (dvc_dz self)) as [w | e]; [| reflexivity].
  simpl. rewrite elementwise_scale_l by (intros; unfold Rdiv; ring).
  destruct (elementwise Rdiv w (scalar_add 1 (zs self))) as [y | e];
    [| reflexivity].
  simpl. by rewrite trapz_scale.
Qed.

(** The factor [c] of the numerator meets the factor [c] of the
    normalisation; what [probability] does with the cache is the same
    for both weightings. *)
Lemma probability_proportional c cls1 cls2 p1 p2 xp dataset self :
  c ≠ 0 →
  proportional c cls1 cls2 p1 p2 →
  probability cls1 xp dataset p1 self = probability cls2 xp dataset p2 self.
Proof.
  intros Hc Hprop.
  unfold probability, bind, getitem, lift, lookup_key.
  destruct (dataset !! "redshift") as [z |]; [| reflexivity].
  rewrite Hprop.
  destruct (call_psi_of_z cls2 self z p2) as [psi | e]; [| reflexivity].
  simpl and_then. cbv beta iota.
  rewrite !normalisation_run, (normalisation_proportional c cls1 cls2 p1 p2)
    by exact Hprop.
  destruct (normalisation_of cls2 self p2) as [N | e]; [| reflexivity].
  simpl and_then. cbv beta iota.
  rewrite elementwise_scale_l by (intros; unfold Rdiv; ring).
  destruct (elementwise Rdiv psi (scalar_add 1 z)) as [q | e]; [| reflexivity].
  simpl and_then. cbv beta iota.
  rewrite (div_scalar_scaled c q N Hc). reflexivity.
Qed.

Lemma scaled_proportional c cls p : proportional c (scaled c cls) cls p p.
Proof.
  intros self z. unfold call_psi_of_z.
  destruct (p !! "redshift"); reflexivity.
Qed.

(** C10. Multiplying the weighting of a class by a positive constant
    changes neither the value [probability] returns (or the exception it
    raises) nor the state it leaves: the constant enters the numerator
    and the trapezoidal sum of [normalisation] once each and cancels.
    A constant factor inside [powerlaw] is one such rescaling of
    [PowerLawRedshift]. *)
Theorem probability_invariant_under_rescaling
    (c : R) (cls : redshift_class) (xp : string)
    (dataset : gmap string ndarray) (parameters : gmap string R)
    (self : _Redshift) :
  0 < c →
  probability (scaled c cls) xp dataset parameters self
  = probability cls xp dataset parameters self.
Proof.
  intros Hc. apply (probability_proportional c); [lra |].
  apply scaled_proportional.
Qed.

End Rescaling.

(* ===================================================================== *)
(** * The volume term at the ends of the grid *)
(* ===================================================================== *)

Section Boundary.

Lemma hd_map_nonempty {A B} (f : A → B) d d' (l : list A) :
  l ≠ [] → hd d' (map f l) = f (hd d l).
Proof. by destruct l. Qed.

Lemma last_map_nonempty {A B} (f : A → B) d d' (l : list A) :
  l ≠ [] → List.last (map f l) d' = f (List.last l d).
Proof.
  induction l as [| x l IH]; [done |]. intros _.
  destruct l as [| y l]; [reflexivity |].
  change (List.last (map f (x :: y :: l)) d') with (List.last (map f (y :: l)) d').
  change (List.last (x :: y :: l) d) with (List.last (y :: l) d).
  by apply IH.
Qed.

Lemma linspace_nonempty start stop num :
  (1 <= num)%nat → linspace start stop num ≠ [].
Proof.
  intros Hn Hnil. apply (f_equal length) in Hnil.
  rewrite length_linspace in Hnil. simpl in Hnil. lia.
Qed.

Variable cosmology : R → R.
Variable zmax : R.
Variable self : _Redshift.
Hypothesis Hself : constructed cosmology zmax self.
Hypothesis Hzmax : 1 / 1000 < zmax.

Lemma constructed_increasing : increasing (data (zs_ self)).
Proof.
  destruct (constructed_fields _ _ _ Hself) as (_ & -> & _).
  apply linspace_increasing; [exact Hzmax | lia].
Qed.

Lemma volume_right x :
  zmax <= x →
  interp1 (data (zs_ self)) (data (dvc_dz_ self)) x = cosmology zmax * 4 * PI.
Proof.
  intros Hx.
  destruct (constructed_fields _ _ _ Hself) as (_ & Hzs & _ & Hd & _).
  pose proof constructed_increasing as Hinc.
  rewrite Hzs, Hd in *.
  pose proof (linspace_nonempty (1 / 1000) zmax 1000 ltac:(lia)) as Hne.
  rewrite interp1_right.
  - rewrite (last_map_nonempty _ 0) by exact Hne.
    by rewrite last_linspace by lia.
  - exact Hinc.
  - by rewrite length_map.
  - exact Hne.
  - rewrite last_linspace by lia. exact Hx.
Qed.

Lemma volume_left x :
  x <= 1 / 1000 →
  interp1 (data (zs_ self)) (data (dvc_dz_ self)) x
  = cosmology (1 / 1000) * 4 * PI.
Proof.
  intros Hx.
  destruct (constructed_fields _ _ _ Hself) as (_ & Hzs & _ & Hd & _).
  pose proof constructed_increasing as Hinc.
  rewrite Hzs, Hd in *.
  pose proof (linspace_nonempty (1 / 1000) zmax 1000 ltac:(lia)) as Hne.
  rewrite interp1_left.
  - rewrite (hd_map_nonempty _ 0) by exact Hne.
    by rewrite hd_linspace by lia.
  - exact Hinc.
  - by rewrite length_map.
  - exact Hne.
  - rewrite hd_linspace by lia. exact Hx.
Qed.

End Boundary.

Section Examples.

Lemma fresh_instance_constructed : constructed euclidean_volume 1 fresh_instance.
Proof. exists "numpy", None. reflexivity. Qed.

Lemma euclidean_volume_pos z : 1 / 1000 <= z <= 1 → 0 < euclidean_volume z.
Proof. intros [H _]. unfold euclidean_volume. nra. Qed.

Lemma lookup_only_lamb (lamb : R) :
  ({[ "lamb" := lamb ]} : gmap string R) !! "redshift" = None
  ∧ ({[ "lamb" := lamb ]} : gmap string R) !! "lamb" = Some lamb.
Proof. split; [by apply lookup_singleton_ne | apply lookup_singleton_eq]. Qed.

Lemma lookup_madau (gamma kappa z_peak : R) :
  let p : gmap string R :=
    {[ "gamma" := gamma; "kappa" := kappa; "z_peak" := z_peak ]} in
  p !! "redshift" = None ∧ p !! "gamma" = Some gamma
  ∧ p !! "kappa" = Some kappa ∧ p !! "z_peak" = Some z_peak.
Proof.
  intros p. unfold p. split; [| split; [| split]].
  - rewrite !lookup_insert_ne by done. by apply lookup_singleton_ne.
  - apply lookup_insert_eq.
  - rewrite lookup_insert_ne by done. apply lookup_insert_eq.
  - rewrite !lookup_insert_ne by done. apply lookup_singleton_eq.
Qed.

Lemma lookup_dataset_of l : dataset_of l !! "redshift" = Some (array_of l).
Proof. apply lookup_singleton_eq. Qed.

End Examples.

(* ===================================================================== *)
(** * normalisation *)
(* ===================================================================== *)

Section Normalisation.




End Normalisation.

(* ===================================================================== *)
(** * probability *)
(* ===================================================================== *)

Section Probability.

Lemma shape_times p v : length v = shape p → shape (times p v) = shape p.
Proof. unfold shape, times. simpl. rewrite length_zip_with. lia. Qed.

Lemma length_volume_at self z : length (volume_at self z) = shape z.
Proof. unfold volume_at, shape. apply length_map. Qed.

Lemma shape_times_weights self psi z N :
  shape psi = shape z →
  shape (times (weights psi z N) (volume_at self z)) = shape z.
Proof.
  intros H. rewrite shape_times; [by apply shape_weights |].
  by rewrite length_volume_at, shape_weights.
Qed.

Lemma times_weights_nonneg psi z N v :
  Forall (fun x => 0 <= x) (data psi) →
  Forall (fun x => -1 < x) (data z) →
  0 < N →
  Forall (fun x => 0 <= x) v →
  Forall (fun x => 0 <= x) (data (times (weights psi z N) v)).
Proof.
  intros Hpsi Hz HN Hv. apply Forall_lookup_2. intros i x Hx.
  unfold times, weights in Hx. simpl in Hx.
  apply lookup_zip_with_Some in Hx as (w & vi & -> & Hw & Hvi).
  apply list_lookup_fmap_Some in Hw as (q & -> & Hq).
  apply lookup_zip_with_Some in Hq as (a & b & -> & Ha & Hb).
  apply list_lookup_fmap_Some in Hb as (zi & -> & Hzi).
  pose proof (Forall_lookup_1 _ _ _ _ Hpsi Ha) as H1. simpl in H1.
  pose proof (Forall_lookup_1 _ _ _ _ Hz Hzi) as H2. simpl in H2.
  pose proof (Forall_lookup_1 _ _ _ _ Hv Hvi) as H3. simpl in H3.
  apply Rmult_le_pos; [| exact H3].
  apply Rmult_le_pos; [| left; by apply Rinv_0_lt_compat].
  apply Rmult_le_pos; [exact H1 |]. left. apply Rinv_0_lt_compat. lra.
Qed.

Lemma volume_at_nonneg self z :
  increasing (data (zs_ self)) →
  Forall (fun x => 0 <= x) (data (dvc_dz_ self)) →
  Forall (fun x => 0 <= x) (volume_at self z).
Proof.
  intros Hinc Hd. unfold volume_at. apply Forall_map, Forall_forall.
  intros x _. by apply interp1_nonneg.
Qed.

Lemma weights_lookup psi z N i psi_i z_i :
  data psi !! i = Some psi_i → data z !! i = Some z_i →
  data (weights psi z N) !! i = Some (psi_i / (1 + z_i) / N).
Proof.
  intros Hpsi Hz. unfold weights, div_scalar. cbn [data].
  rewrite list_lookup_fmap, lookup_zip_with, Hpsi. simpl.
  rewrite list_lookup_fmap, Hz. reflexivity.
Qed.

Lemma weights_nonneg psi z N :
  Forall (fun x => 0 <= x) (data psi) →
  Forall (fun x => -1 < x) (data z) →
  0 < N →
  Forall (fun x => 0 <= x) (data (weights psi z N)).
Proof.
  intros Hpsi Hz HN. apply Forall_lookup_2. intros i x Hx.
  unfold weights, div_scalar in Hx. cbn [data] in Hx.
  apply list_lookup_fmap_Some in Hx as (q & -> & Hq).
  apply lookup_zip_with_Some in Hq as (a & b & -> & Ha & Hb).
  apply list_lookup_fmap_Some in Hb as (zi & -> & Hzi).
  pose proof (Forall_lookup_1 _ _ _ _ Hpsi Ha) as H1. simpl in H1.
  pose proof (Forall_lookup_1 _ _ _ _ Hz Hzi) as H2. simpl in H2.
  apply Rmult_le_pos; [| left; by apply Rinv_0_lt_compat].
  apply Rmult_le_pos; [exact H1 |]. left. apply Rinv_0_lt_compat. lra.
Qed.

(** [a *= c], entry by entry: the entry of [c] at the same place, or
    the one entry of [c] when it is stretched. *)
Lemma inplace_lookup f a c r i a_i c_i :
  inplace f a c = Ok r →
  data a !! i = Some a_i →
  data c !! i = Some c_i ∨ data c = [c_i] →
  data r !! i = Some (f a_i c_i).
Proof.
  unfold inplace. intros Hr Ha Hc.
  destruct (Nat.eqb_spec (shape a) (shape c)) as [Heq | Hne].
  - apply Ok_inj in Hr. subst r. cbn [data].
    rewrite lookup_zip_with, Ha. simpl.
    destruct Hc as [Hc | Hc]; [by rewrite Hc |].
    unfold shape in Heq. rewrite Hc in Heq |- *. simpl in Heq.
    apply lookup_lt_Some in Ha. rewrite Heq in Ha.
    destruct i; [reflexivity | lia].
  - destruct (data c) as [| y [| y' l]] eqn:Hdc; try discriminate.
    apply Ok_inj in Hr. subst r. cbn [data].
    rewrite list_lookup_fmap, Ha. simpl.
    assert (y = c_i) as ->; [| reflexivity].
    destruct Hc as [Hc | Hc]; [| by injection Hc].
    destruct i; simpl in Hc; [by injection Hc | discriminate].
Qed.

Lemma inplace_mult_nonneg a c r :
  inplace Rmult a c = Ok r →
  Forall (fun x => 0 <= x) (data a) →
  Forall (fun x => 0 <= x) (data c) →
  Forall (fun x => 0 <= x) (data r).
Proof.
  unfold inplace. intros Hr Ha Hc.
  destruct (Nat.eqb (shape a) (shape c)).
  - apply Ok_inj in Hr. subst r. cbn [data].
    apply Forall_lookup_2. intros i x Hx.
    apply lookup_zip_with_Some in Hx as (u & v & -> & Hu & Hv).
    pose proof (Forall_lookup_1 _ _ _ _ Ha Hu) as H1.
    pose proof (Forall_lookup_1 _ _ _ _ Hc Hv) as H2.
    simpl in H1, H2. by apply Rmult_le_pos.
  - destruct (data c) as [| y [| y' l]] eqn:Hdc; try discriminate.
    apply Ok_inj in Hr. subst r. cbn [data].
    apply Forall_cons in Hc as [Hy _].
    apply Forall_map. eapply Forall_impl; [exact Ha |].
    simpl. intros x Hx. by apply Rmult_le_pos.
Qed.

(** C1, as the code has it.  For a weighting of the dataset's shape and
    a normalisation that returns, [probability] returns an array of the
    shape of the redshift array, whatever the cache slot holds.  When
    the slot is empty or holds an array that cannot be multiplied into
    the dataset (another length, and not length one), the volume term
    is interpolated linearly at the redshifts against the numpy copies
    of the grid and of the volume term and stored in the slot as an
    array of the active module [xp]; then, and when the slot holds that
    interpolation already, the result is, entry by entry,
    [psi / (1 + z) / normalisation] times the interpolated volume term.
    When the slot holds any other array of the dataset's length or of
    length one, that array is multiplied in as it is, and the instance
    stays as it was.  The result is non-negative when the normalisation
    is positive, the weighting, the tabulated volume term and the array
    in the slot are not negative, the redshifts lie above -1 and the
    grid increases. *)
Theorem probability_formula
    (cls : redshift_class) (xp : string) (self : _Redshift)
    (dataset : gmap string ndarray) (parameters : gmap string R)
    (z psi : ndarray) (N : R) :
  grid_ok self →
  dataset !! "redshift" = Some z →
  call_psi_of_z cls self z parameters = Ok psi →
  shape psi = shape z →
  normalisation_of cls self parameters = Ok N →
  ∃ self' p volume,
    probability cls xp dataset parameters self = (self', Ok p)
    ∧ shape p = shape z
    ∧ np_interp (to_numpy z) (zs_ self) (dvc_dz_ self) = Ok volume
    ∧ array_module volume = "numpy"
    ∧ (compatible (cached_dvc_dz self) (shape z) = false →
       cached_dvc_dz self' = Some (asarray xp volume))
    ∧ (compatible (cached_dvc_dz self) (shape z) = false
       ∨ (∃ m, cached_dvc_dz self
               = Some {| array_module := m; data := volume_at self z |}) →
       ∀ i psi_i z_i,
         data psi !! i = Some psi_i → data z !! i = Some z_i →
         data p !! i
         = Some (psi_i / (1 + z_i) / N
                 * interp1 (data (zs_ self)) (data (dvc_dz_ self)) z_i))
    ∧ (∀ c, cached_dvc_dz self = Some c →
            compatible (Some c) (shape z) = true →
            self' = self
            ∧ ∀ i psi_i z_i c_i,
                data psi !! i = Some psi_i → data z !! i = Some z_i →
                data c !! i = Some c_i ∨ data c = [c_i] →
                data p !! i = Some (psi_i / (1 + z_i) / N * c_i))
    ∧ (0 < N →
       Forall (fun x => 0 <= x) (data psi) →
       Forall (fun x => -1 < x) (data z) →
       increasing (data (zs_ self)) →
       Forall (fun x => 0 <= x) (data (dvc_dz_ self)) →
       (∀ c, cached_dvc_dz self = Some c → Forall (fun x => 0 <= x) (data c)) →
       Forall (fun x => 0 <= x) (data p)).
Proof.
  intros Hgrid Hz Hpsi Hshape HN.
  pose proof (np_interp_grid_ok self (to_numpy z) Hgrid) as Hinterp.
  destruct (compatible (cached_dvc_dz self) (shape z)) eqn:Hfit.
  - destruct (cached_dvc_dz self) as [c |] eqn:Hc; [| discriminate].
    destruct (probability_hit cls xp dataset parameters self z psi N c
                Hz Hpsi Hshape HN Hc Hfit) as (r & Hr & Hsr & Hrun).
    assert (Hentries : ∀ i psi_i z_i c_i,
               data psi !! i = Some psi_i → data z !! i = Some z_i →
               data c !! i = Some c_i ∨ data c = [c_i] →
               data r !! i = Some (psi_i / (1 + z_i) / N * c_i)).
    { intros i psi_i z_i c_i Hpi Hzi Hci.
      apply (inplace_lookup Rmult _ c r i _ c_i Hr); [| exact Hci].
      by apply weights_lookup. }
    exists self, r, {| array_module := "numpy"; data := volume_at self z |}.
    split; [exact Hrun |]. split; [exact Hsr |].
    split; [exact Hinterp |]. split; [reflexivity |].
    split; [discriminate |].
    split; [| split].
    + intros [Hmiss | [m Hm]]; [discriminate |].
      injection Hm as ->. intros i psi_i z_i Hpi Hzi.
      apply Hentries; [exact Hpi | exact Hzi |]. left. cbn [data].
      unfold volume_at. by rewrite list_lookup_fmap, Hzi.
    + intros c' [= <-] _. split; [reflexivity | exact Hentries].
    + intros HNpos Hpos Hzs _ _ Hslot.
      apply (inplace_mult_nonneg _ c r Hr); [| by apply Hslot].
      by apply weights_nonneg.
  - exists (set_cached_dvc_dz self
              (Some {| array_module := xp; data := volume_at self z |})),
      (times (weights psi z N) (volume_at self z)),
      {| array_module := "numpy"; data := volume_at self z |}.
    split; [by apply probability_miss |].
    split; [by apply shape_times_weights |].
    split; [exact Hinterp |]. split; [reflexivity |].
    split; [reflexivity |].
    split; [| split].
    + intros _ i psi_i z_i Hpi Hzi. apply times_lookup; [exact Hpi | exact Hzi |].
      unfold volume_at. by rewrite list_lookup_fmap, Hzi.
    + intros c Hc Hcfit. rewrite Hc in Hfit. congruence.
    + intros HNpos Hpos Hzs Hinc Hd _.
      apply times_weights_nonneg; try assumption.
      by apply volume_at_nonneg.
Qed.

End Probability.

Section PositiveNormalisation.

Variable cosmology : R → R.
Variable zmax : R.
Variable self : _Redshift.
Hypothesis Hself : constructed cosmology zmax self.
Hypothesis Hzmax : 1 / 1000 < zmax.
Hypothesis Hcosmology : ∀ z, 1 / 1000 <= z <= zmax → 0 < cosmology z.

Lemma PowerLaw_positive_on_grid lamb :
  Forall (fun v => 0 < v)
    (map (fun zi => powerlaw1 lamb (1 + z_max self) 1 (1 + zi)) (data (zs self))).
Proof.
  destruct (constructed_fields _ _ _ Hself) as (-> & _ & -> & _).
  apply Forall_map.
  eapply Forall_impl; [apply (linspace_bounds (1 / 1000) zmax 1000); [lra | lia] |].
  intros z [Hz1 Hz2]. simpl.
  rewrite powerlaw1_inside by lra. apply power_pos.
Qed.

Lemma PowerLaw_normalisation_positive parameters lamb :
  parameters !! "redshift" = None →
  parameters !! "lamb" = Some lamb →
  ∃ N, normalisation_of PowerLawRedshift self parameters = Ok N ∧ 0 < N.
Proof.
  intros Hr Hl.
  apply (normalisation_positive PowerLawRedshift cosmology zmax self parameters
           _ Hself Hzmax Hcosmology
           (PowerLaw_call_psi_of_z self (zs self) parameters lamb Hr Hl)).
  - shape_of_map.
  - cbn [data]. apply PowerLaw_positive_on_grid.
Qed.

Lemma MadauDickinson_normalisation_positive parameters gamma kappa z_peak :
  parameters !! "redshift" = None →
  parameters !! "gamma" = Some gamma →
  parameters !! "kappa" = Some kappa →
  parameters !! "z_peak" = Some z_peak →
  ∃ N, normalisation_of MadauDickinsonRedshift self parameters = Ok N ∧ 0 < N.
Proof.
  intros Hr Hg Hk Hp.
  apply (normalisation_positive MadauDickinsonRedshift cosmology zmax self
           parameters _ Hself Hzmax Hcosmology
           (MadauDickinson_call_psi_of_z self (zs self) parameters
              gamma kappa z_peak Hr Hg Hk Hp)).
  - shape_of_map.
  - cbn [data].
    pose proof (PowerLaw_positive_on_grid gamma) as Hpl.
    rewrite Forall_map in Hpl |- *.
    eapply Forall_impl; [exact Hpl |]. simpl. intros z Hz.
    apply Rdiv_lt_0_compat; [exact Hz |].
    pose proof (power_pos ((1 + z) / (1 + z_peak)) kappa). lra.
Qed.

End PositiveNormalisation.

Section ProbabilityExamples.

Lemma euclidean_grid_nonneg :
  Forall (fun x => 0 <= x) (data (dvc_dz_ fresh_instance)).
Proof.
  destruct (constructed_fields _ _ _ fresh_instance_constructed)
    as (_ & _ & _ & -> & _).
  apply Forall_map, Forall_forall. intros z _.
  pose proof PI_RGT_0. unfold euclidean_volume. nra.
Qed.

(** The base class has no weighting: the contract violation of the
    spec surfaces as [NotImplementedError], and [self] is untouched. *)
Example base_class_not_implemented :
  probability _Redshift_class "numpy" (dataset_of [0]) flat_parameters
    fresh_instance
  = (fresh_instance, Raise NotImplementedError)
  ∧ _Redshift__call__ fresh_instance = (fresh_instance, Raise NotImplementedError).
Proof.
  split; [| reflexivity].
  unfold probability, bind, getitem, lift, lookup_key.
  rewrite lookup_dataset_of. unfold call_psi_of_z, flat_parameters.
  by rewrite (proj1 (lookup_only_lamb 0)).
Qed.

(** A dataset without the key ["redshift"] raises [KeyError]. *)
Example missing_redshift_key cls xp parameters self :
  probability cls xp ∅ parameters self = (self, Raise (KeyError "redshift")).
Proof. reflexivity. Qed.

Lemma probability_formula_witness :
  ∃ self' p,
    probability PowerLawRedshift "numpy" (dataset_of [0; 1 / 2; 1])
      {[ "lamb" := 0 ]} fresh_instance = (self', Ok p)
    ∧ shape p = 3%nat
    ∧ Forall (fun x => 0 <= x) (data p).
Proof.
  destruct (lookup_only_lamb 0) as [Hr Hl].
  destruct (PowerLaw_normalisation_positive euclidean_volume 1 fresh_instance
              fresh_instance_constructed ltac:(lra) euclidean_volume_pos
              _ 0 Hr Hl) as (N & HN & HNpos).
  pose proof (PowerLaw_call_psi_of_z fresh_instance (array_of [0; 1 / 2; 1])
                _ 0 Hr Hl) as Hpsi.
  destruct (probability_formula PowerLawRedshift "numpy" fresh_instance
              (dataset_of [0; 1 / 2; 1]) {[ "lamb" := 0 ]} _ _ N
              (constructed_grid_ok _ _ _ fresh_instance_constructed)
              (lookup_dataset_of _) Hpsi eq_refl HN)
    as (self' & p & volume & Hrun & Hshape & _ & _ & _ & _ & _ & Hnonneg).
  exists self', p. split; [exact Hrun |]. split; [exact Hshape |].
  apply Hnonneg.
  - exact HNpos.
  - cbn [data]. apply Forall_map, Forall_forall. intros x _.
    apply powerlaw1_nonneg.
  - cbn [data array_of]. repeat constructor; lra.
  - apply (constructed_increasing euclidean_volume 1);
      [exact fresh_instance_constructed | lra].
  - exact euclidean_grid_nonneg.
  - intros c Hc. discriminate Hc.
Defined.

End ProbabilityExamples.

(* ===================================================================== *)
(** * The cache slot *)
(* ===================================================================== *)

Section Cache.

Variable cls : redshift_class.
Variable xp : string.
Hypothesis Hcls : ignores_cache cls.


Lemma probability_reuse_any_slot dataset parameters self m z psi N :
  dataset !! "redshift" = Some z →
  call_psi_of_z cls self z parameters = Ok psi →
  shape psi = shape z →
  normalisation_of cls self parameters = Ok N →
  let s := set_cached_dvc_dz self
             (Some {| array_module := m; data := volume_at self z |}) in
  probability cls xp dataset parameters s
  = (s, Ok (times (weights psi z N) (volume_at self z))).
Proof.
  intros Hz Hpsi Hshape HN s.
  apply (probability_reuse cls xp dataset parameters s z psi N m).
  - exact Hz.
  - unfold s. by rewrite call_psi_of_z_ignores_cache.
  - exact Hshape.
  - unfold s. by rewrite normalisation_ignores_cache.
  - reflexivity.
Qed.



End Cache.

Section CacheExamples.

Lemma fresh_grid_ok : grid_ok fresh_instance.
Proof. exact (constructed_grid_ok _ _ _ fresh_instance_constructed). Qed.

Lemma fresh_normalisation :
  ∃ N, normalisation_of PowerLawRedshift fresh_instance flat_parameters = Ok N ∧ 0 < N.
Proof.
  destruct (lookup_only_lamb 0) as [Hr Hl].
  exact (PowerLaw_normalisation_positive euclidean_volume 1 fresh_instance
           fresh_instance_constructed ltac:(lra) euclidean_volume_pos _ 0 Hr Hl).
Qed.

Lemma fresh_psi l :
  call_psi_of_z PowerLawRedshift fresh_instance (array_of l) flat_parameters
  = Ok (array_of (map (fun zi => powerlaw1 0 (1 + 1) 1 (1 + zi)) l)).
Proof.
  destruct (lookup_only_lamb 0) as [Hr Hl].
  exact (PowerLaw_call_psi_of_z fresh_instance (array_of l) _ 0 Hr Hl).
Qed.

Lemma powerlaw1_flat z : 0 <= z <= 1 → powerlaw1 0 (1 + 1) 1 (1 + z) = 1.
Proof. intros H. rewrite powerlaw1_inside by lra. apply power_0. Qed.

Lemma fresh_volume_0 :
  interp1 (data (zs_ fresh_instance)) (data (dvc_dz_ fresh_instance)) 0
  = 1 / 1000 * (1 / 1000) * 4 * PI.
Proof.
  rewrite (volume_left euclidean_volume 1 fresh_instance
             fresh_instance_constructed) by lra.
  reflexivity.
Qed.

Lemma fresh_volume_1 :
  interp1 (data (zs_ fresh_instance)) (data (dvc_dz_ fresh_instance)) 1
  = 1 * 1 * 4 * PI.
Proof.
  rewrite (volume_right euclidean_volume 1 fresh_instance
             fresh_instance_constructed) by lra.
  reflexivity.
Qed.


(** After a call on the one-entry dataset [[0]], a call on the
    one-entry dataset [[1]] multiplies in the volume term of redshift 0
    that is still in the slot: the result is not
    [psi / (1 + z) / normalisation] times the volume term at
    redshift 1. *)
Lemma stale_slot_example :
  let self1 :=
    fst (probability PowerLawRedshift "numpy" (dataset_of [0]) flat_parameters
           fresh_instance) in
  ∃ N p,
    normalisation_of PowerLawRedshift self1 flat_parameters = Ok N
    ∧ call_psi_of_z PowerLawRedshift self1 (array_of [1]) flat_parameters
      = Ok (array_of [1])
    ∧ snd (probability PowerLawRedshift "numpy" (dataset_of [1]) flat_parameters self1)
      = Ok p
    ∧ data p
      ≠ [1 / (1 + 1) / N
         * interp1 (data (zs_ self1)) (data (dvc_dz_ self1)) 1].
Proof.
  destruct fresh_normalisation as (N & HN & HNpos).
  intros self1. unfold self1.
  rewrite (probability_miss PowerLawRedshift "numpy" (dataset_of [0]) flat_parameters
             fresh_instance (array_of [0]) _ N fresh_grid_ok
             (lookup_dataset_of _) (fresh_psi _) eq_refl HN eq_refl).
  cbn [fst].
  set (slot := {| array_module := "numpy";
                  data := volume_at fresh_instance (array_of [0]) |}).
  assert (Hpsi1 : call_psi_of_z PowerLawRedshift
                    (set_cached_dvc_dz fresh_instance (Some slot))
                    (array_of [1]) flat_parameters = Ok (array_of [1])).
  { rewrite (call_psi_of_z_ignores_cache _ _ _ _ _ PowerLaw_ignores_cache).
    rewrite fresh_psi. cbn [map]. by rewrite powerlaw1_flat by lra. }
  assert (HN1 : normalisation_of PowerLawRedshift
                  (set_cached_dvc_dz fresh_instance (Some slot)) flat_parameters
                = Ok N)
    by (by rewrite (normalisation_ignores_cache _ _ _ _ PowerLaw_ignores_cache)).
  exists N. eexists. split; [exact HN1 |]. split; [exact Hpsi1 |]. split.
  - rewrite (probability_unfold PowerLawRedshift "numpy" (dataset_of [1])
               flat_parameters _ (array_of [1]) (array_of [1]) N
               (lookup_dataset_of _) Hpsi1 eq_refl HN1).
    reflexivity.
  - change (zs_ (set_cached_dvc_dz fresh_instance (Some slot)))
      with (zs_ fresh_instance).
    change (dvc_dz_ (set_cached_dvc_dz fresh_instance (Some slot)))
      with (dvc_dz_ fresh_instance).
    unfold slot, weights, volume_at, array_of, div_scalar.
    cbn [data map zip_with].
    rewrite fresh_volume_0, fresh_volume_1.
    intros [= Heq]. pose proof PI_RGT_0 as Hpi.
    assert (Hinv : 0 < / N) by (by apply Rinv_0_lt_compat).
    unfold Rdiv in Heq. nra.
Qed.


End CacheExamples.

(* ===================================================================== *)
(** * The two evolution laws compared *)
(* ===================================================================== *)

Section MadauDickinsonVersusPowerLaw.

Lemma Rabs_le_between x a : Rabs x <= a → - a <= x <= a.
Proof. unfold Rabs. destruct (Rcase_abs x); lra. Qed.

Lemma MadauDickinson_flat_proportional (gamma z_peak : R) :
  proportional (1 / 2) MadauDickinsonRedshift PowerLawRedshift
    {[ "gamma" := gamma; "kappa" := 0; "z_peak" := z_peak ]}
    {[ "lamb" := gamma ]}.
Proof.
  intros self z.
  destruct (lookup_madau gamma 0 z_peak) as (Hr & Hg & Hk & Hp).
  destruct (lookup_only_lamb gamma) as [Hr' Hl].
  rewrite (MadauDickinson_call_psi_of_z self z _ gamma 0 z_peak Hr Hg Hk Hp).
  rewrite (PowerLaw_call_psi_of_z self z _ gamma Hr' Hl).
  simpl. unfold scale. simpl. do 2 f_equal.
  rewrite map_map. apply map_ext. intros zi. rewrite power_0. lra.
Qed.

(** C7, as the code has it.  The peaked model agrees with the power-law
    model of exponent [gamma] when [kappa = 0], for every [gamma] and
    every [z_peak]: the denominator [1 + ((1+z)/(1+z_peak))^0] is then
    the constant 2, which cancels against the normalisation.  The two
    calls return the same array and leave the same state.  (With
    [kappa = gamma] this covers [gamma = 0] only.) *)
Theorem MadauDickinson_flat_matches_PowerLaw
    (xp : string) (dataset : gmap string ndarray) (gamma z_peak : R)
    (self : _Redshift) :
  MadauDickinsonRedshift__call__ xp dataset gamma 0 z_peak self
  = PowerLawRedshift__call__ xp dataset gamma self.
Proof.
  unfold MadauDickinsonRedshift__call__, PowerLawRedshift__call__.
  apply (probability_proportional (1 / 2)); [lra |].
  apply MadauDickinson_flat_proportional.
Qed.

(** Against C7 as stated.  With [gamma = kappa = 1], [z_peak = 1],
    [z_max = 1] and the redshifts 0 and 1 the two models are more than
    ten percent apart in at least one entry. *)
Lemma MadauDickinson_equal_slopes_counterexample :
  ∃ s_md r_md s_pl r_pl,
    MadauDickinsonRedshift__call__ "numpy" (dataset_of [0; 1]) 1 1 1
      fresh_instance = (s_md, Ok r_md)
    ∧ PowerLawRedshift__call__ "numpy" (dataset_of [0; 1]) 1
        fresh_instance = (s_pl, Ok r_pl)
    ∧ ¬ Forall2 (fun a b => Rabs (a - b) <= / 10 * Rabs b)
          (data r_md) (data r_pl).
Proof.
  destruct (lookup_madau 1 1 1) as (Hr & Hg & Hk & Hp).
  destruct (lookup_only_lamb 1) as [Hr' Hl].
  destruct (PowerLaw_normalisation_positive euclidean_volume 1 fresh_instance
              fresh_instance_constructed ltac:(lra) euclidean_volume_pos
              _ 1 Hr' Hl) as (N_pl & HN_pl & Hpos_pl).
  destruct (MadauDickinson_normalisation_positive euclidean_volume 1
              fresh_instance fresh_instance_constructed ltac:(lra)
              euclidean_volume_pos _ 1 1 1 Hr Hg Hk Hp)
    as (N_md & HN_md & Hpos_md).
  pose proof (probability_miss MadauDickinsonRedshift "numpy"
                (dataset_of [0; 1]) _ fresh_instance (array_of [0; 1]) _ N_md
                fresh_grid_ok (lookup_dataset_of _)
                (MadauDickinson_call_psi_of_z fresh_instance (array_of [0; 1])
                   _ 1 1 1 Hr Hg Hk Hp)
                eq_refl HN_md eq_refl) as Hmd.
  pose proof (probability_miss PowerLawRedshift "numpy"
                (dataset_of [0; 1]) _ fresh_instance (array_of [0; 1]) _ N_pl
                fresh_grid_ok (lookup_dataset_of _)
                (PowerLaw_call_psi_of_z fresh_instance (array_of [0; 1])
                   _ 1 Hr' Hl)
                eq_refl HN_pl eq_refl) as Hpl.
  eexists _, _, _, _. split; [exact Hmd |]. split; [exact Hpl |].
  unfold times, weights, volume_at, array_of, div_scalar.
  cbn [data map zip_with array_module].
  change (z_max fresh_instance) with 1.
  rewrite fresh_volume_0, fresh_volume_1.
  rewrite !powerlaw1_inside by lra.
  rewrite !power_1 by lra.
  intros HF.
  inversion HF as [| a0 b0 la lb H0 HF']; subst.
  inversion HF' as [| a1 b1 la' lb' H1 _]; subst.
  pose proof PI_RGT_0 as Hpi.
  assert (Hu : 0 < / N_md) by (by apply Rinv_0_lt_compat).
  assert (Hw : 0 < / N_pl) by (by apply Rinv_0_lt_compat).
  unfold Rdiv in H0, H1.
  set (u := / N_md) in *. set (w := / N_pl) in *.
  rewrite (Rabs_pos_eq ((1 + 0) * / 1 * / (1 + 0) * w
                        * (1 * / 1000 * (1 * / 1000) * 4 * PI))) in H0 by nra.
  rewrite (Rabs_pos_eq ((1 + 1) * / 1 * / (1 + 1) * w * (1 * 1 * 4 * PI)))
    in H1 by nra.
  apply Rabs_le_between in H0. apply Rabs_le_between in H1.
  replace (/ (1 + (1 + 0) * / (1 + 1))) with (2 / 3) in H0 by lra.
  replace (/ (1 + (1 + 1) * / (1 + 1))) with (1 / 2) in H1 by lra.
  assert (Hup : u * PI <= 165 / 100 * (w * PI)) by lra.
  assert (Hlo : 18 / 10 * (w * PI) <= u * PI) by lra.
  nra.
Qed.

End MadauDickinsonVersusPowerLaw.

(* ===================================================================== *)
(** * The power-law model: flat weighting and the upper boundary *)
(* ===================================================================== *)

Section PowerLaw.

(** [probability] never fails on account of the cache slot. *)
Lemma probability_returns cls xp dataset parameters self z psi N :
  grid_ok self →
  dataset !! "redshift" = Some z →
  call_psi_of_z cls self z parameters = Ok psi →
  shape psi = shape z →
  normalisation_of cls self parameters = Ok N →
  ∃ self' p, probability cls xp dataset parameters self = (self', Ok p)
             ∧ shape p = shape z.
Proof.
  intros Hgrid Hz Hpsi Hshape HN.
  destruct (compatible (cached_dvc_dz self) (shape z)) eqn:Hfit.
  - destruct (cached_dvc_dz self) as [c |] eqn:Hc; [| discriminate].
    destruct (probability_hit cls xp dataset parameters self z psi N c)
      as (r & _ & Hsr & Hrun); try done.
    by exists self, r.
  - eexists _, _. split; [by apply probability_miss |].
    by apply shape_times_weights.
Qed.

(** Two classes that weigh the dataset and the grid alike are not told
    apart by [probability]. *)
Lemma probability_same_weighting cls1 cls2 xp dataset parameters self z :
  dataset !! "redshift" = Some z →
  call_psi_of_z cls1 self z parameters = call_psi_of_z cls2 self z parameters →
  call_psi_of_z cls1 self (zs self) parameters
  = call_psi_of_z cls2 self (zs self) parameters →
  probability cls1 xp dataset parameters self
  = probability cls2 xp dataset parameters self.
Proof.
  intros Hz Hd Hg.
  unfold probability, bind, getitem, lift, lookup_key. rewrite Hz, Hd.
  destruct (call_psi_of_z cls2 self z parameters) as [psi | e]; [| reflexivity].
  rewrite !normalisation_run.
  assert (normalisation_of cls1 self parameters
          = normalisation_of cls2 self parameters) as ->; [| reflexivity].
  unfold normalisation_of, normalisation, lift. simpl. by rewrite Hg.
Qed.

Lemma zip_with_mult_ones (zs dvc : list R) :
  length zs = length dvc →
  zip_with Rmult (map (fun _ => 1) zs) dvc = dvc.
Proof.
  revert dvc. induction zs as [| z zs IH]; intros [| d dvc] Hlen;
    simpl in *; try done.
  rewrite IH by lia. f_equal. lra.
Qed.

Variable cosmology : R → R.
Variable zmax : R.
Variable self : _Redshift.
Hypothesis Hself : constructed cosmology zmax self.

Lemma PowerLaw_flat_on (l : list R) :
  Forall (fun zi => 0 <= zi <= zmax) l →
  map (fun zi => powerlaw1 0 (1 + z_max self) 1 (1 + zi)) l
  = map (fun _ => 1) l.
Proof.
  intros Hl. destruct (constructed_fields _ _ _ Hself) as (-> & _).
  induction Hl as [| zi l [H0 H1] _ IH]; [reflexivity |].
  simpl. rewrite IH. f_equal.
  rewrite powerlaw1_inside by lra. apply power_0.
Qed.

Lemma PowerLaw_normalisation_Ok parameters lamb :
  parameters !! "redshift" = None →
  parameters !! "lamb" = Some lamb →
  ∃ N, normalisation_of PowerLawRedshift self parameters = Ok N.
Proof.
  intros Hr Hl. eexists.
  apply (normalisation_value PowerLawRedshift self parameters _
           (PowerLaw_call_psi_of_z self (zs self) parameters lamb Hr Hl)).
  - shape_of_map.
  - destruct (constructed_shapes _ _ _ Hself). congruence.
Qed.

End PowerLaw.

Section FlatPowerLaw.

Variable cosmology : R → R.
Variable zmax : R.
Variable self : _Redshift.
Hypothesis Hself : constructed cosmology zmax self.
Hypothesis Hzmax : 1 / 1000 <= zmax.

Lemma grid_within_range :
  Forall (fun zi => 0 <= zi <= zmax) (data (zs self)).
Proof.
  destruct (constructed_fields _ _ _ Hself) as (_ & _ & -> & _).
  eapply Forall_impl; [apply (linspace_bounds (1 / 1000) zmax 1000); [lra | lia] |].
  simpl. intros; lra.
Qed.

Lemma PowerLaw_flat_call z :
  Forall (fun zi => 0 <= zi <= zmax) (data z) →
  call_psi_of_z PowerLawRedshift self z flat_parameters
  = Ok {| array_module := array_module z; data := map (fun _ => 1) (data z) |}.
Proof.
  intros Hz. destruct (lookup_only_lamb 0) as [Hr Hl].
  rewrite (PowerLaw_call_psi_of_z self z flat_parameters 0 Hr Hl).
  by rewrite (PowerLaw_flat_on cosmology zmax self Hself).
Qed.

Lemma VolumeOnly_call z :
  call_psi_of_z VolumeOnly self z flat_parameters
  = Ok {| array_module := array_module z; data := map (fun _ => 1) (data z) |}.
Proof.
  destruct (lookup_only_lamb 0) as [Hr _].
  unfold call_psi_of_z. fold flat_parameters in Hr. by rewrite Hr.
Qed.

Lemma flat_normalisation :
  normalisation_of PowerLawRedshift self flat_parameters
  = Ok (trapz_list
          (zip_with Rdiv (data (dvc_dz self)) (map (Rplus 1) (data (zs self))))
          (data (zs self))).
Proof.
  destruct (constructed_shapes _ _ _ Hself) as [Hs1 Hs2].
  rewrite (normalisation_value PowerLawRedshift self flat_parameters _
             (PowerLaw_flat_call (zs self) grid_within_range)).
  - cbn [data]. rewrite zip_with_mult_ones; [reflexivity |].
    unfold shape in *. congruence.
  - shape_of_map.
  - congruence.
Qed.

End FlatPowerLaw.

(** C8, as the code has it.  With [lamb = 0] the weighting of the
    power-law model is 1 at every redshift of [[0, z_max]].  For an
    instance whose grid lies in [[0, z_max]] ([z_max] at or above the
    first grid point 0.001), [probability] is that of the volume-only
    model whatever the cache slot holds, and the normalisation is the
    trapezoidal integral of the volume term over [1 + z]; on a slot
    that is empty or does not fit, each entry of the result is the
    interpolated volume term over [1 + z] over that integral; a slot
    that fits is multiplied in as it is, in the place of the
    interpolated volume term.  ([powerlaw] is the one described by the
    spec.) *)
Theorem PowerLaw_flat_is_volume_only
    (cosmology : R → R) (zmax : R) (xp : string) (self : _Redshift)
    (dataset : gmap string ndarray) (z : ndarray) :
  constructed cosmology zmax self →
  dataset !! "redshift" = Some z →
  Forall (fun zi => 0 <= zi <= zmax) (data z) →
  let integral :=
    trapz_list
      (zip_with Rdiv (data (dvc_dz self)) (map (Rplus 1) (data (zs self))))
      (data (zs self)) in
  call_psi_of_z PowerLawRedshift self z {[ "lamb" := 0 ]}
  = Ok {| array_module := array_module z; data := map (fun _ => 1) (data z) |}
  ∧ (1 / 1000 <= zmax →
     PowerLawRedshift__call__ xp dataset 0 self
     = probability VolumeOnly xp dataset {[ "lamb" := 0 ]} self
     ∧ normalisation_of PowerLawRedshift self {[ "lamb" := 0 ]} = Ok integral
     ∧ (compatible (cached_dvc_dz self) (shape z) = false →
        ∃ self' p,
          PowerLawRedshift__call__ xp dataset 0 self = (self', Ok p)
          ∧ shape p = shape z
          ∧ ∀ i z_i,
              data z !! i = Some z_i →
              data p !! i
              = Some (interp1 (data (zs_ self)) (data (dvc_dz_ self)) z_i
                      / (1 + z_i) / integral))
     ∧ (∀ c, cached_dvc_dz self = Some c →
             compatible (Some c) (shape z) = true →
             ∃ p,
               PowerLawRedshift__call__ xp dataset 0 self = (self, Ok p)
               ∧ shape p = shape z
               ∧ ∀ i z_i c_i,
                   data z !! i = Some z_i →
                   data c !! i = Some c_i ∨ data c = [c_i] →
                   data p !! i = Some (c_i / (1 + z_i) / integral))).
Proof.
  intros Hself Hz Hrange integral.
  unfold PowerLawRedshift__call__. fold flat_parameters.
  pose proof (PowerLaw_flat_call cosmology zmax self Hself z Hrange) as Hpsi.
  split; [exact Hpsi |]. intros Hzmax.
  pose proof (flat_normalisation cosmology zmax self Hself Hzmax) as HN.
  assert (Hshape : shape {| array_module := array_module z;
                            data := map (fun _ : R => 1) (data z) |} = shape z)
    by shape_of_map.
  split; [| split; [exact HN |]].
  - apply (probability_same_weighting _ _ _ _ _ _ z Hz).
    + by rewrite Hpsi, VolumeOnly_call.
    + rewrite VolumeOnly_call.
      apply (PowerLaw_flat_call cosmology zmax self Hself).
      exact (grid_within_range cosmology zmax self Hself Hzmax).
  - split.
    + intros Hmiss.
      rewrite (probability_miss PowerLawRedshift xp dataset _ self z _ integral
                 (constructed_grid_ok _ _ _ Hself) Hz Hpsi Hshape HN Hmiss).
      eexists _, _. split; [reflexivity |]. split.
      * by apply shape_times_weights.
      * intros i z_i Hzi.
        rewrite (times_lookup _ z integral _ i 1 z_i
                   (interp1 (data (zs_ self)) (data (dvc_dz_ self)) z_i)).
        -- f_equal. unfold Rdiv. ring.
        -- cbn [data]. by rewrite list_lookup_fmap, Hzi.
        -- exact Hzi.
        -- unfold volume_at. by rewrite list_lookup_fmap, Hzi.
    + intros c Hc Hfit.
      destruct (probability_hit PowerLawRedshift xp dataset flat_parameters
                  self z _ integral c Hz Hpsi Hshape HN Hc Hfit)
        as (r & Hr & Hsr & Hrun).
      exists r. split; [exact Hrun |]. split; [exact Hsr |].
      intros i z_i c_i Hzi Hci.
      rewrite (inplace_lookup Rmult _ c r i (1 / (1 + z_i) / integral) c_i Hr).
      * f_equal. unfold Rdiv. ring.
      * apply weights_lookup; [| exact Hzi].
        cbn [data]. by rewrite list_lookup_fmap, Hzi.
      * exact Hci.
Qed.

Lemma PowerLaw_flat_is_volume_only_witness :
  ∃ self' p,
    PowerLawRedshift__call__ "numpy" (dataset_of [0; 1 / 2; 1]) 0 fresh_instance
    = (self', Ok p)
    ∧ shape p = 3%nat
    ∧ call_psi_of_z PowerLawRedshift fresh_instance (array_of [0; 1 / 2; 1])
        {[ "lamb" := 0 ]} = Ok (array_of [1; 1; 1]).
Proof.
  assert (Hrange : Forall (fun zi => 0 <= zi <= 1) (data (array_of [0; 1 / 2; 1])))
    by (cbn [data array_of]; repeat constructor; lra).
  assert (Hzmax : 1 / 1000 <= 1) by lra.
  destruct (PowerLaw_flat_is_volume_only euclidean_volume 1 "numpy" fresh_instance
              (dataset_of [0; 1 / 2; 1]) (array_of [0; 1 / 2; 1])
              fresh_instance_constructed (lookup_dataset_of _) Hrange)
    as (Hpsi & Hgrid).
  destruct (Hgrid Hzmax) as (_ & _ & Hmiss & _).
  destruct (Hmiss eq_refl) as (self' & p & Hrun & Hshape & _).
  exists self', p. split; [exact Hrun |]. split; [exact Hshape | exact Hpsi].
Defined.

(** C9.  A power-law instance never raises on account of the values in
    the redshift array: whatever the cache slot holds, [probability]
    returns an array of the shape of the dataset.  For an entry equal
    to [z_max] the weighting is [(1 + z_max)^lamb]; for an entry above
    [z_max] the weighting is 0, the cut of [powerlaw] above
    [high = 1 + z_max]; and the interpolation returns a value for every
    entry, at and above [z_max] the volume term of the last grid point
    (for a grid that increases, [z_max] above 0.001). *)
Theorem PowerLaw_probability_at_and_beyond_z_max
    (cosmology : R → R) (zmax : R) (xp : string) (self : _Redshift)
    (dataset : gmap string ndarray) (parameters : gmap string R)
    (z : ndarray) (lamb : R) :
  constructed cosmology zmax self →
  dataset !! "redshift" = Some z →
  parameters !! "redshift" = None →
  parameters !! "lamb" = Some lamb →
  ∃ self' p psi volume,
    probability PowerLawRedshift xp dataset parameters self = (self', Ok p)
    ∧ shape p = shape z
    ∧ call_psi_of_z PowerLawRedshift self z parameters = Ok psi
    ∧ (∀ i z_i, data z !! i = Some z_i → zmax < z_i →
                data psi !! i = Some 0)
    ∧ (∀ i z_i, data z !! i = Some z_i → z_i = zmax → 0 <= zmax →
                data psi !! i = Some (power ((1 + zmax) / 1) lamb))
    ∧ np_interp (to_numpy z) (zs_ self) (dvc_dz_ self) = Ok volume
    ∧ shape volume = shape z
    ∧ (1 / 1000 < zmax →
       ∀ i z_i, data z !! i = Some z_i → zmax <= z_i →
                data volume !! i = Some (cosmology zmax * 4 * PI)).
Proof.
  intros Hself Hz Hr Hl.
  pose proof (PowerLaw_call_psi_of_z self z parameters lamb Hr Hl) as Hpsi.
  destruct (PowerLaw_normalisation_Ok cosmology zmax self Hself parameters lamb
              Hr Hl) as [N HN].
  pose proof (constructed_grid_ok _ _ _ Hself) as Hgrid.
  destruct (constructed_fields _ _ _ Hself) as (Hzm & _).
  destruct (probability_returns PowerLawRedshift xp dataset parameters self z _ N
              Hgrid Hz Hpsi) as (self' & p & Hrun & Hshape).
  { shape_of_map. }
  { exact HN. }
  exists self', p. eexists _, _.
  split; [exact Hrun |]. split; [exact Hshape |]. split; [exact Hpsi |].
  split; [| split; [| split; [exact (np_interp_grid_ok self (to_numpy z) Hgrid) |]]].
  - intros i z_i Hzi Habove. cbn [data].
    rewrite list_lookup_fmap, Hzi. simpl. f_equal.
    apply powerlaw1_above. rewrite Hzm. lra.
  - intros i z_i Hzi -> Hpos. cbn [data].
    rewrite list_lookup_fmap, Hzi. simpl. f_equal.
    rewrite Hzm. apply powerlaw1_inside; lra.
  - split.
    + unfold shape. cbn [data to_numpy asarray]. apply length_map.
    + intros Hzmax i z_i Hzi Hge. cbn [data to_numpy asarray].
      rewrite list_lookup_fmap, Hzi. simpl. f_equal.
      by apply (volume_right cosmology zmax self Hself Hzmax).
Qed.

Lemma PowerLaw_probability_at_and_beyond_z_max_witness :
  ∃ self' p,
    probability PowerLawRedshift "numpy" (dataset_of [1; 11 / 10])
      {[ "lamb" := 2 ]} fresh_instance = (self', Ok p)
    ∧ shape p = 2%nat.
Proof.
  destruct (lookup_only_lamb 2) as [Hr Hl].
  destruct (PowerLaw_probability_at_and_beyond_z_max euclidean_volume 1 "numpy"
              fresh_instance (dataset_of [1; 11 / 10]) {[ "lamb" := 2 ]}
              (array_of [1; 11 / 10]) 2
              fresh_instance_constructed (lookup_dataset_of _) Hr Hl)
    as (self' & p & _ & _ & Hrun & Hshape & _).
  exists self', p. split; [exact Hrun | exact Hshape].
Defined.

Lemma probability_invariant_under_rescaling_witness :
  0 < 2
  ∧ probability (scaled 2 PowerLawRedshift) "numpy" (dataset_of [0; 1])
      {[ "lamb" := 0 ]} fresh_instance
    = probability PowerLawRedshift "numpy" (dataset_of [0; 1])
        {[ "lamb" := 0 ]} fresh_instance
  ∧ is_Ok (snd (probability PowerLawRedshift "numpy" (dataset_of [0; 1])
                  {[ "lamb" := 0 ]} fresh_instance)).
Proof.
  assert (Hc : 0 < 2) by lra.
  split; [exact Hc |]. split.
  - exact (probability_invariant_under_rescaling 2 PowerLawRedshift "numpy"
             (dataset_of [0; 1]) {[ "lamb" := 0 ]} fresh_instance Hc).
  - destruct (lookup_only_lamb 0) as [Hr Hl].
    destruct (PowerLaw_normalisation_Ok euclidean_volume 1 fresh_instance
                fresh_instance_constructed _ 0 Hr Hl) as [N HN].
    destruct (probability_returns PowerLawRedshift "numpy" (dataset_of [0; 1])
                {[ "lamb" := 0 ]} fresh_instance (array_of [0; 1]) _ N
                fresh_grid_ok (lookup_dataset_of _)
                (PowerLaw_call_psi_of_z fresh_instance (array_of [0; 1]) _ 0 Hr Hl)
                eq_refl HN) as (self' & p & -> & _).
    exact I.
Defined.

(* ===================================================================== *)
(** * Further properties of backend.py *)
(* ===================================================================== *)

Section StatePreservation.
Local Close Scope R_scope.

Variable R : interp_state → interp_state → Prop.
Hypothesis R_refl : ∀ st, R st st.
Hypothesis R_trans : ∀ a b c, R a b → R b c → R a c.

Lemma preserves_ret {A} (a : A) : preserves R (ret a).
Proof. intros st. apply R_refl. Qed.

Lemma preserves_raise {A} e : preserves R (@raise interp_state A e).
Proof. intros st. apply R_refl. Qed.

Lemma preserves_getitem {V} (d : gmap string V) key :
  preserves R (getitem d key).
Proof. intros st. apply R_refl. Qed.

Lemma preserves_bind {A B} (m : py A) (k : A → py B) :
  preserves R m → (∀ a, preserves R (k a)) → preserves R (bind m k).
Proof.
  intros Hm Hk st. unfold bind. specialize (Hm st).
  destruct (m st) as [s1 [a | e]]; simpl in *; [| exact Hm].
  exact (R_trans _ _ _ Hm (Hk a s1)).
Qed.

Lemma preserves_try_except {A} (m : py A) handler :
  preserves R m → (∀ e, preserves R (handler e)) →
  preserves R (try_except m handler).
Proof.
  intros Hm Hh st. unfold try_except. specialize (Hm st).
  destruct (m st) as [s1 [a | e]]; simpl in *; [exact Hm |].
  exact (R_trans _ _ _ Hm (Hh e s1)).
Qed.

Lemma preserves_for_each {A} (l : list A) (body : A → py unit) :
  (∀ x, preserves R (body x)) → preserves R (for_each l body).
Proof.
  intros Hbody. induction l as [| x l IH]; simpl.
  - apply preserves_ret.
  - apply preserves_bind; [apply Hbody | intros _; exact IH].
Qed.

End StatePreservation.

Section BackendFrame.
Local Close Scope R_scope.

Lemma quiet_refl st : quiet st st.
Proof. by split. Qed.

Lemma quiet_trans a b c : quiet a b → quiet b c → quiet a c.
Proof.
  intros [H1 H2] [H3 H4]. split; [congruence |].
  intros m x. by rewrite H4, H2.
Qed.

Lemma frame_refl backend st : frame backend st st.
Proof. repeat split; auto. by exists []. Qed.

Lemma frame_trans backend a b c :
  frame backend a b → frame backend b c → frame backend a c.
Proof.
  intros (A1 & A2 & A3 & [n1 A4] & A5) (B1 & B2 & B3 & [n2 B4] & B5).
  repeat split.
  - intros m x H1 H2 H3. by rewrite B1, A1.
  - auto.
  - intros H. by rewrite B3, A3.
  - exists (n2 ++ n1). by rewrite B4, A4, app_assoc.
  - destruct B5 as [-> | ->]; auto.
Qed.

Lemma quiet_frame backend st st' :
  quiet st st' → jax_enable_x64 st' = jax_enable_x64 st →
  (∃ new, import_log st' = new ++ import_log st) →
  frame backend st st'.
Proof.
  intros [Hb Ha] Hf Hl. repeat split; auto; congruence.
Qed.

(** An import, successful or not, leaves [__backend__] and every
    attribute alone. *)
Lemma import_module_state env name st :
  let st' := fst (import_module env name st) in
  quiet st st' ∧ jax_enable_x64 st' = jax_enable_x64 st
  ∧ import_log st' = name :: import_log st.
Proof.
  unfold import_module, bind, log_import. simpl.
  destruct (first_import_failure env (dotted_prefixes name)); simpl;
    [by repeat split |].
  repeat split. intros m a. unfold module_attribute. simpl.
  destruct (decide (m = name)) as [-> | Hne].
  - rewrite lookup_insert_eq. destruct (sys_modules st !! name); reflexivity.
  - rewrite lookup_insert_ne by congruence. reflexivity.
Qed.

Lemma import_module_quiet env name : preserves quiet (import_module env name).
Proof. intros st. apply import_module_state. Qed.

Lemma import_module_frame backend env name :
  preserves (frame backend) (import_module env name).
Proof.
  intros st. destruct (import_module_state env name st) as (Hq & Hf & Hl).
  apply quiet_frame; [exact Hq | exact Hf |]. by exists [name].
Qed.

Lemma from_import_state env owner attr st :
  fst (from_import env owner attr st) = fst (import_module env owner st).
Proof.
  unfold from_import, bind, ret.
  by destruct (import_module env owner st) as [s [o | e]].
Qed.

Lemma from_import_quiet env owner attr :
  preserves quiet (from_import env owner attr).
Proof. intros st. rewrite from_import_state. apply import_module_quiet. Qed.

Lemma from_import_frame backend env owner attr :
  preserves (frame backend) (from_import env owner attr).
Proof. intros st. rewrite from_import_state. apply import_module_frame. Qed.

Lemma setattr_frame backend obj attr value :
  attr = "xp" ∨ attr = "scs" ∨ attr = "trapz" →
  preserves (frame backend) (setattr obj attr value).
Proof.
  intros Hattr st. simpl. repeat split; auto; [| by exists []].
  intros m a H1 H2 H3. unfold module_attribute. simpl.
  destruct (decide (m = object_name obj)) as [-> | Hm].
  - rewrite lookup_insert_eq. simpl.
    rewrite lookup_insert_ne by (destruct Hattr as [-> | [-> | ->]]; congruence).
    destruct (sys_modules st !! object_name obj); reflexivity.
  - rewrite lookup_insert_ne by congruence. reflexivity.
Qed.

Lemma assign_backend_frame backend :
  preserves (frame backend) (assign_backend backend).
Proof. intros st. simpl. repeat split; auto. by exists []. Qed.

Lemma enable_x64_quiet env backend : preserves quiet (enable_x64 env backend).
Proof.
  unfold enable_x64. destruct (bool_decide (backend = "jax")).
  - apply (preserves_bind quiet quiet_trans); [apply from_import_quiet |].
    intros _ st. by split.
  - intros st. apply quiet_refl.
Qed.

Lemma enable_x64_frame env backend :
  preserves (frame backend) (enable_x64 env backend).
Proof.
  unfold enable_x64. destruct (bool_decide_reflect (backend = "jax")) as [-> | Hne].
  - apply (preserves_bind _ (frame_trans "jax")); [apply from_import_frame |].
    intros _ st. simpl. repeat split; auto; [done | by exists []].
  - intros st. apply frame_refl.
Qed.

Lemma import_backend_quiet env backend :
  preserves quiet (import_backend env backend).
Proof.
  unfold import_backend.
  apply (preserves_try_except quiet quiet_trans).
  - apply (preserves_bind quiet quiet_trans);
      [apply (preserves_getitem quiet quiet_refl) | intros np_name].
    apply (preserves_bind quiet quiet_trans);
      [apply import_module_quiet | intros xp].
    apply (preserves_bind quiet quiet_trans);
      [apply (preserves_getitem quiet quiet_refl) | intros scipy_name].
    apply (preserves_bind quiet quiet_trans);
      [apply import_module_quiet | intros scipy].
    apply (preserves_ret quiet quiet_refl).
  - intros e. destruct e; intros st; apply quiet_refl.
Qed.

Lemma import_backend_flag_log env backend st :
  let st' := fst (import_backend env backend st) in
  jax_enable_x64 st' = jax_enable_x64 st
  ∧ ∃ new, import_log st' = new ++ import_log st.
Proof.
  unfold import_backend, try_except, bind, getitem, lift, lookup_key.
  destruct (_np_module !! backend) as [np_name |]; [| simpl; split; [done | by exists []]].
  destruct (import_module_state env np_name st) as (_ & Hf1 & Hl1).
  destruct (import_module env np_name st) as [s1 [o1 | e1]]; simpl in *.
  - destruct (_scipy_module !! backend) as [scipy_name |];
      [| simpl; split; [done | by exists [np_name]]].
    destruct (import_module_state env scipy_name s1) as (_ & Hf2 & Hl2).
    destruct (import_module env scipy_name s1) as [s2 [o2 | e2]]; simpl in *.
    + split; [congruence |]. exists [scipy_name; np_name]. by rewrite Hl2, Hl1.
    + assert (jax_enable_x64 s2 = jax_enable_x64 st
              ∧ ∃ new, import_log s2 = new ++ import_log st) as Hgoal.
      { split; [congruence |]. exists [scipy_name; np_name]. by rewrite Hl2, Hl1. }
      destruct e2; exact Hgoal.
  - assert (jax_enable_x64 s1 = jax_enable_x64 st
            ∧ ∃ new, import_log s1 = new ++ import_log st) as Hgoal.
    { split; [congruence |]. by exists [np_name]. }
    destruct e1; exact Hgoal.
Qed.

Lemma import_backend_frame backend' env backend :
  preserves (frame backend') (import_backend env backend).
Proof.
  intros st. destruct (import_backend_flag_log env backend st) as [Hf Hl].
  apply quiet_frame; [apply import_backend_quiet | exact Hf | exact Hl].
Qed.

Lemma alias_trapz_frame backend' env backend xp :
  preserves (frame backend') (alias_trapz env backend xp).
Proof.
  unfold alias_trapz. destruct (bool_decide (backend = "jax")).
  - apply (preserves_try_except _ (frame_trans backend')).
    + apply (preserves_bind _ (frame_trans backend')); [apply from_import_frame |].
      intros t. apply setattr_frame. auto.
    + intros e. destruct e; intros st; apply frame_refl.
  - intros st. apply frame_refl.
Qed.

Lemma rebind_xp_frame env backend xp :
  preserves (frame backend) (rebind_xp env backend xp).
Proof.
  unfold rebind_xp. apply (preserves_for_each _ (frame_refl backend) (frame_trans backend)).
  intros module.
  apply (preserves_bind _ (frame_trans backend)); [apply assign_backend_frame |].
  intros _.
  apply (preserves_bind _ (frame_trans backend)); [apply import_module_frame |].
  intros m. apply setattr_frame. auto.
Qed.

Lemma rebind_scs_frame backend env scs :
  preserves (frame backend) (rebind_scs env scs).
Proof.
  unfold rebind_scs. apply (preserves_for_each _ (frame_refl backend) (frame_trans backend)).
  intros module.
  apply (preserves_bind _ (frame_trans backend)); [apply import_module_frame |].
  intros m. apply setattr_frame. auto.
Qed.

(** What follows the precision switch in [set_backend]. *)
Lemma set_backend_tail_frame env backend :
  preserves (frame backend)
    (bound <~ import_backend env backend ;;
     let '(xp, scs) := bound in
     alias_trapz env backend xp ;;;
     rebind_xp env backend xp ;;;
     rebind_scs env scs).
Proof.
  apply (preserves_bind _ (frame_trans backend)); [apply import_backend_frame |].
  intros [xp scs].
  apply (preserves_bind _ (frame_trans backend)); [apply alias_trapz_frame |].
  intros _.
  apply (preserves_bind _ (frame_trans backend)); [apply rebind_xp_frame |].
  intros _. apply rebind_scs_frame.
Qed.

Lemma set_backend_preserves_frame env backend :
  preserves (frame backend) (set_backend env backend).
Proof.
  intros st. unfold set_backend.
  destruct (bool_decide (backend ∈ SUPPORTED_BACKENDS)); simpl negb; cbv iota;
    [| apply frame_refl].
  destruct (bool_decide (backend = __backend__ st)); [apply frame_refl |].
  revert st.
  apply (preserves_bind _ (frame_trans backend)); [apply enable_x64_frame |].
  intros _. apply set_backend_tail_frame.
Qed.

End BackendFrame.

Section BackendFurther.
Local Close Scope R_scope.

Lemma enable_x64_jax env st :
  env "jax" = Importable →
  ∃ s0, enable_x64 env "jax" st = (s0, Ok tt) ∧ jax_enable_x64 s0 = true.
Proof.
  intros Hjax. unfold enable_x64, from_import, import_module.
  rewrite bool_decide_true by reflexivity.
  change (dotted_prefixes "jax") with ["jax"]. cbn [first_import_failure].
  rewrite Hjax. eexists. split; reflexivity.
Qed.

(** X1.  Whatever its outcome, [set_backend] leaves every module
    attribute that is not named [xp], [scs] or [trapz] as it found it,
    only adds to the imports performed, and leaves [__backend__] at its
    old value or at the requested name. *)
Theorem set_backend_touches_only_xp_scs_trapz
    (env : environment) (backend : string) (st : interp_state)
    (m a : string) :
  a ≠ "xp" → a ≠ "scs" → a ≠ "trapz" →
  let st' := fst (set_backend env backend st) in
  module_attribute st' m a = module_attribute st m a
  ∧ (∃ new, import_log st' = new ++ import_log st)
  ∧ (__backend__ st' = __backend__ st ∨ __backend__ st' = backend).
Proof.
  intros H1 H2 H3 st'.
  destruct (set_backend_preserves_frame env backend st)
    as (Hattr & _ & _ & Hlog & Hb).
  split; [by apply Hattr | by split].
Qed.

Lemma set_backend_touches_only_xp_scs_trapz_witness :
  let st' := fst (set_backend env_all "cupy" state_with_utils) in
  module_attribute st' "gwpopulation.utils" "powerlaw"
  = Some (PyAttr "gwpopulation.utils" "powerlaw")
  ∧ module_attribute st' "gwpopulation.utils" "xp" = Some (PyModule "cupy").
Proof.
  intros st'. split.
  - unfold st'.
    rewrite (proj1 (set_backend_touches_only_xp_scs_trapz env_all "cupy"
                      state_with_utils "gwpopulation.utils" "powerlaw"
                      ltac:(discriminate) ltac:(discriminate) ltac:(discriminate))).
    reflexivity.
  - vm_compute. reflexivity.
Defined.

(** X2.  The 64-bit flag of jax is never cleared by [set_backend] and is
    not touched for numpy and cupy; for jax it is raised as soon as
    [jax] itself can be imported, ahead of the import of the array
    module, so it is up also when the switch then fails. *)
Theorem set_backend_x64_flag
    (env : environment) (backend : string) (st : interp_state) :
  let st' := fst (set_backend env backend st) in
  (jax_enable_x64 st = true → jax_enable_x64 st' = true)
  ∧ (backend ≠ "jax" → jax_enable_x64 st' = jax_enable_x64 st)
  ∧ (backend = "jax" → "jax" ≠ __backend__ st → env "jax" = Importable →
     jax_enable_x64 st' = true).
Proof.
  intros st'.
  destruct (set_backend_preserves_frame env backend st)
    as (_ & Hup & Hsame & _).
  split; [exact Hup |]. split; [exact Hsame |].
  intros -> Hact Hjax. unfold st', set_backend.
  rewrite bool_decide_true by in_literal_list SUPPORTED_BACKENDS.
  rewrite (bool_decide_false _ Hact). simpl negb. cbv iota.
  unfold bind at 1.
  destruct (enable_x64_jax env st Hjax) as (s0 & -> & Hs0).
  destruct (set_backend_tail_frame env "jax" s0) as (_ & Hup' & _).
  by apply Hup'.
Qed.

Lemma set_backend_x64_flag_witness :
  ∃ e, set_backend env_no_jax_numpy "jax" initial_state
       = (fst (set_backend env_no_jax_numpy "jax" initial_state), Raise e)
       ∧ jax_enable_x64 initial_state = false
       ∧ jax_enable_x64 (fst (set_backend env_no_jax_numpy "jax" initial_state))
         = true.
Proof.
  eexists. split; [vm_compute; reflexivity |]. split; [reflexivity |].
  apply (set_backend_x64_flag env_no_jax_numpy "jax" initial_state);
    [reflexivity | discriminate | reflexivity].
Defined.

(** *** Failures of the backend's own imports *)

Lemma import_module_succeeds env name st :
  first_import_failure env (dotted_prefixes name) = None →
  ∃ s, import_module env name st = (s, Ok (PyModule name)).
Proof.
  intros H. unfold import_module, bind, log_import. simpl. rewrite H.
  eexists. reflexivity.
Qed.

Lemma import_module_raises env name e st :
  first_import_failure env (dotted_prefixes name) = Some e →
  ∃ s, import_module env name st = (s, Raise e).
Proof.
  intros H. unfold import_module, bind, log_import. simpl. rewrite H.
  eexists. reflexivity.
Qed.

Lemma import_backend_succeeds env backend np_name scipy_name st :
  _np_module !! backend = Some np_name →
  _scipy_module !! backend = Some scipy_name →
  first_import_failure env (dotted_prefixes np_name) = None →
  first_import_failure env (dotted_prefixes scipy_name) = None →
  ∃ s, import_backend env backend st
       = (s, Ok (PyModule np_name, PyAttr scipy_name "special")).
Proof.
  intros Hnp Hsc H1 H2.
  unfold import_backend, try_except, bind, getitem, lift, lookup_key.
  rewrite Hnp. destruct (import_module_succeeds env np_name st H1) as [s1 ->].
  rewrite Hsc. destruct (import_module_succeeds env scipy_name s1 H2) as [s2 ->].
  by exists s2.
Qed.

(** The exception [set_backend] raises in place of an import failure. *)
Lemma import_backend_scipy_fails env backend np_name scipy_name e st :
  _np_module !! backend = Some np_name →
  _scipy_module !! backend = Some scipy_name →
  first_import_failure env (dotted_prefixes np_name) = None →
  first_import_failure env (dotted_prefixes scipy_name) = Some e →
  snd (import_backend env backend st)
  = Raise (match e with
           | ModuleNotFoundError _ =>
               ModuleNotFoundError (backend +:+ " not installed")
           | ImportError _ =>
               ImportError (backend +:+ " installed but not importable")
           | _ => e
           end).
Proof.
  intros Hnp Hsc H1 H2.
  unfold import_backend, try_except, bind, getitem, lift, lookup_key.
  rewrite Hnp. destruct (import_module_succeeds env np_name st H1) as [s1 ->].
  rewrite Hsc. destruct (import_module_raises env scipy_name e s1 H2) as [s2 ->].
  by destruct e.
Qed.

Lemma import_backend_np_fails env backend np_name e st :
  _np_module !! backend = Some np_name →
  first_import_failure env (dotted_prefixes np_name) = Some e →
  ∃ e', snd (import_backend env backend st) = Raise e'.
Proof.
  intros Hnp H1.
  unfold import_backend, try_except, bind, getitem, lift, lookup_key.
  rewrite Hnp. destruct (import_module_raises env np_name e st H1) as [s1 ->].
  destruct e; eexists; reflexivity.
Qed.

Lemma set_backend_quiet_on_import_failure env backend st :
  backend ∈ SUPPORTED_BACKENDS →
  backend ≠ __backend__ st →
  (∀ s, ∃ e, snd (import_backend env backend s) = Raise e) →
  quiet st (fst (set_backend env backend st)).
Proof.
  intros Hsup Hact Hfail. unfold set_backend.
  rewrite (bool_decide_true _ Hsup), (bool_decide_false _ Hact). simpl negb.
  cbv iota. unfold bind at 1.
  pose proof (enable_x64_quiet env backend st) as H0.
  destruct (enable_x64 env backend st) as [s0 [[] | e0]]; simpl in H0;
    [| exact H0].
  unfold bind at 1.
  pose proof (import_backend_quiet env backend s0) as H1.
  destruct (Hfail s0) as [e He].
  destruct (import_backend env backend s0) as [s1 r]. simpl in *. subst r.
  exact (quiet_trans _ _ _ H0 H1).
Qed.

(** X3.  When the import of the backend's array module fails,
    [set_backend] leaves [__backend__] and every attribute of every
    module as they were: the old backend stays in force. *)
Theorem set_backend_failed_import_keeps_bindings
    (env : environment) (backend np_name : string) (st : interp_state)
    (e : exception) :
  backend ∈ SUPPORTED_BACKENDS →
  backend ≠ __backend__ st →
  _np_module !! backend = Some np_name →
  first_import_failure env (dotted_prefixes np_name) = Some e →
  let st' := fst (set_backend env backend st) in
  __backend__ st' = __backend__ st
  ∧ ∀ m a, module_attribute st' m a = module_attribute st m a.
Proof.
  intros Hsup Hact Hnp Hfail.
  apply (set_backend_quiet_on_import_failure env backend st Hsup Hact).
  intros s. exact (import_backend_np_fails env backend np_name e s Hnp Hfail).
Qed.

Lemma set_backend_failed_import_keeps_bindings_witness :
  let st1 := fst (set_backend env_no_cupy "numpy" initial_state) in
  let st2 := fst (set_backend env_no_cupy "cupy" st1) in
  __backend__ st2 = "numpy" ∧ redshift_xp st2 = Some "numpy".
Proof.
  intros st1 st2.
  assert (Hsup : "cupy" ∈ SUPPORTED_BACKENDS) by in_literal_list SUPPORTED_BACKENDS.
  assert (Hact : "cupy" ≠ __backend__ st1) by (vm_compute; discriminate).
  assert (Hnp : _np_module !! "cupy" = Some "cupy") by reflexivity.
  assert (Hfail : first_import_failure env_no_cupy (dotted_prefixes "cupy")
                  = Some (ModuleNotFoundError "No module named 'cupy'"))
    by reflexivity.
  destruct (set_backend_failed_import_keeps_bindings env_no_cupy "cupy" "cupy"
              st1 _ Hsup Hact Hnp Hfail) as [Hb Hattr].
  split.
  - unfold st2. rewrite Hb. vm_compute. reflexivity.
  - unfold st2, redshift_xp. rewrite Hattr. vm_compute. reflexivity.
Defined.

(** X4.  When the array module imports and the scipy module of the
    backend does not, the exception names the backend, not scipy:
    [<backend> not installed] for a missing scipy module,
    [<backend> installed but not importable] for a damaged one; the
    bindings stay as they were. *)
Theorem set_backend_scipy_failure_names_backend
    (env : environment) (backend np_name scipy_name : string)
    (st : interp_state) (e : exception) :
  backend ∈ SUPPORTED_BACKENDS →
  backend ≠ __backend__ st →
  _np_module !! backend = Some np_name →
  _scipy_module !! backend = Some scipy_name →
  first_import_failure env (dotted_prefixes np_name) = None →
  first_import_failure env (dotted_prefixes scipy_name) = Some e →
  snd (set_backend env backend st)
  = Raise (match e with
           | ModuleNotFoundError _ =>
               ModuleNotFoundError (backend +:+ " not installed")
           | ImportError _ =>
               ImportError (backend +:+ " installed but not importable")
           | _ => e
           end)
  ∧ quiet st (fst (set_backend env backend st)).
Proof.
  intros Hsup Hact Hnp Hsc H1 H2. split.
  - assert (Hx64 : ∃ s0, enable_x64 env backend st = (s0, Ok tt)).
    { unfold enable_x64.
      destruct (bool_decide_reflect (backend = "jax")) as [-> | Hne];
        [| by eexists].
      assert (np_name = "jax.numpy") as ->
        by (vm_compute in Hnp; by injection Hnp).
      change (dotted_prefixes "jax.numpy") with ["jax"; "jax.numpy"] in H1.
      cbn [first_import_failure] in H1.
      destruct (env "jax") eqn:Hjax; try discriminate H1.
      destruct (enable_x64_jax env st Hjax) as (s0 & Hs0 & _).
      unfold enable_x64 in Hs0. rewrite bool_decide_true in Hs0 by reflexivity.
      by exists s0. }
    destruct Hx64 as [s0 Hs0].
    unfold set_backend.
    rewrite (bool_decide_true _ Hsup), (bool_decide_false _ Hact). simpl negb.
    cbv iota. unfold bind at 1. rewrite Hs0. unfold bind at 1.
    pose proof (import_backend_scipy_fails env backend np_name scipy_name e s0
                  Hnp Hsc H1 H2) as Hfail.
    destruct (import_backend env backend s0) as [s1 r]. simpl in Hfail.
    by subst r.
  - apply (set_backend_quiet_on_import_failure env backend st Hsup Hact).
    intros s. eexists.
    exact (import_backend_scipy_fails env backend np_name scipy_name e s
             Hnp Hsc H1 H2).
Qed.

Lemma set_backend_scipy_failure_names_backend_witness :
  snd (set_backend env_no_scipy "numpy" initial_state)
  = Raise (ModuleNotFoundError "numpy not installed").
Proof.
  assert (Hsup : "numpy" ∈ SUPPORTED_BACKENDS) by in_literal_list SUPPORTED_BACKENDS.
  assert (Hact : "numpy" ≠ __backend__ initial_state) by discriminate.
  exact (proj1 (set_backend_scipy_failure_names_backend env_no_scipy
                  "numpy" "numpy" "scipy" initial_state
                  (ModuleNotFoundError "No module named 'scipy'")
                  Hsup Hact eq_refl eq_refl eq_refl eq_refl)).
Defined.

(** *** Where [__backend__] is assigned *)

Lemma keeps_backend_refl b st : keeps_backend b st st.
Proof. by intros H. Qed.

Lemma keeps_backend_trans b x y z :
  keeps_backend b x y → keeps_backend b y z → keeps_backend b x z.
Proof. unfold keeps_backend. auto. Qed.

Lemma import_module_keeps_backend b env name :
  preserves (keeps_backend b) (import_module env name).
Proof.
  intros st H. destruct (import_module_state env name st) as ([Hb _] & _).
  congruence.
Qed.

Lemma setattr_keeps_backend b obj attr value :
  preserves (keeps_backend b) (setattr obj attr value).
Proof. by intros st H. Qed.

Lemma rebind_scs_keeps_backend b env scs :
  preserves (keeps_backend b) (rebind_scs env scs).
Proof.
  unfold rebind_scs.
  apply (preserves_for_each _ (keeps_backend_refl b) (keeps_backend_trans b)).
  intros module.
  apply (preserves_bind _ (keeps_backend_trans b));
    [apply import_module_keeps_backend | intros m; apply setattr_keeps_backend].
Qed.

Lemma rebind_step_keeps_backend env backend xp module :
  preserves (keeps_backend backend)
    (assign_backend backend ;;;
     m <~ import_module env ("gwpopulation." +:+ module) ;;
     setattr m "xp" xp).
Proof.
  apply (preserves_bind _ (keeps_backend_trans backend)); [by intros st H |].
  intros _.
  apply (preserves_bind _ (keeps_backend_trans backend));
    [apply import_module_keeps_backend | intros m; apply setattr_keeps_backend].
Qed.

(** The first loop assigns [__backend__] before its first import:
    however the two loops end, [__backend__] is the new name. *)
Lemma rebinding_assigns_backend env backend xp scs st :
  __backend__ (fst ((rebind_xp env backend xp ;;; rebind_scs env scs) st))
  = backend.
Proof.
  assert (Hfirst : ∀ s, __backend__
            (fst ((assign_backend backend ;;;
                   m <~ import_module env ("gwpopulation." +:+ "hyperpe") ;;
                   setattr m "xp" xp) s)) = backend).
  { intros s. unfold bind at 1. cbn [assign_backend].
    match goal with |- __backend__ (fst (?k ?s0)) = _ =>
      assert (Hk : keeps_backend backend s0 (fst (k s0))) end.
    { apply (preserves_bind _ (keeps_backend_trans backend));
        [apply import_module_keeps_backend
        | intros m; apply setattr_keeps_backend]. }
    by apply Hk. }
  assert (Hrest : preserves (keeps_backend backend)
            (for_each (tail __all_with_xp) (fun module =>
               assign_backend backend ;;;
               m <~ import_module env ("gwpopulation." +:+ module) ;;
               setattr m "xp" xp) ;;; rebind_scs env scs)).
  { apply (preserves_bind _ (keeps_backend_trans backend)).
    - apply (preserves_for_each _ (keeps_backend_refl backend)
               (keeps_backend_trans backend)).
      intros module. apply rebind_step_keeps_backend.
    - intros _. apply rebind_scs_keeps_backend. }
  unfold rebind_xp, __all_with_xp. cbn [for_each].
  unfold bind at 1. unfold bind at 1.
  specialize (Hfirst st).
  destruct ((assign_backend backend ;;;
             m <~ import_module env ("gwpopulation." +:+ "hyperpe") ;;
             setattr m "xp" xp) st) as [s1 [[] | e1]]; [| exact Hfirst].
  simpl in Hfirst.
  specialize (Hrest s1). unfold bind at 1 in Hrest. cbn [tail __all_with_xp] in Hrest.
  match goal with |- __backend__ (fst ?t) = _ =>
    match type of Hrest with keeps_backend _ _ (fst ?u) =>
      change t with u end end.
  by apply Hrest.
Qed.

Lemma set_backend_success env backend st st' :
  set_backend env backend st = (st', Ok tt) →
  backend ∈ SUPPORTED_BACKENDS ∧ __backend__ st' = backend.
Proof.
  unfold set_backend.
  destruct (bool_decide_reflect (backend ∈ SUPPORTED_BACKENDS)) as [Hsup | _];
    [| discriminate].
  simpl negb. cbv iota.
  destruct (bool_decide_reflect (backend = __backend__ st)) as [Heq | _].
  { intros [= <-]. by split. }
  unfold bind at 1.
  destruct (enable_x64 env backend st) as [s0 [[] | ?]]; [| discriminate].
  unfold bind at 1.
  destruct (import_backend env backend s0) as [s1 [[xp scs] | ?]]; [| discriminate].
  unfold bind at 1.
  destruct (alias_trapz env backend xp s1) as [s2 [[] | ?]]; [| discriminate].
  intros Hrun. split; [exact Hsup |].
  pose proof (rebinding_assigns_backend env backend xp scs s2) as Hb.
  by rewrite Hrun in Hb.
Qed.

(** X5.  A successful [set_backend] followed by the same call: the
    second call returns at once and changes nothing, not even the list
    of imports performed. *)
Theorem set_backend_twice
    (env : environment) (backend : string) (st st' : interp_state) :
  set_backend env backend st = (st', Ok tt) →
  set_backend env backend st' = (st', Ok tt).
Proof.
  intros Hrun. destruct (set_backend_success _ _ _ _ Hrun) as [Hsup Hb].
  unfold set_backend.
  rewrite (bool_decide_true _ Hsup). simpl negb. cbv iota.
  by rewrite bool_decide_true by done.
Qed.

Lemma set_backend_twice_witness :
  let st1 := fst (set_backend env_all "cupy" initial_state) in
  set_backend env_all "cupy" initial_state = (st1, Ok tt)
  ∧ set_backend env_all "cupy" st1 = (st1, Ok tt).
Proof.
  intros st1.
  assert (Hrun : set_backend env_all "cupy" initial_state = (st1, Ok tt))
    by (vm_compute; reflexivity).
  split; [exact Hrun |].
  exact (set_backend_twice env_all "cupy" initial_state st1 Hrun).
Defined.

(** X6.  [__backend__] is assigned inside the first loop, ahead of the
    import of the first dependent module.  So when numpy or cupy and
    its scipy module have been imported and [set_backend] then raises
    (a dependent module of the package cannot be imported),
    [__backend__] already is the new name, and the same call made again
    returns at once without rebinding anything. *)
Theorem set_backend_failure_while_rebinding
    (env : environment) (backend np_name scipy_name : string)
    (st st1 : interp_state) (e : exception) :
  backend ∈ SUPPORTED_BACKENDS →
  backend ≠ "jax" →
  backend ≠ __backend__ st →
  _np_module !! backend = Some np_name →
  _scipy_module !! backend = Some scipy_name →
  first_import_failure env (dotted_prefixes np_name) = None →
  first_import_failure env (dotted_prefixes scipy_name) = None →
  set_backend env backend st = (st1, Raise e) →
  __backend__ st1 = backend
  ∧ set_backend env backend st1 = (st1, Ok tt).
Proof.
  intros Hsup Hjax Hact Hnp Hsc H1 H2 Hrun.
  assert (Hb : __backend__ st1 = backend).
  { revert Hrun. unfold set_backend.
    rewrite (bool_decide_true _ Hsup), (bool_decide_false _ Hact). simpl negb.
    cbv iota. unfold bind at 1. unfold enable_x64.
    rewrite (bool_decide_false _ Hjax). unfold ret at 1.
    unfold bind at 1.
    destruct (import_backend_succeeds env backend np_name scipy_name st
                Hnp Hsc H1 H2) as [s1 ->].
    unfold bind at 1. unfold alias_trapz.
    rewrite (bool_decide_false _ Hjax). unfold ret at 1.
    intros Hrun.
    pose proof (rebinding_assigns_backend env backend (PyModule np_name)
                  (PyAttr scipy_name "special") s1) as Hb.
    by rewrite Hrun in Hb. }
  split; [exact Hb |].
  unfold set_backend.
  rewrite (bool_decide_true _ Hsup). simpl negb. cbv iota.
  by rewrite bool_decide_true by done.
Qed.

Lemma set_backend_failure_while_rebinding_witness :
  let st1 := fst (set_backend env_no_hyperpe "numpy" initial_state) in
  set_backend env_no_hyperpe "numpy" initial_state
  = (st1, Raise (ModuleNotFoundError "No module named 'gwpopulation.hyperpe'"))
  ∧ __backend__ st1 = "numpy"
  ∧ redshift_xp st1 = None
  ∧ set_backend env_no_hyperpe "numpy" st1 = (st1, Ok tt).
Proof.
  intros st1.
  assert (Hsup : "numpy" ∈ SUPPORTED_BACKENDS) by in_literal_list SUPPORTED_BACKENDS.
  assert (Hrun : set_backend env_no_hyperpe "numpy" initial_state
                 = (st1, Raise (ModuleNotFoundError
                                  "No module named 'gwpopulation.hyperpe'")))
    by (vm_compute; reflexivity).
  destruct (set_backend_failure_while_rebinding env_no_hyperpe "numpy"
              "numpy" "scipy" initial_state st1 _ Hsup
              ltac:(discriminate) ltac:(discriminate)
              eq_refl eq_refl eq_refl eq_refl Hrun) as [Hb Hagain].
  split; [exact Hrun |]. split; [exact Hb |].
  split; [vm_compute; reflexivity | exact Hagain].
Defined.

(** *** The integration routine of jax *)

Lemma rebinding_keeps_other_attributes env backend xp scs st st' m a :
  (rebind_xp env backend xp ;;; rebind_scs env scs) st = (st', Ok tt) →
  a ≠ "xp" → a ≠ "scs" →
  module_attribute st' m a = module_attribute st m a.
Proof.
  unfold bind at 1.
  destruct (rebind_xp env backend xp st) as [s3 [[] | ?]] eqn:Hxp; [| discriminate].
  rewrite rebind_scs_as_loop. intros Hscs Hne1 Hne2.
  pose proof (rebind_loop env _ _ _ _ _ _ (assign_backend_spec_attrs backend) Hxp)
    as [_ Hkeep1].
  assert (Hret : ∀ s : interp_state, ∃ s', @ret interp_state unit tt s = (s', Ok tt)
                   ∧ ∀ m a, module_attribute s' m a = module_attribute s m a)
    by (intros s; by exists s).
  pose proof (rebind_loop env _ _ _ _ _ _ Hret Hscs) as [_ Hkeep2].
  by rewrite Hkeep2, Hkeep1.
Qed.

(** X7.  After a successful switch to jax, the attribute [trapz] of
    [jax.numpy] is [jax.scipy.integrate.trapezoid] when that module can
    be imported, and is left as it was when the module is not installed;
    an [ImportError] of another kind from that import is not caught, so
    the switch cannot have succeeded. *)
Theorem set_backend_jax_trapz
    (env : environment) (st st' : interp_state) :
  "jax" ≠ __backend__ st →
  set_backend env "jax" st = (st', Ok tt) →
  match first_import_failure env (dotted_prefixes "jax.scipy.integrate") with
  | None =>
      module_attribute st' "jax.numpy" "trapz"
      = Some (PyAttr "jax.scipy.integrate" "trapezoid")
  | Some (ModuleNotFoundError _) =>
      module_attribute st' "jax.numpy" "trapz"
      = module_attribute st "jax.numpy" "trapz"
  | Some _ => False
  end.
Proof.
  intros Hact. unfold set_backend.
  rewrite bool_decide_true by in_literal_list SUPPORTED_BACKENDS.
  rewrite (bool_decide_false _ Hact). simpl negb. cbv iota.
  unfold bind at 1.
  pose proof (enable_x64_quiet env "jax" st) as [_ Hq0].
  destruct (enable_x64 env "jax" st) as [s0 [[] | ?]]; [| discriminate].
  unfold bind at 1.
  pose proof (import_backend_quiet env "jax" s0) as [_ Hq1].
  destruct (import_backend env "jax" s0) as [s1 [[xp scs] | ?]] eqn:Himp;
    [| discriminate].
  apply import_backend_Ok in Himp as (np_name & scipy_name & Hnp & _ & -> & ->).
  assert (np_name = "jax.numpy") as -> by (vm_compute in Hnp; by injection Hnp).
  simpl in Hq0, Hq1.
  unfold bind at 1. unfold alias_trapz.
  rewrite bool_decide_true by reflexivity.
  unfold try_except, from_import. unfold bind at 1. unfold bind at 1.
  destruct (first_import_failure env (dotted_prefixes "jax.scipy.integrate"))
    as [e |] eqn:Hchain.
  - destruct (import_module_raises env "jax.scipy.integrate" e s1 Hchain)
      as [s2 Hs2].
    pose proof (import_module_quiet env "jax.scipy.integrate" s1) as [_ Hq2].
    rewrite Hs2 in Hq2 |- *. simpl in Hq2.
    destruct e; try discriminate.
    unfold ret at 1. intros Hrun.
    rewrite (rebinding_keeps_other_attributes _ _ _ _ _ _ _ _ Hrun)
      by discriminate.
    by rewrite Hq2, Hq1, Hq0.
  - destruct (import_module_succeeds env "jax.scipy.integrate" s1 Hchain)
      as [s2 ->].
    unfold ret at 1.
    destruct (setattr_module "jax.numpy" "trapz"
                (PyAttr "jax.scipy.integrate" "trapezoid") s2)
      as (s3 & -> & _ & Hset & _).
    intros Hrun.
    rewrite (rebinding_keeps_other_attributes _ _ _ _ _ _ _ _ Hrun)
      by discriminate.
    exact Hset.
Qed.

Lemma set_backend_jax_trapz_witness :
  let with_integrate := fst (set_backend env_all "jax" initial_state) in
  let without := fst (set_backend env_no_integrate "jax" initial_state) in
  module_attribute with_integrate "jax.numpy" "trapz"
  = Some (PyAttr "jax.scipy.integrate" "trapezoid")
  ∧ set_backend env_no_integrate "jax" initial_state = (without, Ok tt)
  ∧ module_attribute without "jax.numpy" "trapz" = None.
Proof.
  intros with_integrate without.
  assert (Hact : "jax" ≠ __backend__ initial_state) by discriminate.
  assert (H1 : set_backend env_all "jax" initial_state = (with_integrate, Ok tt))
    by (vm_compute; reflexivity).
  assert (H2 : set_backend env_no_integrate "jax" initial_state
               = (without, Ok tt)) by (vm_compute; reflexivity).
  split; [exact (set_backend_jax_trapz env_all initial_state with_integrate
                   Hact H1) |].
  split; [exact H2 |].
  exact (set_backend_jax_trapz env_no_integrate initial_state without Hact H2).
Defined.

End BackendFurther.

(* ===================================================================== *)
(** * Further properties of models/redshift.py *)
(* ===================================================================== *)

Section InstanceState.

Lemma elementwise_shape f a b q :
  elementwise f a b = Ok q → shape q = shape b ∨ shape b = 1%nat.
Proof.
  unfold elementwise.
  destruct (Nat.eqb_spec (shape a) (shape b)) as [Heq | Hne].
  - intros [= <-]. left. unfold shape in *. simpl.
    rewrite length_zip_with. lia.
  - unfold shape.
    destruct (data a) as [| x [| x' l]], (data b) as [| y [| y' l']];
      intros [= <-]; simpl; auto; by rewrite length_map; auto.
Qed.

(** Once the slot has been refilled for the redshifts [z], the second
    multiplication goes through. *)
Lemma imul_after_refill f psi z q N m v :
  elementwise f psi (scalar_add 1 z) = Ok q →
  length v = shape z →
  ∃ r, imul (div_scalar q N) (Some {| array_module := m; data := v |}) = Ok r.
Proof.
  intros Hq Hv. apply elementwise_shape in Hq. rewrite shape_scalar_add in Hq.
  destruct (inplace_compatible Rmult (div_scalar q N)
              {| array_module := m; data := v |}) as (r & Hr & _).
  - unfold compatible. rewrite shape_div_scalar. unfold shape at 2 3. simpl.
    rewrite Hv. apply orb_true_iff.
    destruct Hq as [-> | ->]; [left | right]; apply Nat.eqb_refl.
  - by exists r.
Qed.

(** The two ways [probability] can leave the instance: as it was, or
    with the slot refilled for the redshifts of the dataset, in which
    case it has returned. *)
Lemma probability_outcome cls xp dataset parameters self :
  grid_ok self →
  let run := probability cls xp dataset parameters self in
  fst run = self
  ∨ ∃ z r, dataset !! "redshift" = Some z
           ∧ run = (set_cached_dvc_dz self
                      (Some {| array_module := xp; data := volume_at self z |}),
                    Ok r).
Proof.
  intros Hgrid. cbv zeta.
  unfold probability, bind, getitem, lift, lookup_key, try_except.
  destruct (dataset !! "redshift") as [z |] eqn:Hz; [| by left].
  destruct (call_psi_of_z cls self z parameters) as [psi |]; [| by left].
  rewrite normalisation_run.
  destruct (normalisation_of cls self parameters) as [N |]; [| by left].
  destruct (elementwise Rdiv psi (scalar_add 1 z)) as [q |] eqn:Hq; [| by left].
  destruct (imul (div_scalar q N) (cached_dvc_dz self)) as [r | e] eqn:Himul;
    [by left |].
  destruct (imul_after_refill Rdiv psi z q N xp (volume_at self z) Hq
              (length_volume_at self z)) as [r Hr].
  apply imul_raises in Himul as [[msg ->] | [msg ->]];
    right; exists z, r; (split; [reflexivity |]);
    (transitivity
       (match _cache_dvc_dz xp z self with
        | (self', Ok _) =>
            (self', imul (div_scalar q N) (cached_dvc_dz self'))
        | (self', Raise e) => (self', Raise e)
        end); [reflexivity |]);
    rewrite (_cache_dvc_dz_grid_ok xp z self Hgrid); simpl in Hr |- *;
    rewrite Hr; reflexivity.
Qed.

(** X8.  [probability] never writes to the grid: [z_max], both copies
    of the grid and both copies of the volume term are after the call
    what they were before, for every class, dataset and parameters.  A
    call that raises leaves the cache slot alone as well, so the
    instance is exactly as before. *)
Theorem probability_only_writes_the_cache
    (cls : redshift_class) (xp : string) (dataset : gmap string ndarray)
    (parameters : gmap string R) (self : _Redshift) :
  grid_ok self →
  let self' := fst (probability cls xp dataset parameters self) in
  z_max self' = z_max self
  ∧ zs_ self' = zs_ self ∧ zs self' = zs self
  ∧ dvc_dz_ self' = dvc_dz_ self ∧ dvc_dz self' = dvc_dz self
  ∧ grid_ok self'
  ∧ (∀ e, snd (probability cls xp dataset parameters self) = Raise e →
          self' = self).
Proof.
  intros Hgrid self'. unfold self'.
  destruct (probability_outcome cls xp dataset parameters self Hgrid)
    as [-> | (z & r & _ & ->)].
  - repeat split; try reflexivity; apply Hgrid.
  - cbn [fst snd].
    repeat split; try exact (proj2 Hgrid); try exact (proj1 Hgrid).
    intros e [=].
Qed.

Lemma probability_only_writes_the_cache_witness :
  let self' :=
    fst (probability PowerLawRedshift "numpy" (dataset_of [0; 1])
           flat_parameters fresh_instance) in
  zs_ self' = zs_ fresh_instance ∧ dvc_dz_ self' = dvc_dz_ fresh_instance
  ∧ fst (probability PowerLawRedshift "numpy" (dataset_of [0; 1]) ∅ fresh_instance)
    = fresh_instance.
Proof.
  intros self'.
  destruct (probability_only_writes_the_cache PowerLawRedshift "numpy"
              (dataset_of [0; 1]) flat_parameters fresh_instance fresh_grid_ok)
    as (_ & H1 & _ & H2 & _).
  split; [exact H1 |]. split; [exact H2 |].
  destruct (probability_only_writes_the_cache PowerLawRedshift "numpy"
              (dataset_of [0; 1]) ∅ fresh_instance fresh_grid_ok)
    as (_ & _ & _ & _ & _ & _ & H3).
  apply (H3 (KeyError "lamb")).
  unfold probability, bind, getitem, lift, lookup_key.
  rewrite lookup_dataset_of. reflexivity.
Defined.

End InstanceState.

(* ===================================================================== *)
(** * The grid of __init__ and the interpolation on it *)
(* ===================================================================== *)

Section GridAndInterpolation.

Lemma linspace_lookup start stop num i :
  (i < num)%nat →
  linspace start stop num !! i
  = Some (INR i * ((stop - start) / INR (num - 1)) + start).
Proof.
  intros Hi. unfold linspace.
  rewrite list_lookup_fmap, lookup_seq_lt by exact Hi. reflexivity.
Qed.

Lemma increasing_lookup_lt x0 l j x :
  increasing (x0 :: l) → l !! j = Some x → x0 < x.
Proof.
  revert x0 j. induction l as [| y l IH]; intros x0 j Hinc Hj; [done |].
  destruct Hinc as [Hlt Hinc]. destruct j as [| j]; simpl in Hj.
  - injection Hj as <-. exact Hlt.
  - specialize (IH y j Hinc Hj). lra.
Qed.

Lemma increasing_lookup_ge_hd x0 l j x :
  increasing (x0 :: l) → (x0 :: l) !! j = Some x → x0 <= x.
Proof.
  intros Hinc Hj. destruct j as [| j]; simpl in Hj.
  - injection Hj as <-. lra.
  - left. by apply (increasing_lookup_lt x0 l j).
Qed.

Lemma increasing_tail x0 l : increasing (x0 :: l) → increasing l.
Proof. destruct l; [done | by intros [_ H]]. Qed.

Lemma increasing_lookup_le_last l j x :
  increasing l → l !! j = Some x → x <= List.last l 0.
Proof.
  revert j. induction l as [| x0 l IH]; intros j Hinc Hj; [done |].
  destruct j as [| j]; simpl in Hj.
  - injection Hj as <-. by apply increasing_hd_le_last.
  - destruct l as [| x1 l]; [done |].
    change (List.last (x0 :: x1 :: l) 0) with (List.last (x1 :: l) 0).
    apply (IH j); [by apply (increasing_tail x0) | exact Hj].
Qed.

(** A strictly increasing list has its first entry below its second. *)
Lemma increasing_first_two l x y :
  increasing l → l !! 0%nat = Some x → l !! 1%nat = Some y → x < y.
Proof.
  destruct l as [| x0 l]; [done |]. intros Hinc [= <-] Hy.
  by apply (increasing_lookup_lt x0 l 0%nat).
Qed.

(** [np.interp] returns the tabulated value at a sample point. *)
Lemma interp_segment_at_sample xs fs j x f :
  increasing xs → length xs = length fs →
  xs !! j = Some x → fs !! j = Some f →
  interp_segment x xs fs = f.
Proof.
  revert fs j. induction xs as [| x0 xs IH]; intros fs j Hinc Hlen Hx Hf; [done |].
  destruct fs as [| f0 fs]; [done |].
  destruct xs as [| x1 xs].
  - destruct fs; [| discriminate]. destruct j; [| done].
    simpl in Hf |- *. by injection Hf.
  - destruct fs as [| f1 fs]; [discriminate |].
    rewrite interp_segment_step. destruct Hinc as [Hlt Hinc].
    destruct j as [| j].
    + simpl in Hx, Hf. injection Hx as <-. injection Hf as <-.
      destruct (Rlt_dec x0 x1); [| lra].
      by destruct (Req_dec_T x0 x0).
    + simpl in Hx, Hf.
      pose proof (increasing_lookup_ge_hd x1 xs j x Hinc Hx) as Hge.
      destruct (Rlt_dec x x1); [lra |].
      apply (IH (f1 :: fs) j); [exact Hinc | simpl in Hlen |- *; lia | done | done].
Qed.

Lemma interp1_at_sample xs fs j x f :
  increasing xs → length xs = length fs →
  xs !! j = Some x → fs !! j = Some f →
  interp1 xs fs x = f.
Proof.
  intros Hinc Hlen Hx Hf. unfold interp1.
  pose proof (increasing_lookup_le_last xs j x Hinc Hx) as Hlast.
  destruct (Rlt_dec (List.last xs 0) x); [lra |].
  destruct xs as [| x0 xs]; [done |].
  pose proof (increasing_lookup_ge_hd x0 xs j x Hinc Hx) as Hhd.
  simpl hd. destruct (Rlt_dec x x0); [lra |].
  by apply (interp_segment_at_sample _ _ j).
Qed.

(** On a segment the interpolated value lies between the end values. *)
Lemma segment_between lo hi x0 x1 f0 f1 x :
  x0 <= x → x < x1 → lo <= f0 <= hi → lo <= f1 <= hi →
  lo <= (f1 - f0) / (x1 - x0) * (x - x0) + f0 <= hi.
Proof.
  intros H0 H1 Hf0 Hf1.
  assert (Hd : 0 < x1 - x0) by lra.
  set (t := (x - x0) / (x1 - x0)).
  assert (Ht0 : 0 <= t).
  { unfold t. apply Rmult_le_pos; [lra |]. left. by apply Rinv_0_lt_compat. }
  assert (Ht1 : t <= 1).
  { unfold t. apply (Rmult_le_reg_r (x1 - x0)); [exact Hd |].
    replace ((x - x0) / (x1 - x0) * (x1 - x0)) with (x - x0) by (field; lra).
    lra. }
  replace ((f1 - f0) / (x1 - x0) * (x - x0) + f0) with ((f1 - f0) * t + f0)
    by (unfold t; field; lra).
  split; nra.
Qed.

Lemma interp_segment_between lo hi x xs fs :
  increasing xs → length xs = length fs → xs ≠ [] →
  match xs with [] => True | x0 :: _ => x0 <= x end →
  Forall (fun v => lo <= v <= hi) fs →
  lo <= interp_segment x xs fs <= hi.
Proof.
  revert fs. induction xs as [| x0 xs IH]; intros fs Hinc Hlen Hne Hx Hfs; [done |].
  destruct fs as [| f0 fs]; [discriminate |].
  inversion Hfs as [| ? ? Hf0 Hfs']; subst.
  destruct xs as [| x1 xs]; [exact Hf0 |].
  destruct fs as [| f1 fs]; [discriminate |].
  destruct Hinc as [Hlt Hinc].
  inversion Hfs' as [| ? ? Hf1 _]; subst.
  rewrite interp_segment_step.
  destruct (Rlt_dec x x1) as [Hx1 | Hx1].
  - destruct (Req_dec_T x0 x); [exact Hf0 |].
    by apply segment_between.
  - apply (IH (f1 :: fs) Hinc); [simpl in Hlen |- *; lia | done | lra | exact Hfs'].
Qed.

Lemma last_between lo hi (fs : list R) :
  fs ≠ [] → Forall (fun v => lo <= v <= hi) fs → lo <= List.last fs 0 <= hi.
Proof.
  induction fs as [| f fs IH]; intros Hne H; [done |].
  inversion H as [| ? ? Hf Hfs]; subst.
  destruct fs as [| g fs]; [exact Hf | by apply IH].
Qed.

(** [np.interp] never leaves the range of the tabulated values. *)
Lemma interp1_between lo hi xs fs x :
  increasing xs → length xs = length fs → xs ≠ [] →
  Forall (fun v => lo <= v <= hi) fs →
  lo <= interp1 xs fs x <= hi.
Proof.
  intros Hinc Hlen Hne Hfs. unfold interp1.
  assert (Hfne : fs ≠ []).
  { destruct xs; [done |]. destruct fs; [discriminate | done]. }
  destruct (Rlt_dec (List.last xs 0) x); [by apply last_between |].
  destruct (Rlt_dec x (hd 0 xs)) as [| Hhd].
  - destruct fs as [| f0 fs]; [done |]. inversion Hfs; subst. done.
  - apply interp_segment_between; try done.
    destruct xs; [done | simpl in Hhd; lra].
Qed.

Lemma INR_999 : INR (1000 - 1) = 999.
Proof.
  change (1000 - 1)%nat with 999%nat. rewrite INR_IZR_INZ.
  change (Z.of_nat 999) with 999%Z. reflexivity.
Qed.

(** X9.  The grid that [__init__] builds has 1000 points, the first at
    0.001 and the last at [z_max], the volume term is tabulated as
    [cosmology z * 4 * pi] at each of them, the second copies hold the
    same values under the array module active at construction, and the
    grid is strictly increasing (what [np.interp] asks of its sample
    points) exactly when [z_max] is above 0.001. *)
Theorem init_grid (cosmology : R → R) (xp : string) (zmax : R) :
  let self := __init__ cosmology xp zmax in
  (∀ i, (i < 1000)%nat →
     data (zs_ self) !! i = Some (1 / 1000 + INR i * ((zmax - 1 / 1000) / 999))
     ∧ data (dvc_dz_ self) !! i
       = Some (cosmology (1 / 1000 + INR i * ((zmax - 1 / 1000) / 999)) * 4 * PI))
  ∧ shape (zs_ self) = 1000%nat ∧ shape (dvc_dz_ self) = 1000%nat
  ∧ hd 0 (data (zs_ self)) = 1 / 1000
  ∧ List.last (data (zs_ self)) 0 = zmax
  ∧ data (zs self) = data (zs_ self) ∧ array_module (zs self) = xp
  ∧ data (dvc_dz self) = data (dvc_dz_ self) ∧ array_module (dvc_dz self) = xp
  ∧ cached_dvc_dz self = None
  ∧ (increasing (data (zs_ self)) ↔ 1 / 1000 < zmax).
Proof.
  intros self.
  assert (Hpoint : ∀ i, (i < 1000)%nat →
    linspace (1 / 1000) zmax 1000 !! i
    = Some (1 / 1000 + INR i * ((zmax - 1 / 1000) / 999))).
  { intros i Hi. rewrite (linspace_lookup _ _ _ _ Hi), INR_999.
    f_equal. lra. }
  change (data (zs_ self)) with (linspace (1 / 1000) zmax 1000).
  change (data (dvc_dz_ self))
    with (map (fun z => cosmology z * 4 * PI) (linspace (1 / 1000) zmax 1000)).
  split.
  { intros i Hi. split; [by apply Hpoint |].
    by rewrite list_lookup_fmap, (Hpoint i Hi). }
  split; [apply length_linspace |].
  split.
  { change (shape (dvc_dz_ self))
      with (length (map (fun z => cosmology z * 4 * PI)
                      (linspace (1 / 1000) zmax 1000))).
    rewrite length_map. apply length_linspace. }
  split; [apply hd_linspace; lia |].
  split; [apply last_linspace; lia |].
  do 5 (split; [reflexivity |]).
  split.
  - intros Hinc.
    pose proof (increasing_first_two _ _ _ Hinc
                  (Hpoint 0%nat ltac:(lia)) (Hpoint 1%nat ltac:(lia))) as Hlt.
    change (INR 0) with 0 in Hlt. change (INR 1) with 1 in Hlt. lra.
  - intros Hlt. apply linspace_increasing; [exact Hlt | lia].
Qed.

(** X10.  What [_cache_dvc_dz] stores on an instance with
    [z_max > 0.001]: an array of the active array module with one entry
    per redshift, each entry within the range of the tabulated volume
    term; for a redshift at or below 0.001 (zero and negative redshifts
    included) the first tabulated value, for a redshift at or above
    [z_max] the last one, and at a redshift of the grid the tabulated
    value itself. *)
Theorem cache_dvc_dz_values (cosmology : R → R) (zmax : R) (self : _Redshift)
    (xp : string) (z : ndarray) :
  constructed cosmology zmax self →
  1 / 1000 < zmax →
  ∃ c, _cache_dvc_dz xp z self = (set_cached_dvc_dz self (Some c), Ok tt)
       ∧ array_module c = xp ∧ shape c = shape z
       ∧ ∀ i zi, data z !! i = Some zi →
           ∃ v, data c !! i = Some v
                ∧ (zi <= 1 / 1000 → v = cosmology (1 / 1000) * 4 * PI)
                ∧ (zmax <= zi → v = cosmology zmax * 4 * PI)
                ∧ (zi ∈ data (zs_ self) → v = cosmology zi * 4 * PI)
                ∧ (∀ lo hi,
                     (∀ g, 1 / 1000 <= g <= zmax →
                           lo <= cosmology g * 4 * PI <= hi) →
                     lo <= v <= hi).
Proof.
  intros Hself Hzmax.
  exists {| array_module := xp; data := volume_at self z |}.
  split; [apply _cache_dvc_dz_grid_ok; by eapply constructed_grid_ok |].
  split; [reflexivity |].
  split; [apply length_volume_at |].
  intros i zi Hzi.
  exists (interp1 (data (zs_ self)) (data (dvc_dz_ self)) zi).
  split; [cbn [data]; unfold volume_at; by rewrite list_lookup_fmap, Hzi |].
  split; [by apply (volume_left cosmology zmax self Hself Hzmax) |].
  split; [by apply (volume_right cosmology zmax self Hself Hzmax) |].
  pose proof (constructed_increasing cosmology zmax self Hself Hzmax) as Hinc.
  destruct (constructed_fields cosmology zmax self Hself)
    as (_ & Hzs & _ & Hdvc & _).
  assert (Hlen : length (data (zs_ self)) = length (data (dvc_dz_ self))).
  { by rewrite Hzs, Hdvc, length_map. }
  split.
  - intros Hin. apply list_elem_of_lookup in Hin as [j Hj].
    apply (interp1_at_sample _ _ j); [exact Hinc | exact Hlen | exact Hj |].
    rewrite Hdvc, list_lookup_fmap. rewrite Hzs in Hj. by rewrite Hj.
  - intros lo hi Hrange. apply interp1_between; [exact Hinc | exact Hlen | |].
    + rewrite Hzs. intros Hnil.
      pose proof (length_linspace (1 / 1000) zmax 1000) as Hl.
      rewrite Hnil in Hl. discriminate.
    + rewrite Hdvc. apply Forall_map.
      eapply Forall_impl; [apply linspace_bounds; [lra | lia] |].
      intros g Hg. by apply Hrange.
Qed.

Lemma cache_dvc_dz_values_witness :
  ∃ c, _cache_dvc_dz "numpy" (array_of [0; 2]) fresh_instance
       = (set_cached_dvc_dz fresh_instance (Some c), Ok tt)
       ∧ array_module c = "numpy" ∧ shape c = 2%nat.
Proof.
  destruct (cache_dvc_dz_values euclidean_volume 1 fresh_instance "numpy"
              (array_of [0; 2]) fresh_instance_constructed ltac:(lra))
    as (c & Hrun & Hm & Hshape & _).
  exists c. split; [exact Hrun |]. split; [exact Hm | exact Hshape].
Defined.

End GridAndInterpolation.

(* ===================================================================== *)
(** * The normalisation as an integral over the grid *)
(* ===================================================================== *)

Section NormalisationOverGrid.

(** Interpolating a table at its own sample points gives the table. *)
Lemma interp1_samples xs fs :
  increasing xs → length xs = length fs → map (interp1 xs fs) xs = fs.
Proof.
  intros Hinc Hlen. apply list_eq. intros i. rewrite list_lookup_fmap.
  destruct (xs !! i) as [x |] eqn:Hx.
  - assert (Hi : (i < length fs)%nat)
      by (rewrite <- Hlen; by eapply lookup_lt_Some).
    apply lookup_lt_is_Some_2 in Hi as [f Hf].
    rewrite Hf. simpl. f_equal. by apply (interp1_at_sample _ _ i).
  - apply lookup_ge_None_1 in Hx. symmetry. apply lookup_ge_None_2. lia.
Qed.

Lemma density_as_scaled_integrand N (psi g dvc : list R) :
  zip_with Rmult (map (fun x => x / N) (zip_with Rdiv psi g)) dvc
  = map (Rmult (/ N)) (zip_with Rdiv (zip_with Rmult psi dvc) g).
Proof.
  revert g dvc. induction psi as [| p psi IH]; intros g dvc; [done |].
  destruct g as [| a g], dvc as [| d dvc]; try done.
  simpl. rewrite IH. f_equal. unfold Rdiv. ring.
Qed.

Lemma trapz_list_flat_grid y x a :
  Forall (fun v => v = a) x → trapz_list y x = 0.
Proof.
  revert x. induction y as [| y0 y IH]; intros x Hx; [by destruct x |].
  destruct x as [| x0 x]; [done |].
  destruct y as [| y1 y]; [done |]. destruct x as [| x1 x]; [done |].
  apply Forall_cons in Hx as [H0 Hx'].
  pose proof (IH (x1 :: x) Hx') as Hrest.
  apply Forall_cons in Hx' as [H1 _].
  change (trapz_list (y0 :: y1 :: y) (x0 :: x1 :: x))
    with ((x1 - x0) * (y1 + y0) / 2 + trapz_list (y1 :: y) (x1 :: x)).
  rewrite Hrest, H0, H1. lra.
Qed.

Lemma trapz_list_opp y x :
  trapz_list y (map Ropp x) = - trapz_list y x.
Proof.
  revert x. induction y as [| y0 y IH]; intros [| x0 x]; simpl; try lra.
  destruct y as [| y1 y], x as [| x1 x]; simpl; try lra.
  specialize (IH (x1 :: x)). simpl in IH. rewrite IH. lra.
Qed.

Lemma linspace_opp start stop num :
  map Ropp (linspace start stop num) = linspace (- start) (- stop) num.
Proof.
  unfold linspace. rewrite map_map. apply map_ext. intros i.
  unfold Rdiv. ring.
Qed.

Lemma linspace_flat start num :
  Forall (fun v => v = start) (linspace start start num).
Proof.
  unfold linspace. apply Forall_map, Forall_forall. intros i _. simpl.
  unfold Rdiv. ring.
Qed.

(** A grid that runs downwards: its points lie between the two ends. *)
Lemma linspace_bounds_down start stop num :
  stop <= start → (2 <= num)%nat →
  Forall (fun z => stop <= z <= start) (linspace start stop num).
Proof.
  intros Hle Hn.
  pose proof (linspace_bounds (- start) (- stop) num ltac:(lra) Hn) as H.
  rewrite <- linspace_opp, Forall_map in H.
  eapply Forall_impl; [exact H |]. simpl. intros z Hz. lra.
Qed.

Lemma trapz_list_down y start stop num :
  stop < start → (2 <= num)%nat →
  Forall (fun v => 0 <= v) y →
  trapz_list y (linspace start stop num) <= 0.
Proof.
  intros Hlt Hn Hy.
  assert (H : 0 <= trapz_list y (linspace (- start) (- stop) num)).
  { apply trapz_list_nonneg; [| exact Hy].
    apply linspace_increasing; [lra | exact Hn]. }
  rewrite <- linspace_opp, trapz_list_opp in H. lra.
Qed.

Lemma nonneg_integrand (cosmology : R → R) (psi_g grid : list R) :
  Forall (fun z => 0 <= cosmology z ∧ 0 < 1 + z) grid →
  Forall (fun v => 0 <= v) psi_g →
  Forall (fun v => 0 <= v)
    (zip_with Rdiv
       (zip_with Rmult psi_g (map (fun z => cosmology z * 4 * PI) grid))
       (map (Rplus 1) grid)).
Proof.
  intros Hgrid Hpsi.
  apply Forall_lookup_2. intros i v Hv.
  apply lookup_zip_with_Some in Hv as (a & b & -> & Ha & Hb).
  apply lookup_zip_with_Some in Ha as (p & d & -> & Hp & Hd).
  apply list_lookup_fmap_Some in Hd as (z & -> & Hzi).
  apply list_lookup_fmap_Some in Hb as (z' & -> & Hzi').
  assert (z' = z) as -> by congruence.
  pose proof (Forall_lookup_1 _ _ _ _ Hgrid Hzi) as [Hc Hz]. simpl in Hc, Hz.
  pose proof (Forall_lookup_1 _ _ _ _ Hpsi Hp) as Hpp. simpl in Hpp.
  pose proof PI_RGT_0 as Hpi.
  apply Rmult_le_pos; [| left; by apply Rinv_0_lt_compat].
  apply Rmult_le_pos; [exact Hpp |].
  apply Rmult_le_pos; [| lra]. lra.
Qed.

(** X11.  The density that [probability] returns for the redshifts of
    the grid itself integrates to one over the grid under the same
    trapezoidal rule: on a newly built instance with [z_max > 0.001],
    for every class and parameters whose weighting has the shape of the
    grid and whose normalisation is not zero, [trapz(p, zs) = 1]. *)
Theorem probability_integrates_to_one
    (cls : redshift_class) (cosmology : R → R) (xp0 xp : string) (zmax : R)
    (parameters : gmap string R) (psi_g : ndarray) (N : R) :
  1 / 1000 < zmax →
  call_psi_of_z cls (__init__ cosmology xp0 zmax)
    (zs (__init__ cosmology xp0 zmax)) parameters = Ok psi_g →
  shape psi_g = shape (zs (__init__ cosmology xp0 zmax)) →
  normalisation_of cls (__init__ cosmology xp0 zmax) parameters = Ok N →
  N ≠ 0 →
  ∃ self' p,
    probability cls xp {[ "redshift" := zs (__init__ cosmology xp0 zmax) ]}
      parameters (__init__ cosmology xp0 zmax) = (self', Ok p)
    ∧ trapz p (zs (__init__ cosmology xp0 zmax)) = 1.
Proof.
  intros Hzmax Hpsi Hshape HN HN0.
  set (self := __init__ cosmology xp0 zmax) in *.
  set (grid := linspace (1 / 1000) zmax 1000).
  set (table := map (fun z => cosmology z * 4 * PI) grid).
  assert (Hinc : increasing grid) by (apply linspace_increasing; [exact Hzmax | lia]).
  assert (Hvol : volume_at self (zs self) = table).
  { change (volume_at self (zs self)) with (map (interp1 grid table) grid).
    apply interp1_samples; [exact Hinc |]. unfold table. by rewrite length_map. }
  assert (Hshapes : shape (dvc_dz self) = shape (zs self)).
  { change (length table = length grid). unfold table. by rewrite length_map. }
  pose proof (normalisation_value cls self parameters psi_g Hpsi Hshape Hshapes)
    as HNv.
  rewrite HN in HNv. apply Ok_inj in HNv.
  exists (set_cached_dvc_dz self
            (Some {| array_module := xp; data := volume_at self (zs self) |})),
         (times (weights psi_g (zs self) N) (volume_at self (zs self))).
  split.
  - apply (probability_miss cls xp _ parameters self (zs self) psi_g N);
      [apply grid_ok_init | apply lookup_singleton_eq | exact Hpsi | exact Hshape
      | exact HN | reflexivity].
  - rewrite Hvol. unfold trapz, times, weights, div_scalar. cbn [data].
    change (data (zs self)) with grid in HNv |- *.
    change (data (dvc_dz self)) with table in HNv.
    rewrite density_as_scaled_integrand, trapz_list_scale, <- HNv.
    by apply Rinv_l.
Qed.

Lemma probability_integrates_to_one_witness :
  ∃ self' p,
    probability PowerLawRedshift "numpy"
      {[ "redshift" := zs fresh_instance ]} flat_parameters fresh_instance
    = (self', Ok p)
    ∧ trapz p (zs fresh_instance) = 1.
Proof.
  destruct (PowerLaw_normalisation_positive euclidean_volume 1 fresh_instance
              fresh_instance_constructed ltac:(lra) euclidean_volume_pos
              flat_parameters 0 (proj1 (lookup_only_lamb 0))
              (proj2 (lookup_only_lamb 0))) as (N & HN & Hpos).
  apply (probability_integrates_to_one PowerLawRedshift euclidean_volume
           "numpy" "numpy" 1 flat_parameters _ N ltac:(lra)
           (PowerLaw_call_psi_of_z fresh_instance (zs fresh_instance)
              flat_parameters 0 (proj1 (lookup_only_lamb 0))
              (proj2 (lookup_only_lamb 0)))
           (length_map _ _) HN).
  lra.
Defined.

(** X12.  With [z_max] at or below 0.001 the grid does not increase
    and the normalisation is never positive: it is exactly 0 for
    [z_max = 0.001] whatever the class and the parameters (all 1000
    grid points coincide), so that [probability] divides by zero, and
    it is at most 0 for [-1 < z_max < 0.001] when the weighting and the
    volume term are not negative (the grid then runs downwards). *)
Theorem normalisation_on_degenerate_grid
    (cls : redshift_class) (cosmology : R → R) (zmax : R) (self : _Redshift)
    (parameters : gmap string R) (psi_g : ndarray) :
  constructed cosmology zmax self →
  zmax <= 1 / 1000 →
  call_psi_of_z cls self (zs self) parameters = Ok psi_g →
  shape psi_g = shape (zs self) →
  ∃ N, normalisation_of cls self parameters = Ok N
       ∧ (zmax = 1 / 1000 → N = 0)
       ∧ (-1 < zmax →
          Forall (fun v => 0 <= v) (data psi_g) →
          (∀ z, zmax <= z <= 1 / 1000 → 0 <= cosmology z) →
          N <= 0).
Proof.
  intros Hself Hzmax Hpsi Hshape.
  destruct (constructed_fields _ _ _ Hself) as (_ & _ & Hzs & _ & Hd).
  destruct (constructed_shapes _ _ _ Hself) as [Hs1 Hs2].
  eexists. split.
  { apply (normalisation_value cls self parameters psi_g Hpsi Hshape). congruence. }
  rewrite Hzs, Hd. split.
  - intros ->. apply (trapz_list_flat_grid _ _ (1 / 1000)), linspace_flat.
  - intros Hlow Hpos Hcos.
    destruct (Req_dec_T zmax (1 / 1000)) as [-> | Hne].
    + right. apply (trapz_list_flat_grid _ _ (1 / 1000)), linspace_flat.
    + apply trapz_list_down; [lra | lia |].
      apply nonneg_integrand; [| exact Hpos].
      eapply Forall_impl; [apply linspace_bounds_down; [lra | lia] |].
      simpl. intros z Hz. split; [apply Hcos | ]; lra.
Qed.

Lemma normalisation_on_degenerate_grid_witness :
  ∃ N, normalisation_of PowerLawRedshift
         (__init__ euclidean_volume "numpy" (1 / 1000)) flat_parameters = Ok N
       ∧ N = 0.
Proof.
  destruct (normalisation_on_degenerate_grid PowerLawRedshift euclidean_volume
              (1 / 1000) (__init__ euclidean_volume "numpy" (1 / 1000))
              flat_parameters _
              (ex_intro _ "numpy" (ex_intro _ None eq_refl))
              ltac:(lra)
              (PowerLaw_call_psi_of_z _ _ flat_parameters 0
                 (proj1 (lookup_only_lamb 0)) (proj2 (lookup_only_lamb 0)))
              (length_map _ _)) as (N & HN & H0 & _).
  exists N. split; [exact HN | by apply H0].
Defined.

End NormalisationOverGrid.

(* ===================================================================== *)
(** * The two classes: weighting, calls and argument errors *)
(* ===================================================================== *)

Section Weightings.

Lemma power_one e : power 1 e = 1.
Proof. unfold power, Rpower. rewrite ln_1, Rmult_0_r. apply exp_0. Qed.

Lemma powerlaw1_below alpha high low xx :
  xx < low → powerlaw1 alpha high low xx = 0.
Proof.
  intros H. unfold powerlaw1. destruct (Rle_dec low xx); [lra | reflexivity].
Qed.

(** X13.  The weighting of [MadauDickinsonRedshift] under the
    parameters that its [__call__] passes, for [z_peak > -1], has the
    shape of the redshifts, and at every redshift above -1 it lies
    between 0 and the power law [(1+z)^gamma] cut to [[0, z_max]] that
    it is built from: it is 0 below redshift 0 and above [z_max],
    positive and strictly below [(1+z)^gamma] inside, and exactly half
    of the power law at [z = z_peak]. *)
Theorem MadauDickinson_weighting
    (self : _Redshift) (z : ndarray) (gamma kappa z_peak : R) :
  -1 < z_peak →
  ∃ psi,
    call_psi_of_z MadauDickinsonRedshift self z
      {[ "gamma" := gamma; "kappa" := kappa; "z_peak" := z_peak ]} = Ok psi
    ∧ shape psi = shape z
    ∧ ∀ i zi, data z !! i = Some zi → -1 < zi →
        ∃ v, data psi !! i = Some v
             ∧ 0 <= v <= powerlaw1 gamma (1 + z_max self) 1 (1 + zi)
             ∧ (zi < 0 ∨ z_max self < zi → v = 0)
             ∧ (0 <= zi <= z_max self → 0 < v < power (1 + zi) gamma)
             ∧ (zi = z_peak →
                v = powerlaw1 gamma (1 + z_max self) 1 (1 + zi) / 2).
Proof.
  intros Hpeak.
  destruct (lookup_madau gamma kappa z_peak) as (Hr & Hg & Hk & Hp).
  eexists. split; [by apply MadauDickinson_call_psi_of_z |].
  split; [unfold shape; cbn [data]; apply length_map |].
  intros i zi Hzi Hlow. cbn [data]. rewrite list_lookup_fmap, Hzi.
  eexists. split; [reflexivity |].
  set (pl := powerlaw1 gamma (1 + z_max self) 1 (1 + zi)).
  set (d := power ((1 + zi) / (1 + z_peak)) kappa).
  assert (Hd : 0 < d) by apply power_pos.
  assert (Hpl : 0 <= pl) by apply powerlaw1_nonneg.
  assert (Hinv : 0 < / (1 + d) < 1).
  { split; [apply Rinv_0_lt_compat; lra |].
    rewrite <- Rinv_1 at 2. apply Rinv_lt_contravar; lra. }
  split; [unfold Rdiv; nra |].
  split.
  { intros [Hneg | Habove]; unfold pl.
    - rewrite powerlaw1_below by lra. unfold Rdiv. ring.
    - rewrite powerlaw1_above by lra. unfold Rdiv. ring. }
  split.
  { intros [H0 Hmax].
    assert (Hval : pl = power (1 + zi) gamma).
    { unfold pl. rewrite powerlaw1_inside by lra. by rewrite Rdiv_1_r. }
    assert (Hpos : 0 < pl) by (rewrite Hval; apply power_pos).
    rewrite <- Hval. unfold Rdiv. nra. }
  intros ->. unfold d.
  replace ((1 + z_peak) / (1 + z_peak)) with 1 by (field; lra).
  rewrite power_one. by replace (1 + 1) with 2 by lra.
Qed.

Lemma MadauDickinson_weighting_witness :
  ∃ psi,
    call_psi_of_z MadauDickinsonRedshift fresh_instance (array_of [1 / 2; 2])
      {[ "gamma" := 3; "kappa" := 5; "z_peak" := 1 / 2 ]} = Ok psi
    ∧ shape psi = 2%nat.
Proof.
  destruct (MadauDickinson_weighting fresh_instance (array_of [1 / 2; 2])
              3 5 (1 / 2) ltac:(lra)) as (psi & Hpsi & Hshape & _).
  exists psi. split; [exact Hpsi | exact Hshape].
Defined.

Lemma MadauDickinson_normalisation_Ok cosmology zmax self gamma kappa z_peak :
  constructed cosmology zmax self →
  ∃ N, normalisation_of MadauDickinsonRedshift self
         {[ "gamma" := gamma; "kappa" := kappa; "z_peak" := z_peak ]} = Ok N.
Proof.
  intros Hself.
  destruct (lookup_madau gamma kappa z_peak) as (Hr & Hg & Hk & Hp).
  destruct (constructed_shapes _ _ _ Hself) as [Hs1 Hs2].
  eexists.
  eapply normalisation_value;
    [by apply MadauDickinson_call_psi_of_z
    | unfold shape; cbn [data]; apply length_map
    | congruence].
Qed.

(** X14.  The [__call__] methods of the two classes on an instance
    built by [__init__], in any state of its cache slot and for any
    [z_max]: with a dataset that has a ["redshift"] entry they return
    an array of the shape of that entry, for all values of their
    parameters and of the redshifts; without it they raise
    [KeyError('redshift')] and leave the instance as it was. *)
Theorem call_returns_or_reports_missing_redshift
    (cosmology : R → R) (zmax : R) (self : _Redshift) (xp : string)
    (dataset : gmap string ndarray) :
  constructed cosmology zmax self →
  match dataset !! "redshift" with
  | Some z =>
      (∀ lamb, ∃ self' p,
         PowerLawRedshift__call__ xp dataset lamb self = (self', Ok p)
         ∧ shape p = shape z)
      ∧ (∀ gamma kappa z_peak, ∃ self' p,
           MadauDickinsonRedshift__call__ xp dataset gamma kappa z_peak self
           = (self', Ok p)
           ∧ shape p = shape z)
  | None =>
      (∀ lamb,
         PowerLawRedshift__call__ xp dataset lamb self
         = (self, Raise (KeyError "redshift")))
      ∧ (∀ gamma kappa z_peak,
           MadauDickinsonRedshift__call__ xp dataset gamma kappa z_peak self
           = (self, Raise (KeyError "redshift")))
  end.
Proof.
  intros Hself.
  pose proof (constructed_grid_ok _ _ _ Hself) as Hgrid.
  destruct (dataset !! "redshift") as [z |] eqn:Hz.
  - split.
    + intros lamb. destruct (lookup_only_lamb lamb) as [Hr Hl].
      destruct (PowerLaw_normalisation_Ok cosmology zmax self Hself
                  {[ "lamb" := lamb ]} lamb Hr Hl) as [N HN].
      eapply (probability_returns PowerLawRedshift xp dataset _ self z _ N
                Hgrid Hz (PowerLaw_call_psi_of_z self z _ lamb Hr Hl)
                (length_map _ _) HN).
    + intros gamma kappa z_peak.
      destruct (lookup_madau gamma kappa z_peak) as (Hr & Hg & Hk & Hp).
      destruct (MadauDickinson_normalisation_Ok cosmology zmax self
                  gamma kappa z_peak Hself) as [N HN].
      eapply (probability_returns MadauDickinsonRedshift xp dataset _ self z _ N
                Hgrid Hz
                (MadauDickinson_call_psi_of_z self z _ gamma kappa z_peak
                   Hr Hg Hk Hp)
                (length_map _ _) HN).
  - split; intros;
      unfold PowerLawRedshift__call__, MadauDickinsonRedshift__call__,
        probability, bind, getitem, lift, lookup_key;
      by rewrite Hz.
Qed.

Lemma call_returns_or_reports_missing_redshift_witness :
  (∃ self' p,
     MadauDickinsonRedshift__call__ "numpy" (dataset_of [0; 1; 2]) 3 5 2
       fresh_instance = (self', Ok p)
     ∧ shape p = 3%nat)
  ∧ PowerLawRedshift__call__ "numpy" ∅ 0 fresh_instance
    = (fresh_instance, Raise (KeyError "redshift")).
Proof.
  split.
  - pose proof (call_returns_or_reports_missing_redshift euclidean_volume 1
                  fresh_instance "numpy" (dataset_of [0; 1; 2])
                  fresh_instance_constructed) as H.
    rewrite lookup_dataset_of in H. exact (proj2 H 3 5 2).
  - pose proof (call_returns_or_reports_missing_redshift euclidean_volume 1
                  fresh_instance "numpy" ∅ fresh_instance_constructed) as H.
    rewrite lookup_empty in H. exact (proj1 H 0).
Defined.

(** X15.  The order in which [probability] reports wrong arguments,
    each time leaving the instance as it was: a dataset without
    ["redshift"] gives [KeyError('redshift')] for every class and
    whatever the parameters; then a parameter named ["redshift"] gives a
    [TypeError] (it collides with the keyword of [psi_of_z]); then the
    base class raises [NotImplementedError], [PowerLawRedshift] reports
    a missing ["lamb"], and [MadauDickinsonRedshift] the first missing
    one of ["gamma"], ["kappa"], ["z_peak"], in this order. *)
Theorem probability_argument_errors
    (xp : string) (dataset : gmap string ndarray)
    (parameters : gmap string R) (self : _Redshift) :
  (dataset !! "redshift" = None →
   ∀ cls, probability cls xp dataset parameters self
          = (self, Raise (KeyError "redshift")))
  ∧ (is_Some (dataset !! "redshift") →
     (is_Some (parameters !! "redshift") →
      ∀ cls, ∃ msg, probability cls xp dataset parameters self
                    = (self, Raise (TypeError msg)))
     ∧ (parameters !! "redshift" = None →
        probability _Redshift_class xp dataset parameters self
        = (self, Raise NotImplementedError)
        ∧ (parameters !! "lamb" = None →
           probability PowerLawRedshift xp dataset parameters self
           = (self, Raise (KeyError "lamb")))
        ∧ (parameters !! "gamma" = None →
           probability MadauDickinsonRedshift xp dataset parameters self
           = (self, Raise (KeyError "gamma")))
        ∧ (is_Some (parameters !! "gamma") → parameters !! "kappa" = None →
           probability MadauDickinsonRedshift xp dataset parameters self
           = (self, Raise (KeyError "kappa")))
        ∧ (is_Some (parameters !! "gamma") → is_Some (parameters !! "kappa") →
           parameters !! "z_peak" = None →
           probability MadauDickinsonRedshift xp dataset parameters self
           = (self, Raise (KeyError "z_peak"))))).
Proof.
  split.
  { intros Hz cls. unfold probability, bind, getitem, lift, lookup_key.
    by rewrite Hz. }
  intros [z Hz]. split.
  { intros [r Hr] cls. eexists.
    unfold probability, bind, getitem, lift, lookup_key, call_psi_of_z.
    rewrite Hz, Hr. reflexivity. }
  intros Hr.
  assert (Hstep : ∀ cls e,
    psi_of_z cls self z parameters = Raise e →
    probability cls xp dataset parameters self = (self, Raise e)).
  { intros cls e He.
    unfold probability, bind, getitem, lift, lookup_key, call_psi_of_z.
    by rewrite Hz, Hr, He. }
  split; [by apply Hstep |].
  split.
  { intros Hl. apply Hstep. cbn [psi_of_z PowerLawRedshift].
    unfold PowerLawRedshift_psi_of_z, lookup_key. by rewrite Hl. }
  split.
  { intros Hg. apply Hstep. cbn [psi_of_z MadauDickinsonRedshift].
    unfold MadauDickinsonRedshift_psi_of_z, lookup_key. by rewrite Hg. }
  split.
  { intros [g Hg] Hk. apply Hstep. cbn [psi_of_z MadauDickinsonRedshift].
    unfold MadauDickinsonRedshift_psi_of_z, lookup_key. by rewrite Hg, Hk. }
  intros [g Hg] [k Hk] Hp. apply Hstep. cbn [psi_of_z MadauDickinsonRedshift].
  unfold MadauDickinsonRedshift_psi_of_z, lookup_key. by rewrite Hg, Hk, Hp.
Qed.

Lemma probability_argument_errors_witness :
  probability MadauDickinsonRedshift "numpy" (dataset_of [0; 1])
    {[ "gamma" := 3; "z_peak" := 2 ]} fresh_instance
  = (fresh_instance, Raise (KeyError "kappa")).
Proof.
  destruct (probability_argument_errors "numpy" (dataset_of [0; 1])
              {[ "gamma" := 3; "z_peak" := 2 ]} fresh_instance) as [_ H].
  destruct H as [_ H].
  { rewrite lookup_dataset_of. by eexists. }
  destruct (H eq_refl) as (_ & _ & _ & Hkappa & _).
  apply Hkappa; [by exists 3 | reflexivity].
Defined.

End Weightings.

(* ===================================================================== *)
(** * The scale of the volume term *)
(* ===================================================================== *)

Section VolumeScale.

Lemma zip_with_scale_r (f : R → R → R) c (a b : list R) :
  (∀ x y, f x (c * y) = c * f x y) →
  zip_with f a (map (Rmult c) b) = map (Rmult c) (zip_with f a b).
Proof.
  intros Hf. revert b. induction a as [| x a IH]; intros [| y b]; simpl; try done.
  by rewrite Hf, IH.
Qed.

Lemma elementwise_scale_r f c a b :
  (∀ x y, f x (c * y) = c * f x y) →
  elementwise f a (scale c b) = (r <-? elementwise f a b ;; Ok (scale c r)).
Proof.
  intros Hf. unfold elementwise. rewrite shape_scale.
  destruct (Nat.eqb (shape a) (shape b)).
  - simpl. unfold scale. simpl. by rewrite zip_with_scale_r.
  - change (data (scale c b)) with (map (Rmult c) (data b)).
    destruct (data a) as [| x [| x' l]], (data b) as [| y [| y' l']];
      simpl; unfold scale; simpl; rewrite ?Hf, ?map_map; try reflexivity.
    all: do 2 f_equal; repeat (apply (f_equal2 cons); [reflexivity |]).
    all: apply map_ext; intros; by rewrite Hf.
Qed.

Lemma last_scale c (fs : list R) :
  List.last (map (Rmult c) fs) 0 = c * List.last fs 0.
Proof.
  induction fs as [| f fs IH]; [simpl; lra |].
  destruct fs as [| g fs]; [reflexivity | exact IH].
Qed.

Lemma interp_segment_scale c x xs fs :
  interp_segment x xs (map (Rmult c) fs) = c * interp_segment x xs fs.
Proof.
  revert fs. induction xs as [| x0 xs IH]; intros fs; [simpl; lra |].
  destruct fs as [| f0 fs]; [simpl; lra |].
  destruct xs as [| x1 xs]; [reflexivity |].
  destruct fs as [| f1 fs]; [reflexivity |].
  change (map (Rmult c) (f0 :: f1 :: fs))
    with (c * f0 :: c * f1 :: map (Rmult c) fs).
  rewrite !interp_segment_step.
  destruct (Rlt_dec x x1).
  - destruct (Req_dec_T x0 x); [reflexivity | unfold Rdiv; ring].
  - exact (IH (f1 :: fs)).
Qed.

(** [np.interp] is linear in the tabulated values. *)
Lemma interp1_scale c xs fs x :
  interp1 xs (map (Rmult c) fs) x = c * interp1 xs fs x.
Proof.
  unfold interp1.
  destruct (Rlt_dec (List.last xs 0) x); [apply last_scale |].
  destruct (Rlt_dec x (hd 0 xs)); [destruct fs; simpl; lra |].
  apply interp_segment_scale.
Qed.

(** [probability] on an instance whose cache slot is empty. *)
Lemma probability_empty_slot cls xp dataset parameters self :
  grid_ok self → cached_dvc_dz self = None →
  snd (probability cls xp dataset parameters self)
  = (z <-? lookup_key dataset "redshift" ;;
     psi <-? call_psi_of_z cls self z parameters ;;
     N <-? normalisation_of cls self parameters ;;
     q <-? elementwise Rdiv psi (scalar_add 1 z) ;;
     inplace Rmult (div_scalar q N)
       {| array_module := xp; data := volume_at self z |}).
Proof.
  intros Hgrid Hnone.
  unfold probability, bind, getitem, lift, lookup_key, try_except.
  destruct (dataset !! "redshift") as [z |]; [| reflexivity].
  cbn [and_then].
  destruct (call_psi_of_z cls self z parameters) as [psi |]; [| reflexivity].
  rewrite normalisation_run. cbn [and_then].
  destruct (normalisation_of cls self parameters) as [N |]; [| reflexivity].
  cbn [and_then].
  destruct (elementwise Rdiv psi (scalar_add 1 z)) as [q |]; [| reflexivity].
  cbn [and_then]. rewrite Hnone. cbn [imul snd].
  transitivity
    (snd (match _cache_dvc_dz xp z self with
          | (self', Ok _) =>
              (self', imul (div_scalar q N) (cached_dvc_dz self'))
          | (self', Raise e) => (self', Raise e)
          end)); [reflexivity |].
  rewrite (_cache_dvc_dz_grid_ok xp z self Hgrid). reflexivity.
Qed.

Section OneClass.

Variable cls : redshift_class.
Variable c : R.
Variable cosmology : R → R.
Variable xp0 : string.
Variable zmax : R.
Hypothesis Hc : c ≠ 0.
Hypothesis Hcls : ∀ s1 s2 z p,
  z_max s1 = z_max s2 → psi_of_z cls s1 z p = psi_of_z cls s2 z p.

Lemma scaled_table :
  dvc_dz (__init__ (fun z => c * cosmology z) xp0 zmax)
  = scale c (dvc_dz (__init__ cosmology xp0 zmax))
  ∧ data (dvc_dz_ (__init__ (fun z => c * cosmology z) xp0 zmax))
    = map (Rmult c) (data (dvc_dz_ (__init__ cosmology xp0 zmax))).
Proof.
  assert (H : map (fun z => c * cosmology z * 4 * PI)
                (linspace (1 / 1000) zmax 1000)
              = map (Rmult c)
                  (map (fun z => cosmology z * 4 * PI)
                     (linspace (1 / 1000) zmax 1000))).
  { rewrite map_map. apply map_ext. intros z. ring. }
  split.
  - unfold __init__, scale, asarray. cbn [dvc_dz data array_module].
    by rewrite H.
  - unfold __init__. cbn [dvc_dz_ data]. exact H.
Qed.

Lemma scaled_call_psi_of_z z p :
  call_psi_of_z cls (__init__ (fun z => c * cosmology z) xp0 zmax) z p
  = call_psi_of_z cls (__init__ cosmology xp0 zmax) z p.
Proof.
  unfold call_psi_of_z. destruct (p !! "redshift"); [reflexivity |].
  by apply Hcls.
Qed.

Lemma scaled_normalisation p :
  normalisation_of cls (__init__ (fun z => c * cosmology z) xp0 zmax) p
  = (N <-? normalisation_of cls (__init__ cosmology xp0 zmax) p ;; Ok (c * N)).
Proof.
  unfold normalisation_of, normalisation, lift. cbn [snd].
  change (zs (__init__ (fun z => c * cosmology z) xp0 zmax))
    with (zs (__init__ cosmology xp0 zmax)).
  rewrite scaled_call_psi_of_z, (proj1 scaled_table).
  destruct (call_psi_of_z cls _ _ p) as [psi |]; [| reflexivity].
  cbn [and_then].
  rewrite elementwise_scale_r by (intros; ring).
  destruct (elementwise Rmult psi _) as [w |]; [| reflexivity].
  cbn [and_then].
  rewrite elementwise_scale_l by (intros; unfold Rdiv; ring).
  destruct (elementwise Rdiv w _) as [i |]; [| reflexivity].
  cbn [and_then]. unfold trapz, scale. cbn [data].
  by rewrite trapz_list_scale.
Qed.

Lemma scaled_volume_at z :
  volume_at (__init__ (fun z => c * cosmology z) xp0 zmax) z
  = map (Rmult c) (volume_at (__init__ cosmology xp0 zmax) z).
Proof.
  unfold volume_at. rewrite (proj2 scaled_table), map_map.
  apply map_ext. intros x. apply interp1_scale.
Qed.

Lemma scaled_product a N m v :
  N ≠ 0 →
  inplace Rmult (div_scalar a (c * N))
    {| array_module := m; data := map (Rmult c) v |}
  = inplace Rmult (div_scalar a N) {| array_module := m; data := v |}.
Proof.
  intros HN. unfold inplace, shape, div_scalar. cbn [data array_module].
  rewrite !length_map.
  destruct (Nat.eqb (length (data a)) (length v)).
  - do 2 f_equal. generalize (data a) as l. intros l. revert v.
    induction l as [| x l IH]; intros [| y v]; simpl; try done.
    rewrite IH. f_equal. field. by split.
  - destruct v as [| y [| y' v]]; simpl; try reflexivity.
    do 2 f_equal. rewrite !map_map. apply map_ext. intros x. field. by split.
Qed.

Lemma scaled_probability_between s1 s2 xp dataset p :
  grid_ok s1 → grid_ok s2 →
  cached_dvc_dz s1 = None → cached_dvc_dz s2 = None →
  (∀ z, call_psi_of_z cls s1 z p = call_psi_of_z cls s2 z p) →
  normalisation_of cls s1 p
  = (N <-? normalisation_of cls s2 p ;; Ok (c * N)) →
  (∀ z, volume_at s1 z = map (Rmult c) (volume_at s2 z)) →
  normalisation_of cls s2 p ≠ Ok 0 →
  snd (probability cls xp dataset p s1) = snd (probability cls xp dataset p s2).
Proof.
  intros Hg1 Hg2 Hc1 Hc2 Hpsi Hnorm Hvol HN0.
  rewrite (probability_empty_slot cls xp dataset p s1 Hg1 Hc1).
  rewrite (probability_empty_slot cls xp dataset p s2 Hg2 Hc2).
  destruct (lookup_key dataset "redshift") as [z |]; [| reflexivity].
  cbn [and_then]. rewrite Hpsi.
  destruct (call_psi_of_z cls s2 z p) as [psi |]; [| reflexivity].
  cbn [and_then]. rewrite Hnorm.
  destruct (normalisation_of cls s2 p) as [N |]; [| reflexivity].
  cbn [and_then].
  destruct (elementwise Rdiv psi (scalar_add 1 z)) as [q |]; [| reflexivity].
  cbn [and_then]. rewrite Hvol.
  apply scaled_product. intros ->. by apply HN0.
Qed.

Lemma scaled_probability xp dataset p :
  normalisation_of cls (__init__ cosmology xp0 zmax) p ≠ Ok 0 →
  snd (probability cls xp dataset p
         (__init__ (fun z => c * cosmology z) xp0 zmax))
  = snd (probability cls xp dataset p (__init__ cosmology xp0 zmax)).
Proof.
  intros HN0.
  apply scaled_probability_between;
    [apply grid_ok_init | apply grid_ok_init | reflexivity | reflexivity
    | intros z; apply scaled_call_psi_of_z
    | apply scaled_normalisation
    | apply scaled_volume_at
    | exact HN0].
Qed.

End OneClass.

(** X16.  Only the shape of the volume term matters: on newly built
    instances, [probability] of [PowerLawRedshift] and of
    [MadauDickinsonRedshift] returns the same result (the same array or
    the same exception) when the differential comoving volume is
    multiplied by a constant [c ≠ 0], as a change of units or of the
    factor [4 * pi] does, provided the normalisation is not zero. *)
Theorem probability_invariant_under_volume_scale
    (c : R) (cosmology : R → R) (xp0 xp : string) (zmax : R)
    (dataset : gmap string ndarray) (parameters : gmap string R) :
  c ≠ 0 →
  (normalisation_of PowerLawRedshift (__init__ cosmology xp0 zmax) parameters
   ≠ Ok 0 →
   snd (probability PowerLawRedshift xp dataset parameters
          (__init__ (fun z => c * cosmology z) xp0 zmax))
   = snd (probability PowerLawRedshift xp dataset parameters
            (__init__ cosmology xp0 zmax)))
  ∧ (normalisation_of MadauDickinsonRedshift (__init__ cosmology xp0 zmax)
       parameters ≠ Ok 0 →
     snd (probability MadauDickinsonRedshift xp dataset parameters
            (__init__ (fun z => c * cosmology z) xp0 zmax))
     = snd (probability MadauDickinsonRedshift xp dataset parameters
              (__init__ cosmology xp0 zmax))).
Proof.
  intros Hc. split; intros HN; apply scaled_probability; try done.
  - intros s1 s2 z p Hz. cbn [psi_of_z PowerLawRedshift].
    unfold PowerLawRedshift_psi_of_z. by rewrite Hz.
  - intros s1 s2 z p Hz. cbn [psi_of_z MadauDickinsonRedshift].
    unfold MadauDickinsonRedshift_psi_of_z. by rewrite Hz.
Qed.

Lemma probability_invariant_under_volume_scale_witness :
  snd (probability PowerLawRedshift "numpy" (dataset_of [0; 1]) flat_parameters
         (__init__ (fun z => 2 * euclidean_volume z) "numpy" 1))
  = snd (probability PowerLawRedshift "numpy" (dataset_of [0; 1])
           flat_parameters fresh_instance).
Proof.
  apply (probability_invariant_under_volume_scale 2 euclidean_volume
           "numpy" "numpy" 1 (dataset_of [0; 1]) flat_parameters ltac:(lra)).
  destruct (PowerLaw_normalisation_positive euclidean_volume 1 fresh_instance
              fresh_instance_constructed ltac:(lra) euclidean_volume_pos
              flat_parameters 0 (proj1 (lookup_only_lamb 0))
              (proj2 (lookup_only_lamb 0))) as (N & HN & Hpos).
  unfold fresh_instance in HN. rewrite HN. intros H. apply Ok_inj in H. lra.
Defined.

End VolumeScale.

(* ===================================================================== *)
(** * When set_backend succeeds *)
(* ===================================================================== *)

Section BackendSuccess.
Local Close Scope R_scope.

Lemma import_module_Ok_importable env name st st' o :
  import_module env name st = (st', Ok o) →
  first_import_failure env (dotted_prefixes name) = None.
Proof.
  intros H.
  destruct (first_import_failure env (dotted_prefixes name)) as [e |] eqn:Hf;
    [| reflexivity].
  destruct (import_module_raises env name e st Hf) as [s Hs].
  rewrite Hs in H. discriminate.
Qed.

Lemma for_each_Ok_each {S A} (l : list A) (body : A → stateful S unit) st st' :
  for_each l body st = (st', Ok tt) →
  ∀ x, x ∈ l → ∃ s s', body x s = (s', Ok tt).
Proof.
  revert st. induction l as [| y l IH]; intros st Hrun x Hx.
  - by apply elem_of_nil in Hx.
  - cbn [for_each] in Hrun. unfold bind in Hrun.
    destruct (body y st) as [s1 [[] | e]] eqn:Hy; [| discriminate].
    apply elem_of_cons in Hx as [-> | Hx]; [by exists st, s1 |].
    by apply (IH s1).
Qed.

Lemma for_each_succeeds {S A} (l : list A) (body : A → stateful S unit) :
  (∀ x, x ∈ l → ∀ s, ∃ s', body x s = (s', Ok tt)) →
  ∀ s, ∃ s', for_each l body s = (s', Ok tt).
Proof.
  induction l as [| y l IH]; intros Hbody s.
  - by exists s.
  - destruct (Hbody y ltac:(left) s) as [s1 Hy].
    destruct (IH (fun x Hx => Hbody x ltac:(by right)) s1) as [s2 Hrest].
    exists s2. cbn [for_each]. unfold bind. by rewrite Hy.
Qed.

Lemma rebind_step_succeeds env (pre : py unit) attr value module :
  (∀ s, ∃ s', pre s = (s', Ok tt)) →
  first_import_failure env (dotted_prefixes ("gwpopulation." +:+ module)) = None →
  ∀ s, ∃ s',
    (pre ;;;
     m <~ import_module env ("gwpopulation." +:+ module) ;;
     setattr m attr value) s = (s', Ok tt).
Proof.
  intros Hpre Hf s. destruct (Hpre s) as [s0 H0].
  destruct (import_module_succeeds env _ s0 Hf) as [s1 H1].
  eexists. unfold bind. rewrite H0, H1. reflexivity.
Qed.

Lemma rebind_step_Ok_importable env (pre : py unit) attr value module s s' :
  (pre ;;;
   m <~ import_module env ("gwpopulation." +:+ module) ;;
   setattr m attr value) s = (s', Ok tt) →
  first_import_failure env (dotted_prefixes ("gwpopulation." +:+ module)) = None.
Proof.
  unfold bind. destruct (pre s) as [s0 [[] | e]]; [| discriminate].
  destruct (import_module env _ s0) as [s1 [o | e]] eqn:Himp; [| discriminate].
  intros _. by eapply import_module_Ok_importable.
Qed.

Lemma enable_x64_succeeds env backend st :
  (backend = "jax" → env "jax" = Importable) →
  ∃ s0, enable_x64 env backend st = (s0, Ok tt).
Proof.
  intros Hjax. destruct (decide (backend = "jax")) as [-> | Hne].
  - destruct (enable_x64_jax env st (Hjax eq_refl)) as (s0 & H & _). by exists s0.
  - unfold enable_x64. rewrite (bool_decide_false _ Hne). by exists st.
Qed.

Lemma enable_x64_Ok_importable env st s0 :
  enable_x64 env "jax" st = (s0, Ok tt) → env "jax" = Importable.
Proof.
  unfold enable_x64. rewrite bool_decide_true by reflexivity.
  unfold from_import, bind.
  destruct (import_module env "jax" st) as [s [o | e]] eqn:Himp; [| discriminate].
  intros _. apply import_module_Ok_importable in Himp.
  change (dotted_prefixes "jax") with ["jax"] in Himp. simpl in Himp.
  by destruct (env "jax").
Qed.

Lemma alias_trapz_succeeds env backend xp st :
  (backend = "jax" →
   ∀ e, first_import_failure env (dotted_prefixes "jax.scipy.integrate")
        = Some e →
        ∃ msg, e = ModuleNotFoundError msg) →
  ∃ s, alias_trapz env backend xp st = (s, Ok tt).
Proof.
  intros Hjax. unfold alias_trapz.
  destruct (bool_decide_reflect (backend = "jax")) as [Heq | _]; [| by exists st].
  specialize (Hjax Heq).
  unfold try_except, from_import, bind.
  destruct (first_import_failure env (dotted_prefixes "jax.scipy.integrate"))
    as [e |] eqn:Hf.
  - destruct (import_module_raises env _ e st Hf) as [s ->].
    destruct (Hjax e eq_refl) as [msg ->]. by exists s.
  - destruct (import_module_succeeds env _ st Hf) as [s ->].
    eexists. reflexivity.
Qed.

Lemma alias_trapz_Ok_missing_only env xp st s :
  alias_trapz env "jax" xp st = (s, Ok tt) →
  ∀ e, first_import_failure env (dotted_prefixes "jax.scipy.integrate")
       = Some e →
       ∃ msg, e = ModuleNotFoundError msg.
Proof.
  intros H e Hf. unfold alias_trapz in H.
  rewrite bool_decide_true in H by reflexivity.
  unfold try_except, from_import, bind in H.
  destruct (import_module_raises env _ _ st Hf) as [s' Hs'].
  rewrite Hs' in H. destruct e; try discriminate. by eexists.
Qed.

Lemma import_backend_Ok_importable env backend np_name scipy_name st st' b :
  _np_module !! backend = Some np_name →
  _scipy_module !! backend = Some scipy_name →
  import_backend env backend st = (st', Ok b) →
  first_import_failure env (dotted_prefixes np_name) = None
  ∧ first_import_failure env (dotted_prefixes scipy_name) = None.
Proof.
  intros Hnp Hscipy. unfold import_backend, try_except, bind, getitem, lift,
    lookup_key.
  rewrite Hnp.
  destruct (import_module env np_name st) as [s1 [o1 | e1]] eqn:H1.
  - rewrite Hscipy.
    destruct (import_module env scipy_name s1) as [s2 [o2 | e2]] eqn:H2.
    + intros _. split; by eapply import_module_Ok_importable.
    + by destruct e2.
  - by destruct e1.
Qed.

Lemma scs_modules_have_xp module :
  module ∈ __all_with_scs → module ∈ __all_with_xp.
Proof.
  unfold __all_with_scs, __all_with_xp. rewrite !elem_of_cons.
  intros [-> | [-> | H]]; [auto 10 | auto 10 | by apply elem_of_nil in H].
Qed.

(** The run of [set_backend] for a supported backend that is not the
    active one. *)
Lemma set_backend_switch env backend st :
  backend ∈ SUPPORTED_BACKENDS → backend ≠ __backend__ st →
  set_backend env backend st
  = (enable_x64 env backend ;;;
     bound <~ import_backend env backend ;;
     let '(xp, scs) := bound in
     alias_trapz env backend xp ;;;
     rebind_xp env backend xp ;;;
     rebind_scs env scs) st.
Proof.
  intros Hsup Hact. unfold set_backend.
  by rewrite (bool_decide_true _ Hsup), (bool_decide_false _ Hact).
Qed.

Lemma set_backend_succeeds_when env backend np_name scipy_name st :
  backend ∈ SUPPORTED_BACKENDS → backend ≠ __backend__ st →
  _np_module !! backend = Some np_name →
  _scipy_module !! backend = Some scipy_name →
  (backend = "jax" →
   env "jax" = Importable
   ∧ ∀ e, first_import_failure env (dotted_prefixes "jax.scipy.integrate")
          = Some e →
          ∃ msg, e = ModuleNotFoundError msg) →
  first_import_failure env (dotted_prefixes np_name) = None →
  first_import_failure env (dotted_prefixes scipy_name) = None →
  (∀ module, module ∈ __all_with_xp →
     first_import_failure env (dotted_prefixes ("gwpopulation." +:+ module))
     = None) →
  ∃ st', set_backend env backend st = (st', Ok tt).
Proof.
  intros Hsup Hact Hnp Hscipy Hjax Hxp Hscs Hmods.
  rewrite (set_backend_switch _ _ _ Hsup Hact).
  destruct (enable_x64_succeeds env backend st (fun H => proj1 (Hjax H)))
    as [s0 H0].
  destruct (import_backend_succeeds env backend np_name scipy_name s0
              Hnp Hscipy Hxp Hscs) as [s1 H1].
  destruct (alias_trapz_succeeds env backend (PyModule np_name) s1
              (fun H => proj2 (Hjax H))) as [s2 H2].
  destruct (for_each_succeeds __all_with_xp
              (fun module =>
                 assign_backend backend ;;;
                 m <~ import_module env ("gwpopulation." +:+ module) ;;
                 setattr m "xp" (PyModule np_name))
              (fun module Hin =>
                 rebind_step_succeeds env _ _ _ module
                   (fun s => ex_intro _ _ eq_refl) (Hmods module Hin)) s2)
    as [s3 H3].
  destruct (for_each_succeeds __all_with_scs
              (fun module =>
                 ret tt ;;;
                 m <~ import_module env ("gwpopulation." +:+ module) ;;
                 setattr m "scs" (PyAttr scipy_name "special"))
              (fun module Hin =>
                 rebind_step_succeeds env _ _ _ module
                   (fun s => ex_intro _ _ eq_refl)
                   (Hmods module (scs_modules_have_xp module Hin))) s3)
    as [s4 H4].
  exists s4. unfold bind at 1. rewrite H0. unfold bind at 1. rewrite H1.
  unfold bind at 1. rewrite H2. unfold bind at 1.
  change (rebind_xp env backend (PyModule np_name) s2)
    with (for_each __all_with_xp
            (fun module =>
               assign_backend backend ;;;
               m <~ import_module env ("gwpopulation." +:+ module) ;;
               setattr m "xp" (PyModule np_name)) s2).
  rewrite H3. exact H4.
Qed.

Lemma set_backend_success_needs env backend np_name scipy_name st st' :
  backend ≠ __backend__ st →
  _np_module !! backend = Some np_name →
  _scipy_module !! backend = Some scipy_name →
  set_backend env backend st = (st', Ok tt) →
  (backend = "jax" →
   env "jax" = Importable
   ∧ ∀ e, first_import_failure env (dotted_prefixes "jax.scipy.integrate")
          = Some e →
          ∃ msg, e = ModuleNotFoundError msg)
  ∧ first_import_failure env (dotted_prefixes np_name) = None
  ∧ first_import_failure env (dotted_prefixes scipy_name) = None
  ∧ (∀ module, module ∈ __all_with_xp →
       first_import_failure env (dotted_prefixes ("gwpopulation." +:+ module))
       = None).
Proof.
  intros Hact Hnp Hscipy Hrun.
  destruct (set_backend_success _ _ _ _ Hrun) as [Hsup _].
  rewrite (set_backend_switch _ _ _ Hsup Hact) in Hrun.
  unfold bind at 1 in Hrun.
  destruct (enable_x64 env backend st) as [s0 [[] | ?]] eqn:H0; [| discriminate].
  unfold bind at 1 in Hrun.
  destruct (import_backend env backend s0) as [s1 [[xp scs] | ?]] eqn:H1;
    [| discriminate].
  unfold bind at 1 in Hrun.
  destruct (alias_trapz env backend xp s1) as [s2 [[] | ?]] eqn:H2;
    [| discriminate].
  unfold bind at 1 in Hrun.
  destruct (rebind_xp env backend xp s2) as [s3 [[] | ?]] eqn:H3;
    [| discriminate].
  split.
  { intros ->. split.
    - by eapply enable_x64_Ok_importable.
    - by eapply alias_trapz_Ok_missing_only. }
  destruct (import_backend_Ok_importable _ _ _ _ _ _ _ Hnp Hscipy H1) as [Hn Hs].
  split; [exact Hn |]. split; [exact Hs |].
  intros module Hin.
  destruct (for_each_Ok_each _ _ _ _ H3 module Hin) as (s & s' & Hstep).
  by eapply rebind_step_Ok_importable.
Qed.

(** X17.  What makes a switch succeed.  For a supported backend that is
    not the active one, [set_backend] returns exactly when the array
    module and the special-function module of the backend can be
    imported, every module of [__all_with_xp] can be imported, and, for
    jax, [jax] itself can be imported and [jax.scipy.integrate] either
    can be imported or fails with [ModuleNotFoundError], the one
    failure that is tolerated.  The interpreter state plays no part. *)
Theorem set_backend_succeeds_iff
    (env : environment) (backend np_name scipy_name : string)
    (st : interp_state) :
  backend ∈ SUPPORTED_BACKENDS →
  backend ≠ __backend__ st →
  _np_module !! backend = Some np_name →
  _scipy_module !! backend = Some scipy_name →
  (∃ st', set_backend env backend st = (st', Ok tt))
  ↔ ((backend = "jax" →
      env "jax" = Importable
      ∧ ∀ e, first_import_failure env (dotted_prefixes "jax.scipy.integrate")
             = Some e →
             ∃ msg, e = ModuleNotFoundError msg)
     ∧ first_import_failure env (dotted_prefixes np_name) = None
     ∧ first_import_failure env (dotted_prefixes scipy_name) = None
     ∧ (∀ module, module ∈ __all_with_xp →
          first_import_failure env
            (dotted_prefixes ("gwpopulation." +:+ module)) = None)).
Proof.
  intros Hsup Hact Hnp Hscipy. split.
  - intros [st' Hrun]. by eapply set_backend_success_needs.
  - intros (Hjax & Hn & Hs & Hmods). by eapply set_backend_succeeds_when.
Qed.

Lemma set_backend_succeeds_iff_witness :
  (∃ st', set_backend env_no_integrate "jax" initial_state = (st', Ok tt))
  ∧ ¬ (∃ st', set_backend env_no_hyperpe "numpy" initial_state = (st', Ok tt)).
Proof.
  split.
  - apply (set_backend_succeeds_iff env_no_integrate "jax" "jax.numpy"
             "jax.scipy" initial_state);
      [in_literal_list SUPPORTED_BACKENDS | discriminate | reflexivity
      | reflexivity |].
    split; [intros _; split; [reflexivity | intros e [= <-]; by eexists] |].
    split; [reflexivity |]. split; [reflexivity |].
    intros module Hin. unfold __all_with_xp in Hin.
    rewrite !elem_of_cons in Hin.
    destruct Hin as [-> | [-> | [-> | [-> | [-> | [-> | [-> | Hin]]]]]]];
      try reflexivity.
    by apply elem_of_nil in Hin.
  - intros Hrun.
    apply (set_backend_succeeds_iff env_no_hyperpe "numpy" "numpy" "scipy"
             initial_state) in Hrun
      as (_ & _ & _ & Hmods);
      [| in_literal_list SUPPORTED_BACKENDS | discriminate | reflexivity
       | reflexivity].
    specialize (Hmods "hyperpe" ltac:(in_literal_list __all_with_xp)).
    discriminate.
Defined.

Lemma set_backend_bindings env backend np_name scipy_name st st' :
  backend ≠ __backend__ st →
  _np_module !! backend = Some np_name →
  _scipy_module !! backend = Some scipy_name →
  set_backend env backend st = (st', Ok tt) →
  (∀ module, module ∈ __all_with_xp →
     module_attribute st' ("gwpopulation." +:+ module) "xp"
     = Some (PyModule np_name))
  ∧ (∀ module, module ∈ __all_with_scs →
       module_attribute st' ("gwpopulation." +:+ module) "scs"
       = Some (PyAttr scipy_name "special")).
Proof.
  intros Hact Hnp Hscipy Hrun.
  destruct (set_backend_success _ _ _ _ Hrun) as [Hsup _].
  rewrite (set_backend_switch _ _ _ Hsup Hact) in Hrun.
  unfold bind at 1 in Hrun.
  destruct (enable_x64 env backend st) as [s0 [[] | ?]]; [| discriminate].
  unfold bind at 1 in Hrun.
  destruct (import_backend env backend s0) as [s1 [[xp scs] | ?]] eqn:Himp;
    [| discriminate].
  apply import_backend_Ok in Himp as (np' & scipy' & Hnp' & Hscipy' & -> & ->).
  assert (np' = np_name) as -> by congruence.
  assert (scipy' = scipy_name) as -> by congruence.
  unfold bind at 1 in Hrun.
  destruct (alias_trapz env backend (PyModule np_name) s1) as [s2 [[] | ?]];
    [| discriminate].
  unfold bind at 1 in Hrun.
  destruct (rebind_xp env backend (PyModule np_name) s2) as [s3 [[] | ?]] eqn:Hxp;
    [| discriminate].
  rewrite rebind_scs_as_loop in Hrun.
  pose proof (rebind_loop env _ _ _ _ _ _ (assign_backend_spec_attrs backend) Hxp)
    as [Hxp_in _].
  assert (Hret : ∀ s : interp_state, ∃ s', @ret interp_state unit tt s = (s', Ok tt)
                   ∧ ∀ m a, module_attribute s' m a = module_attribute s m a)
    by (intros s; by exists s).
  pose proof (rebind_loop env _ _ _ _ _ _ Hret Hrun) as [Hscs_in Hscs_keep].
  split; [| exact Hscs_in].
  intros module Hin. rewrite Hscs_keep by discriminate. by apply Hxp_in.
Qed.

(** X18.  [enable_cupy()] followed by [disable_cupy()].  When
    [enable_cupy] has returned (cupy was not the active backend) and
    numpy and scipy can be imported, [disable_cupy] returns as well:
    the modules of the package that the first call imported are the
    ones the second call needs.  Afterwards [__backend__] is
    ["numpy"], [xp] and [scs] of the listed modules are numpy and
    [scipy.special], and every attribute not named [xp], [scs] or
    [trapz] is what it was before the two calls. *)
Theorem enable_then_disable_cupy
    (env : environment) (st st1 : interp_state) :
  "cupy" ≠ __backend__ st →
  enable_cupy env st = (st1, Ok tt) →
  first_import_failure env (dotted_prefixes "numpy") = None →
  first_import_failure env (dotted_prefixes "scipy") = None →
  ∃ st2,
    disable_cupy env st1 = (st2, Ok tt)
    ∧ __backend__ st2 = "numpy"
    ∧ (∀ module, module ∈ __all_with_xp →
         module_attribute st2 ("gwpopulation." +:+ module) "xp"
         = Some (PyModule "numpy"))
    ∧ (∀ module, module ∈ __all_with_scs →
         module_attribute st2 ("gwpopulation." +:+ module) "scs"
         = Some (PyAttr "scipy" "special"))
    ∧ redshift_xp st2 = Some "numpy"
    ∧ (∀ m a, a ≠ "xp" → a ≠ "scs" → a ≠ "trapz" →
         module_attribute st2 m a = module_attribute st m a).
Proof.
  unfold enable_cupy, disable_cupy. intros Hact Hon Hnumpy Hscipy.
  destruct (set_backend_success _ _ _ _ Hon) as [_ Hb1].
  destruct (set_backend_success_needs env "cupy" "cupy" "cupyx.scipy" st st1
              Hact eq_refl eq_refl Hon) as (_ & _ & _ & Hmods).
  assert (Hact1 : "numpy" ≠ __backend__ st1) by (rewrite Hb1; discriminate).
  destruct (set_backend_succeeds_when env "numpy" "numpy" "scipy" st1
              ltac:(in_literal_list SUPPORTED_BACKENDS) Hact1 eq_refl eq_refl
              ltac:(discriminate) Hnumpy Hscipy Hmods) as [st2 Hoff].
  exists st2. split; [exact Hoff |].
  split; [exact (proj2 (set_backend_success _ _ _ _ Hoff)) |].
  destruct (set_backend_bindings env "numpy" "numpy" "scipy" st1 st2
              Hact1 eq_refl eq_refl Hoff) as [Hxp Hscs].
  split; [exact Hxp |]. split; [exact Hscs |].
  split.
  { unfold redshift_xp.
    change "gwpopulation.models.redshift"
      with ("gwpopulation." +:+ "models.redshift").
    rewrite (Hxp "models.redshift"); [reflexivity |].
    in_literal_list __all_with_xp. }
  intros m a H1 H2 H3.
  destruct (set_backend_preserves_frame env "cupy" st) as (Hattr1 & _).
  destruct (set_backend_preserves_frame env "numpy" st1) as (Hattr2 & _).
  rewrite Hon in Hattr1. rewrite Hoff in Hattr2. cbn [fst] in Hattr1, Hattr2.
  by rewrite Hattr2, Hattr1.
Qed.

Lemma enable_then_disable_cupy_witness :
  ∃ st2,
    disable_cupy env_all (fst (enable_cupy env_all state_with_utils))
    = (st2, Ok tt)
    ∧ __backend__ st2 = "numpy"
    ∧ redshift_xp st2 = Some "numpy"
    ∧ module_attribute st2 "gwpopulation.utils" "powerlaw"
      = Some (PyAttr "gwpopulation.utils" "powerlaw").
Proof.
  destruct (enable_then_disable_cupy env_all state_with_utils
              (fst (enable_cupy env_all state_with_utils))
              ltac:(discriminate) ltac:(vm_compute; reflexivity)
              eq_refl eq_refl)
    as (st2 & Hoff & Hb & _ & _ & Hxp & Hkeep).
  exists st2. split; [exact Hoff |]. split; [exact Hb |].
  split; [exact Hxp |].
  by rewrite Hkeep by discriminate.
Defined.

End BackendSuccess.

(* ===================================================================== *)
(** * What a switch of backend reaches *)
(* ===================================================================== *)

Section RebindingReach.
Local Close Scope R_scope.

(** The loops of [set_backend] set the attribute on the listed modules
    and on no other module. *)
Lemma rebind_loop_outside env (pre : py unit) attr value l st st' m :
  (∀ s, ∃ s', pre s = (s', Ok tt)
              ∧ ∀ m a, module_attribute s' m a = module_attribute s m a) →
  for_each l (fun module =>
      pre ;;;
      m <~ import_module env ("gwpopulation." +:+ module) ;;
      setattr m attr value) st = (st', Ok tt) →
  (∀ module, module ∈ l → m ≠ "gwpopulation." +:+ module) →
  ∀ a, module_attribute st' m a = module_attribute st m a.
Proof.
  intros Hpre. revert st. induction l as [| x l IH]; intros st; simpl.
  - by intros [= <-].
  - unfold bind at 1. unfold bind at 1.
    destruct (Hpre st) as (s0 & -> & Hs0).
    unfold bind at 1.
    destruct (import_module env ("gwpopulation." +:+ x) s0)
      as [s1 [o |]] eqn:Himp; [| discriminate].
    apply import_module_Ok in Himp as (-> & _ & Hs1).
    destruct (setattr_module ("gwpopulation." +:+ x) attr value s1)
      as (s2 & -> & _ & _ & Hother).
    intros Hrest Hout a.
    rewrite (IH _ Hrest) by (intros module Hin; apply Hout; by right).
    rewrite Hother; [by rewrite Hs1 |].
    intros [= Heq _]. apply (Hout x); [by left | exact Heq].
Qed.

Lemma alias_trapz_keeps env backend name st m a :
  a ≠ "trapz" →
  module_attribute (fst (alias_trapz env backend (PyModule name) st)) m a
  = module_attribute st m a.
Proof.
  intros Ha. unfold alias_trapz.
  destruct (bool_decide (backend = "jax")); [| reflexivity].
  unfold try_except, from_import, bind.
  pose proof (import_module_quiet env "jax.scipy.integrate" st) as [_ Hq].
  destruct (import_module env "jax.scipy.integrate" st) as [s1 [o | e]];
    simpl in Hq.
  - unfold ret at 1.
    destruct (setattr_module name "trapz"
                (PyAttr "jax.scipy.integrate" "trapezoid") s1)
      as (s2 & -> & _ & _ & Hother).
    cbn [fst]. rewrite Hother by congruence. apply Hq.
  - destruct e; cbn [fst]; apply Hq.
Qed.

Lemma set_backend_keeps_outside env backend st st' :
  backend ≠ __backend__ st →
  set_backend env backend st = (st', Ok tt) →
  (∀ m, (∀ module, module ∈ __all_with_xp → m ≠ "gwpopulation." +:+ module) →
        module_attribute st' m "xp" = module_attribute st m "xp")
  ∧ (∀ m, (∀ module, module ∈ __all_with_scs → m ≠ "gwpopulation." +:+ module) →
          module_attribute st' m "scs" = module_attribute st m "scs").
Proof.
  intros Hact Hrun.
  destruct (set_backend_success _ _ _ _ Hrun) as [Hsup _].
  rewrite (set_backend_switch _ _ _ Hsup Hact) in Hrun.
  unfold bind at 1 in Hrun.
  pose proof (enable_x64_quiet env backend st) as [_ Hq0].
  destruct (enable_x64 env backend st) as [s0 [[] | ?]]; [| discriminate].
  unfold bind at 1 in Hrun.
  pose proof (import_backend_quiet env backend s0) as [_ Hq1].
  destruct (import_backend env backend s0) as [s1 [[xp scs] | ?]] eqn:Himp;
    [| discriminate].
  apply import_backend_Ok in Himp as (np_name & scipy_name & _ & _ & -> & ->).
  unfold bind at 1 in Hrun.
  pose proof (alias_trapz_keeps env backend np_name s1) as Hq2.
  destruct (alias_trapz env backend (PyModule np_name) s1) as [s2 [[] | ?]];
    [| discriminate].
  unfold bind at 1 in Hrun.
  destruct (rebind_xp env backend (PyModule np_name) s2) as [s3 [[] | ?]] eqn:Hxp;
    [| discriminate].
  rewrite rebind_scs_as_loop in Hrun.
  assert (Hret : ∀ s : interp_state, ∃ s', @ret interp_state unit tt s = (s', Ok tt)
                   ∧ ∀ m a, module_attribute s' m a = module_attribute s m a)
    by (intros s; by exists s).
  pose proof (rebind_loop env _ _ _ _ _ _ (assign_backend_spec_attrs backend) Hxp)
    as [_ Hxp_keep].
  pose proof (rebind_loop env _ _ _ _ _ _ Hret Hrun) as [_ Hscs_keep].
  simpl in Hq0, Hq1, Hq2. split.
  - intros m Hout. rewrite Hscs_keep by discriminate.
    rewrite (rebind_loop_outside env _ _ _ _ _ _ m
               (assign_backend_spec_attrs backend) Hxp Hout).
    by rewrite Hq2, Hq1, Hq0 by discriminate.
  - intros m Hout.
    rewrite (rebind_loop_outside env _ _ _ _ _ _ m Hret Hrun Hout).
    rewrite Hxp_keep by discriminate.
    by rewrite Hq2, Hq1, Hq0 by discriminate.
Qed.

Lemma cupy_utils_not_listed module :
  module ∈ __all_with_xp → "gwpopulation.cupy_utils" ≠ "gwpopulation." +:+ module.
Proof.
  unfold __all_with_xp. rewrite !elem_of_cons.
  intros [-> | [-> | [-> | [-> | [-> | [-> | [-> | H]]]]]]]; try discriminate.
  by apply elem_of_nil in H.
Qed.

(** A slot that can be multiplied into the dataset is used as it is:
    [probability] leaves the instance untouched, whatever it returns. *)
Lemma probability_fitting_slot cls xp dataset parameters self z :
  dataset !! "redshift" = Some z →
  compatible (cached_dvc_dz self) (shape z) = true →
  fst (probability cls xp dataset parameters self) = self.
Proof.
  intros Hz Hfit.
  unfold probability, bind, getitem, lift, lookup_key, try_except.
  rewrite Hz.
  destruct (call_psi_of_z cls self z parameters) as [psi |]; [| reflexivity].
  rewrite normalisation_run.
  destruct (normalisation_of cls self parameters) as [N |]; [| reflexivity].
  destruct (elementwise Rdiv psi (scalar_add 1 z)) as [q |] eqn:Hq;
    [| reflexivity].
  destruct (cached_dvc_dz self) as [c |] eqn:Hc; [| discriminate].
  apply elementwise_shape in Hq. rewrite shape_scalar_add in Hq.
  destruct (inplace_compatible Rmult (div_scalar q N) c) as (r & Hr & _).
  - rewrite shape_div_scalar. unfold compatible in Hfit |- *.
    apply orb_true_iff in Hfit as [Hfit | Hfit];
      apply orb_true_iff; [| by right].
    apply Nat.eqb_eq in Hfit.
    destruct Hq as [Hq | Hq].
    + left. apply Nat.eqb_eq. congruence.
    + right. apply Nat.eqb_eq. congruence.
  - cbn [imul]. by rewrite Hr.
Qed.

(** C6, as the code has it.  A successful switch to another backend
    leaves [__backend__] at the new name, binds [xp] on the module
    object of every module of [__all_with_xp] and [scs] on that of
    every module of [__all_with_scs], and binds them on no other
    module: [cupy_utils], from which [models/redshift.py] takes
    [to_numpy], [trapz] and its first [xp], keeps the [xp] it had.  The
    code of [models/redshift.py] reads its [xp] at call time, so an
    instance built earlier stores its next interpolation as an array of
    the new module; its grid and volume arrays stay in the array module
    of construction, and a cache slot that can be multiplied into the
    dataset is used as it is and stays as it is.  Asking for the
    backend that is already active leaves the state untouched. *)
Theorem set_backend_rebinds_modules
    (env : environment) (backend : string) (st st' : interp_state) :
  (backend ∈ SUPPORTED_BACKENDS → backend = __backend__ st →
   set_backend env backend st = (st, Ok tt))
  ∧ (backend ≠ __backend__ st →
     set_backend env backend st = (st', Ok tt) →
     ∃ np_name scipy_name,
       _np_module !! backend = Some np_name
       ∧ _scipy_module !! backend = Some scipy_name
       ∧ __backend__ st' = backend
       ∧ (∀ module, module ∈ __all_with_xp →
            module_attribute st' ("gwpopulation." +:+ module) "xp"
            = Some (PyModule np_name))
       ∧ (∀ module, module ∈ __all_with_scs →
            module_attribute st' ("gwpopulation." +:+ module) "scs"
            = Some (PyAttr scipy_name "special"))
       ∧ (∀ m, (∀ module, module ∈ __all_with_xp →
                          m ≠ "gwpopulation." +:+ module) →
               module_attribute st' m "xp" = module_attribute st m "xp")
       ∧ (∀ m, (∀ module, module ∈ __all_with_scs →
                          m ≠ "gwpopulation." +:+ module) →
               module_attribute st' m "scs" = module_attribute st m "scs")
       ∧ module_attribute st' "gwpopulation.cupy_utils" "xp"
         = module_attribute st "gwpopulation.cupy_utils" "xp"
       ∧ redshift_xp st' = Some np_name
       ∧ ∀ xp cosmology xp_old zmax c,
           redshift_xp st' = Some xp →
           let self := set_cached_dvc_dz (__init__ cosmology xp_old zmax) c in
           (∀ redshifts,
              array_module <$>
                cached_dvc_dz (fst (_cache_dvc_dz xp redshifts self))
              = Some np_name)
           ∧ (∀ cls dataset parameters,
                let self' := fst (probability cls xp dataset parameters self) in
                array_module (zs self') = xp_old
                ∧ array_module (dvc_dz self') = xp_old)
           ∧ (∀ cls dataset parameters z,
                dataset !! "redshift" = Some z →
                compatible c (shape z) = true →
                fst (probability cls xp dataset parameters self) = self)).
Proof.
  split.
  - intros Hsup Heq. unfold set_backend.
    rewrite (bool_decide_true _ Hsup), (bool_decide_true _ Heq). reflexivity.
  - intros Hact Hrun.
    destruct (set_backend_success _ _ _ _ Hrun) as [Hsup Hb].
    assert (Hnames : ∃ np_name scipy_name,
               _np_module !! backend = Some np_name
               ∧ _scipy_module !! backend = Some scipy_name).
    { apply supported_cases in Hsup as [-> | [-> | ->]];
        eexists _, _; split; reflexivity. }
    destruct Hnames as (np_name & scipy_name & Hnp & Hscipy).
    destruct (set_backend_bindings env backend np_name scipy_name st st'
                Hact Hnp Hscipy Hrun) as [Hxp Hscs].
    destruct (set_backend_keeps_outside env backend st st' Hact Hrun)
      as [Hxp_out Hscs_out].
    assert (Hred : redshift_xp st' = Some np_name).
    { unfold redshift_xp.
      change "gwpopulation.models.redshift"
        with ("gwpopulation." +:+ "models.redshift").
      rewrite (Hxp "models.redshift"); [reflexivity |].
      in_literal_list __all_with_xp. }
    exists np_name, scipy_name.
    split; [exact Hnp |]. split; [exact Hscipy |]. split; [exact Hb |].
    split; [exact Hxp |]. split; [exact Hscs |].
    split; [exact Hxp_out |]. split; [exact Hscs_out |].
    split; [apply Hxp_out; exact cupy_utils_not_listed |].
    split; [exact Hred |].
    intros xp cosmology xp_old zmax c Hxp' self.
    rewrite Hred in Hxp'. injection Hxp' as <-.
    assert (Hgrid : grid_ok self)
      by (apply (constructed_grid_ok cosmology zmax); by exists xp_old, c).
    split; [| split].
    + intros redshifts. by rewrite (_cache_dvc_dz_grid_ok _ _ _ Hgrid).
    + intros cls dataset parameters self'. unfold self'.
      destruct (probability_outcome cls np_name dataset parameters self Hgrid)
        as [-> | (z & r & _ & ->)]; by split.
    + intros cls dataset parameters z Hz Hfit.
      by apply (probability_fitting_slot cls np_name dataset parameters self z).
Qed.

Lemma set_backend_rebinds_modules_witness :
  let st1 := fst (set_backend env_all "jax" initial_state) in
  ("jax" ∈ SUPPORTED_BACKENDS)
  ∧ "jax" ≠ __backend__ initial_state
  ∧ set_backend env_all "jax" initial_state = (st1, Ok tt)
  ∧ __backend__ st1 = "jax"
  ∧ redshift_xp st1 = Some "jax.numpy"
  ∧ module_attribute st1 "gwpopulation.utils" "scs"
    = Some (PyAttr "jax.scipy" "special")
  ∧ set_backend env_all "jax" st1 = (st1, Ok tt).
Proof.
  intros st1.
  assert (Hsup : "jax" ∈ SUPPORTED_BACKENDS)
    by in_literal_list SUPPORTED_BACKENDS.
  assert (Hne : "jax" ≠ __backend__ initial_state) by discriminate.
  assert (Hrun : set_backend env_all "jax" initial_state = (st1, Ok tt))
    by (vm_compute; reflexivity).
  destruct (proj2 (set_backend_rebinds_modules env_all "jax" initial_state st1)
              Hne Hrun)
    as (np_name & scipy_name & Hnp & Hscipy & Hb & Hxp & Hscs & _ & _ & _
        & Hred & _).
  assert (np_name = "jax.numpy") as ->
    by (vm_compute in Hnp; by injection Hnp).
  assert (scipy_name = "jax.scipy") as ->
    by (vm_compute in Hscipy; by injection Hscipy).
  repeat (split; [assumption |]).
  split.
  - apply (Hscs "utils"). in_literal_list __all_with_scs.
  - apply (proj1 (set_backend_rebinds_modules env_all "jax" st1 st1) Hsup).
    symmetry. exact Hb.
Defined.

End RebindingReach.

Section RebindingExamples.

(** Against C6 as stated.  Under numpy, with [cupy_utils] imported, a
    switch to cupy succeeds and [models.redshift] sees cupy, and yet
    [cupy_utils] still holds numpy as its [xp]: a module that does
    array arithmetic is not rebound.  And an instance that was built
    and used under numpy, called again on the same dataset after the
    switch, finds its slot fitting and does not look at [xp]: it
    returns with its slot and its grid still numpy arrays. *)
Lemma set_backend_rebinds_modules_counterexample :
  let st' := fst (set_backend env_all "cupy" state_with_cupy_utils) in
  let used :=
    fst (probability PowerLawRedshift "numpy" (dataset_of [0; 1])
           flat_parameters fresh_instance) in
  set_backend env_all "cupy" state_with_cupy_utils = (st', Ok tt)
  ∧ redshift_xp st' = Some "cupy"
  ∧ module_attribute st' "gwpopulation.cupy_utils" "xp"
    = Some (PyModule "numpy")
  ∧ (∃ p, probability PowerLawRedshift "cupy" (dataset_of [0; 1])
            flat_parameters used = (used, Ok p))
  ∧ array_module <$> cached_dvc_dz used = Some "numpy"
  ∧ array_module (zs used) = "numpy".
Proof.
  intros st' used.
  split; [vm_compute; reflexivity |].
  split; [vm_compute; reflexivity |].
  split; [vm_compute; reflexivity |].
  destruct fresh_normalisation as (N & HN & _).
  assert (Hused : used
                  = set_cached_dvc_dz fresh_instance
                      (Some {| array_module := "numpy";
                               data := volume_at fresh_instance
                                         (array_of [0; 1]) |})).
  { unfold used.
    by rewrite (probability_miss PowerLawRedshift "numpy" (dataset_of [0; 1])
                  flat_parameters fresh_instance (array_of [0; 1]) _ N
                  fresh_grid_ok (lookup_dataset_of _) (fresh_psi _) eq_refl HN
                  eq_refl). }
  rewrite Hused. split; [| by split].
  eexists.
  apply (probability_reuse_any_slot PowerLawRedshift "cupy"
           PowerLaw_ignores_cache (dataset_of [0; 1]) flat_parameters
           fresh_instance "numpy" (array_of [0; 1]) _ N
           (lookup_dataset_of _) (fresh_psi _) eq_refl HN).
Qed.

End RebindingExamples.

(* ===================================================================== *)
(** * An instance with z_max below the first grid point *)
(* ===================================================================== *)

Section BelowTheFirstGridPoint.

Lemma trapz_list_le a b x :
  increasing x → Forall2 Rle a b → trapz_list a x <= trapz_list b x.
Proof.
  intros Hx Hab. revert x Hx.
  induction Hab as [| a0 b0 a b H0 Hab IH]; intros x Hx.
  - destruct x; simpl; lra.
  - destruct x as [| x0 x]; [simpl; lra |].
    destruct Hab as [| a1 b1 a' b' H1 Hab'].
    + destruct x; simpl; lra.
    + destruct x as [| x1 x]; [simpl; lra |]. destruct Hx as [Hlt Hx].
      specialize (IH (x1 :: x) Hx).
      change (trapz_list (a0 :: a1 :: a') (x0 :: x1 :: x))
        with ((x1 - x0) * (a1 + a0) / 2 + trapz_list (a1 :: a') (x1 :: x)).
      change (trapz_list (b0 :: b1 :: b') (x0 :: x1 :: x))
        with ((x1 - x0) * (b1 + b0) / 2 + trapz_list (b1 :: b') (x1 :: x)).
      nra.
Qed.

(** The trapezoidal sum grows strictly when the first value does. *)
Lemma trapz_list_lt_first a b x :
  increasing x → Forall2 Rle a b → (2 <= length x)%nat →
  length a = length x →
  hd 0 a < hd 0 b →
  trapz_list a x < trapz_list b x.
Proof.
  intros Hx Hab Hn Hlen Hhd.
  destruct Hab as [| a0 b0 a b H0 Hab]; [simpl in Hhd; lra |].
  destruct Hab as [| a1 b1 a' b' H1 Hab'];
    [destruct x as [| ? [| ? ?]]; simpl in *; lia |].
  destruct x as [| x0 [| x1 x]]; try (simpl in Hn; lia).
  destruct Hx as [Hlt Hx]. simpl in Hhd.
  pose proof (trapz_list_le (a1 :: a') (b1 :: b') (x1 :: x) Hx
                (List.Forall2_cons a1 b1 H1 Hab')) as Hrest.
  change (trapz_list (a0 :: a1 :: a') (x0 :: x1 :: x))
    with ((x1 - x0) * (a1 + a0) / 2 + trapz_list (a1 :: a') (x1 :: x)).
  change (trapz_list (b0 :: b1 :: b') (x0 :: x1 :: x))
    with ((x1 - x0) * (b1 + b0) / 2 + trapz_list (b1 :: b') (x1 :: x)).
  nra.
Qed.

(** The trapezoidal sum of values that are not negative is positive
    when the last value is. *)
Lemma trapz_list_pos_last y x :
  increasing x → Forall (fun v => 0 <= v) y →
  length y = length x → (2 <= length x)%nat →
  0 < List.last y 0 →
  0 < trapz_list y x.
Proof.
  revert x. induction y as [| y0 y IH]; intros x Hx Hy Hlen Hn Hlast;
    [simpl in Hlen; lia |].
  destruct x as [| x0 x]; [simpl in Hn; lia |].
  destruct y as [| y1 y]; [simpl in *; lia |].
  destruct x as [| x1 x]; [simpl in Hn; lia |].
  destruct Hx as [Hlt Hx].
  apply Forall_cons in Hy as [Hy0 Hy].
  pose proof Hy as Hy'. apply Forall_cons in Hy' as [Hy1 _].
  change (trapz_list (y0 :: y1 :: y) (x0 :: x1 :: x))
    with ((x1 - x0) * (y1 + y0) / 2 + trapz_list (y1 :: y) (x1 :: x)).
  change (List.last (y0 :: y1 :: y) 0) with (List.last (y1 :: y) 0) in Hlast.
  destruct y as [| y2 y].
  - simpl in Hlast. destruct x; [| simpl in Hlen; lia]. simpl. nra.
  - assert (Hrest : 0 < trapz_list (y1 :: y2 :: y) (x1 :: x)).
    { apply IH; [exact Hx | exact Hy | simpl in Hlen |- *; lia
                | simpl in Hlen |- *; lia | exact Hlast]. }
    nra.
Qed.

Variable self : _Redshift.
Hypothesis Hself : constructed euclidean_volume (1 / 2000) self.

Lemma down_grid_increasing :
  increasing (map Ropp (linspace (1 / 1000) (1 / 2000) 1000)).
Proof. rewrite linspace_opp. apply linspace_increasing; [lra | lia]. Qed.

Lemma down_grid_bounds :
  Forall (fun z => 1 / 2000 <= z <= 1 / 1000)
    (linspace (1 / 1000) (1 / 2000) 1000).
Proof. apply linspace_bounds_down; [lra | lia]. Qed.

(** The normalisation of the flat power law on this instance, and the
    integral of the volume term over [1 + z] on its grid. *)
Lemma below_normalisation :
  normalisation_of PowerLawRedshift self flat_parameters
  = Ok (trapz_list
          (map (fun z => powerlaw1 0 (1 + 1 / 2000) 1 (1 + z)
                         * (euclidean_volume z * 4 * PI) / (1 + z))
             (linspace (1 / 1000) (1 / 2000) 1000))
          (linspace (1 / 1000) (1 / 2000) 1000)).
Proof.
  destruct (lookup_only_lamb 0) as [Hr Hl].
  destruct (constructed_fields _ _ _ Hself) as (Hzm & _ & Hzs & _ & Hd).
  destruct (constructed_shapes _ _ _ Hself) as [Hs1 Hs2].
  rewrite (normalisation_value PowerLawRedshift self flat_parameters _
             (PowerLaw_call_psi_of_z self (zs self) flat_parameters 0 Hr Hl));
    [| shape_of_map | congruence].
  cbn [data]. rewrite Hzm, Hzs, Hd.
  by rewrite !zip_with_map_same.
Qed.

Lemma below_integral :
  trapz_list
    (zip_with Rdiv (data (dvc_dz self)) (map (Rplus 1) (data (zs self))))
    (data (zs self))
  = trapz_list
      (map (fun z => euclidean_volume z * 4 * PI / (1 + z))
         (linspace (1 / 1000) (1 / 2000) 1000))
      (linspace (1 / 1000) (1 / 2000) 1000).
Proof.
  destruct (constructed_fields _ _ _ Hself) as (_ & _ & Hzs & _ & Hd).
  rewrite Hzs, Hd. by rewrite zip_with_map_same.
Qed.

Lemma flat_weight_cases x :
  powerlaw1 0 (1 + 1 / 2000) 1 x = 0 ∨ powerlaw1 0 (1 + 1 / 2000) 1 x = 1.
Proof.
  unfold powerlaw1. destruct (Rle_dec 1 x); [| by left].
  destruct (Rle_dec x (1 + 1 / 2000)); [right; apply power_0 | by left].
Qed.

Lemma below_normalisation_negative :
  ∃ N, normalisation_of PowerLawRedshift self flat_parameters = Ok N
       ∧ N < 0
       ∧ trapz_list
           (zip_with Rdiv (data (dvc_dz self)) (map (Rplus 1) (data (zs self))))
           (data (zs self)) < N.
Proof.
  eexists. split; [exact below_normalisation |].
  rewrite below_integral.
  set (grid := linspace (1 / 1000) (1 / 2000) 1000).
  set (weighted := fun z => powerlaw1 0 (1 + 1 / 2000) 1 (1 + z)
                            * (euclidean_volume z * 4 * PI) / (1 + z)).
  set (plain := fun z => euclidean_volume z * 4 * PI / (1 + z)).
  pose proof PI_RGT_0 as Hpi.
  pose proof down_grid_increasing as Hinc. fold grid in Hinc.
  pose proof down_grid_bounds as Hb. fold grid in Hb.
  assert (Hlen : length grid = 1000%nat) by apply length_linspace.
  assert (Hne : grid ≠ []) by (apply linspace_nonempty; lia).
  assert (Hplain : ∀ z, 1 / 2000 <= z <= 1 / 1000 → 0 < plain z).
  { intros z Hz. unfold plain, euclidean_volume.
    apply Rdiv_lt_0_compat; [| lra].
    apply Rmult_lt_0_compat; [| exact Hpi]. nra. }
  assert (Hweighted : ∀ z, 1 / 2000 <= z <= 1 / 1000 →
                           0 <= weighted z <= plain z).
  { intros z Hz. specialize (Hplain z Hz). unfold weighted, plain in *.
    destruct (flat_weight_cases (1 + z)) as [-> | ->]; unfold Rdiv in *; lra. }
  split.
  - assert (H : 0 < trapz_list (map weighted grid) (map Ropp grid)).
    { apply trapz_list_pos_last.
      - exact Hinc.
      - apply Forall_map. eapply Forall_impl; [exact Hb |].
        intros z Hz. by apply Hweighted.
      - by rewrite !length_map.
      - rewrite length_map, Hlen. lia.
      - rewrite (last_map_nonempty weighted 0 0 grid Hne).
        unfold grid at 1. rewrite last_linspace by lia.
        unfold weighted. rewrite powerlaw1_inside by lra.
        rewrite power_0. specialize (Hplain (1 / 2000) ltac:(lra)).
        unfold plain, Rdiv in *. lra. }
    rewrite trapz_list_opp in H. lra.
  - assert (H : trapz_list (map weighted grid) (map Ropp grid)
                < trapz_list (map plain grid) (map Ropp grid)).
    { apply trapz_list_lt_first.
      - exact Hinc.
      - apply Forall2_fmap, Forall_Forall2_diag.
        eapply Forall_impl; [exact Hb |].
        intros z Hz. by apply Hweighted.
      - rewrite length_map, Hlen. lia.
      - by rewrite !length_map.
      - rewrite (hd_map_nonempty weighted 0 0 grid Hne),
          (hd_map_nonempty plain 0 0 grid Hne).
        unfold grid. rewrite hd_linspace by lia.
        specialize (Hplain (1 / 1000) ltac:(lra)).
        unfold weighted. rewrite powerlaw1_above by lra.
        unfold Rdiv. lra. }
    rewrite !trapz_list_opp in H. lra.
Qed.

(** The volume term that [np.interp] returns at [z_max] on the grid
    that runs downwards: the query lies below the first sample point,
    so the first tabulated value is returned. *)
Lemma below_volume :
  interp1 (data (zs_ self)) (data (dvc_dz_ self)) (1 / 2000)
  = euclidean_volume (1 / 1000) * 4 * PI.
Proof.
  destruct (constructed_fields _ _ _ Hself) as (_ & Hzs & _ & Hd & _).
  rewrite Hzs, Hd. unfold interp1.
  assert (Hne : linspace (1 / 1000) (1 / 2000) 1000 ≠ [])
    by (apply linspace_nonempty; lia).
  rewrite last_linspace by lia. rewrite hd_linspace by lia.
  destruct (Rlt_dec (1 / 2000) (1 / 2000)); [lra |].
  destruct (Rlt_dec (1 / 2000) (1 / 1000)); [| lra].
  rewrite (hd_map_nonempty _ 0 0 _ Hne). by rewrite hd_linspace by lia.
Qed.

Lemma below_probability xp N :
  cached_dvc_dz self = None →
  normalisation_of PowerLawRedshift self flat_parameters = Ok N →
  ∃ p, snd (probability PowerLawRedshift xp (dataset_of [1 / 2000])
              flat_parameters self) = Ok p
       ∧ data p
         = [1 / (1 + 1 / 2000) / N * (euclidean_volume (1 / 1000) * 4 * PI)].
Proof.
  intros Hnone HN.
  destruct (lookup_only_lamb 0) as [Hr Hl].
  destruct (constructed_fields _ _ _ Hself) as (Hzm & _).
  eexists. split.
  - rewrite (probability_miss PowerLawRedshift xp (dataset_of [1 / 2000])
               flat_parameters self (array_of [1 / 2000]) _ N
               (constructed_grid_ok _ _ _ Hself) (lookup_dataset_of _)
               (PowerLaw_call_psi_of_z self (array_of [1 / 2000])
                  flat_parameters 0 Hr Hl)
               eq_refl HN);
      [reflexivity | by rewrite Hnone].
  - unfold times, weights, div_scalar, volume_at, array_of.
    cbn [data map zip_with]. rewrite below_volume, Hzm.
    rewrite powerlaw1_inside by lra. by rewrite power_0.
Qed.

End BelowTheFirstGridPoint.

Section BelowExamples.

Variable self : _Redshift.
Hypothesis Hself : constructed euclidean_volume (1 / 2000) self.
Hypothesis Hnone : cached_dvc_dz self = None.

(** On a new instance with [z_max = 1/2000] the flat power law has a
    negative normalisation, which is not the integral of the volume
    term over [1 + z]; the density at [z_max] is negative, and is not
    the volume term over [1 + z] over that integral. *)
Lemma below_flat_power_law xp :
  ∃ N p v,
    normalisation_of PowerLawRedshift self flat_parameters = Ok N
    ∧ N < 0
    ∧ N ≠ trapz_list
            (zip_with Rdiv (data (dvc_dz self)) (map (Rplus 1) (data (zs self))))
            (data (zs self))
    ∧ call_psi_of_z PowerLawRedshift self (array_of [1 / 2000]) flat_parameters
      = Ok (array_of [1])
    ∧ snd (probability PowerLawRedshift xp (dataset_of [1 / 2000])
             flat_parameters self) = Ok p
    ∧ data p = [v]
    ∧ v < 0
    ∧ v ≠ interp1 (data (zs_ self)) (data (dvc_dz_ self)) (1 / 2000)
          / (1 + 1 / 2000)
          / trapz_list
              (zip_with Rdiv (data (dvc_dz self))
                 (map (Rplus 1) (data (zs self))))
              (data (zs self)).
Proof.
  destruct (below_normalisation_negative self Hself) as (N & HN & Hneg & Hlt).
  destruct (below_probability self Hself xp N Hnone HN) as (p & Hp & Hdata).
  set (integral := trapz_list
                     (zip_with Rdiv (data (dvc_dz self))
                        (map (Rplus 1) (data (zs self))))
                     (data (zs self))) in *.
  set (V := euclidean_volume (1 / 1000) * 4 * PI) in *.
  assert (HV : 0 < V).
  { unfold V, euclidean_volume. pose proof PI_RGT_0. nra. }
  pose proof (Rinv_neg N Hneg) as HinvN.
  exists N, p, (1 / (1 + 1 / 2000) / N * V).
  split; [exact HN |]. split; [exact Hneg |]. split; [lra |].
  split.
  { destruct (lookup_only_lamb 0) as [Hr Hl].
    destruct (constructed_fields _ _ _ Hself) as (Hzm & _).
    rewrite (PowerLaw_call_psi_of_z self (array_of [1 / 2000])
               flat_parameters 0 Hr Hl).
    unfold array_of. cbn [data map array_module]. rewrite Hzm.
    rewrite powerlaw1_inside by lra. by rewrite power_0. }
  split; [exact Hp |]. split; [exact Hdata |]. split.
  - unfold Rdiv. assert (0 < / (1 + 1 / 2000)) by (apply Rinv_0_lt_compat; lra).
    nra.
  - rewrite (below_volume self Hself). fold V. intros Heq.
    set (a := V * / (1 + 1 / 2000)).
    assert (Ha : 0 < a).
    { unfold a. apply Rmult_lt_0_compat; [exact HV |].
      apply Rinv_0_lt_compat. lra. }
    assert (H1 : a * / N = a * / integral).
    { replace (a * / N) with (1 / (1 + 1 / 2000) / N * V)
        by (unfold a, Rdiv; ring).
      replace (a * / integral) with (V / (1 + 1 / 2000) / integral)
        by (unfold a, Rdiv; ring).
      exact Heq. }
    apply Rmult_eq_reg_l in H1; [| lra].
    apply Rinv_eq_reg in H1. lra.
Qed.

End BelowExamples.

Section StatedFormulas.

Lemma stale_slot_instance :
  fst (probability PowerLawRedshift "numpy" (dataset_of [0]) flat_parameters
         fresh_instance)
  = set_cached_dvc_dz fresh_instance
      (Some {| array_module := "numpy";
               data := volume_at fresh_instance (array_of [0]) |}).
Proof.
  destruct fresh_normalisation as (N & HN & _).
  by rewrite (probability_miss PowerLawRedshift "numpy" (dataset_of [0])
                flat_parameters fresh_instance (array_of [0]) _ N fresh_grid_ok
                (lookup_dataset_of _) (fresh_psi _) eq_refl HN eq_refl).
Qed.

(** Against C1 as stated, on three counts.  The formula: after a call
    on the one-entry dataset [[0]], a call on the one-entry dataset
    [[1]] multiplies in the volume term of redshift 0 that is still in
    the slot, and the result is not
    [psi / (1 + z) / normalisation] times the volume term at redshift
    1.  The sign: on a new instance with [z_max = 1/2000], below the
    first grid point 0.001, the grid runs downwards, the normalisation
    of the flat power law is negative, and the density at the redshift
    [z_max], where the weighting is 1, is negative.  Every parameter
    assignment: without ["lamb"] the power-law model raises
    [KeyError]. *)
Lemma probability_formula_counterexample :
  (let self1 :=
     fst (probability PowerLawRedshift "numpy" (dataset_of [0]) flat_parameters
            fresh_instance) in
   ∃ N p,
     normalisation_of PowerLawRedshift self1 flat_parameters = Ok N
     ∧ call_psi_of_z PowerLawRedshift self1 (array_of [1]) flat_parameters
       = Ok (array_of [1])
     ∧ snd (probability PowerLawRedshift "numpy" (dataset_of [1])
              flat_parameters self1) = Ok p
     ∧ data p
       ≠ [1 / (1 + 1) / N
          * interp1 (data (zs_ self1)) (data (dvc_dz_ self1)) 1])
  ∧ (let small := __init__ euclidean_volume "numpy" (1 / 2000) in
     ∃ N p v,
       normalisation_of PowerLawRedshift small flat_parameters = Ok N
       ∧ N < 0
       ∧ call_psi_of_z PowerLawRedshift small (array_of [1 / 2000])
           flat_parameters = Ok (array_of [1])
       ∧ snd (probability PowerLawRedshift "numpy" (dataset_of [1 / 2000])
                flat_parameters small) = Ok p
       ∧ data p = [v]
       ∧ v < 0)
  ∧ probability PowerLawRedshift "numpy" (dataset_of [0]) ∅ fresh_instance
    = (fresh_instance, Raise (KeyError "lamb")).
Proof.
  split; [exact stale_slot_example |]. split.
  - intros small.
    destruct (below_flat_power_law small
                (ex_intro _ "numpy" (ex_intro _ None eq_refl)) eq_refl "numpy")
      as (N & p & v & HN & Hneg & _ & Hpsi & Hp & Hdata & Hv & _).
    exists N, p, v.
    exact (conj HN (conj Hneg (conj Hpsi (conj Hp (conj Hdata Hv))))).
  - unfold probability, bind, getitem, lift, lookup_key.
    by rewrite lookup_dataset_of.
Qed.

(** Against C8 as stated, on two counts.  On a new instance with
    [z_max = 1/2000] the weighting is 1 on [[0, z_max]] and 0 on the
    grid but for its last point, so the normalisation is not the
    integral of the volume term over [1 + z], and the density at
    [z_max] is not the volume term over [1 + z] over that integral.
    And on the instance of the spec's own scenario ([z_max = 1]), after
    a call on the dataset [[0]], the call on the dataset [[1]] does not
    return the volume term at redshift 1 over [1 + z] over the
    integral: the volume term of redshift 0 is still in the slot. *)
Lemma PowerLaw_flat_counterexample :
  (let small := __init__ euclidean_volume "numpy" (1 / 2000) in
   let integral :=
     trapz_list
       (zip_with Rdiv (data (dvc_dz small)) (map (Rplus 1) (data (zs small))))
       (data (zs small)) in
   ∃ N p v,
     call_psi_of_z PowerLawRedshift small (array_of [1 / 2000])
       {[ "lamb" := 0 ]} = Ok (array_of [1])
     ∧ normalisation_of PowerLawRedshift small {[ "lamb" := 0 ]} = Ok N
     ∧ N ≠ integral
     ∧ snd (PowerLawRedshift__call__ "numpy" (dataset_of [1 / 2000]) 0 small)
       = Ok p
     ∧ data p = [v]
     ∧ v ≠ interp1 (data (zs_ small)) (data (dvc_dz_ small)) (1 / 2000)
           / (1 + 1 / 2000) / integral)
  ∧ (let self1 :=
       fst (PowerLawRedshift__call__ "numpy" (dataset_of [0]) 0 fresh_instance) in
     let integral :=
       trapz_list
         (zip_with Rdiv (data (dvc_dz self1)) (map (Rplus 1) (data (zs self1))))
         (data (zs self1)) in
     ∃ p,
       snd (PowerLawRedshift__call__ "numpy" (dataset_of [1]) 0 self1) = Ok p
       ∧ data p
         ≠ [interp1 (data (zs_ self1)) (data (dvc_dz_ self1)) 1
            / (1 + 1) / integral]).
Proof.
  split.
  - intros small integral.
    destruct (below_flat_power_law small
                (ex_intro _ "numpy" (ex_intro _ None eq_refl)) eq_refl "numpy")
      as (N & p & v & HN & _ & Hne & Hpsi & Hp & Hdata & _ & Hv).
    exists N, p, v.
    exact (conj Hpsi (conj HN (conj Hne (conj Hp (conj Hdata Hv))))).
  - intros self1 integral.
    destruct stale_slot_example as (N & p & HN & _ & Hp & Hdata).
    change (fst (probability PowerLawRedshift "numpy" (dataset_of [0])
                   flat_parameters fresh_instance)) with self1 in HN, Hp, Hdata.
    assert (Hself1 : constructed euclidean_volume 1 self1).
    { exists "numpy",
        (Some {| array_module := "numpy";
                 data := volume_at fresh_instance (array_of [0]) |}).
      exact stale_slot_instance. }
    pose proof (flat_normalisation euclidean_volume 1 self1 Hself1 ltac:(lra))
      as Hflat.
    fold integral in Hflat. rewrite HN in Hflat. apply Ok_inj in Hflat.
    exists p. split; [exact Hp |].
    intros Heq. apply Hdata. rewrite Heq, Hflat. f_equal.
    unfold Rdiv. ring.
Qed.

End StatedFormulas.
